(** * The download-and-verify pipeline of the update engine

    A shallow embedding of three translation units of the update engine:

    - [install_plan.cc]: the [InstallPlan] record and its comparison
      operators (module [Plan]);
    - [filesystem_verifier_action.cc]: the asynchronous partition hasher
      (module [Verifier]);
    - [download_action.cc]: the payload downloader with its peer-to-peer
      mirror file (module [Download]).

    Every C++ member function becomes a Rocq function of the same name on
    an explicit state record.  The state record holds the data members of
    the C++ object and, next to them, the part of the outside world the
    member functions act on (calls made on the processor, on the fetcher,
    on the file system).  Results of calls on collaborators whose code is
    not part of these translation units are taken from an environment
    given as section variables. *)

From Stdlib Require Import ZArith List String Bool Lia Arith.
From Stdlib.Strings Require Import Byte.
Import ListNotations.
Local Open Scope string_scope.
Local Open Scope list_scope.
Local Open Scope Z_scope.

(** ** Machine integers *)

(** [uint64_t], [size_t]: values modulo [2^64]. *)
Definition to_uint64 (z : Z) : Z := z mod 2 ^ 64.

(** [int64_t], [off_t], [ssize_t]: two's complement on 64 bits. *)
Definition to_int64 (z : Z) : Z := (z + 2 ^ 63) mod 2 ^ 64 - 2 ^ 63.

(** Length of a byte buffer as the [size_t] the code passes around. *)
Definition blen (bs : list byte) : Z := Z.of_nat (List.length bs).

(** ** Error codes *)

(** The members of [ErrorCode] that the three translation units and their
    interfaces name. *)
Inductive ErrorCode : Type :=
| kSuccess
| kError
| kDownloadTransferError
| kPayloadHashMismatchError
| kPayloadSizeMismatchError
| kSignedDeltaPayloadExpectedError
| kDownloadInvalidMetadataSignature
| kDownloadWriteError
| kFilesystemVerifierError
| kNewRootfsVerificationError.

Definition ErrorCode_eqb (a b : ErrorCode) : bool :=
  match a, b with
  | kSuccess, kSuccess
  | kError, kError
  | kDownloadTransferError, kDownloadTransferError
  | kPayloadHashMismatchError, kPayloadHashMismatchError
  | kPayloadSizeMismatchError, kPayloadSizeMismatchError
  | kSignedDeltaPayloadExpectedError, kSignedDeltaPayloadExpectedError
  | kDownloadInvalidMetadataSignature, kDownloadInvalidMetadataSignature
  | kDownloadWriteError, kDownloadWriteError
  | kFilesystemVerifierError, kFilesystemVerifierError
  | kNewRootfsVerificationError, kNewRootfsVerificationError => true
  | _, _ => false
  end.

(** ** install_plan.cc *)

Module Plan.

(** [chromeos::Blob], a vector of bytes. *)
Definition Blob := list byte.

Fixpoint Blob_eqb (a b : Blob) : bool :=
  match a, b with
  | [], [] => true
  | x :: a', y :: b' => Byte.eqb x y && Blob_eqb a' b'
  | _, _ => false
  end.

(** [BootControlInterface::Slot], an unsigned integer. *)
Definition Slot := Z.

(** [InstallPlan::Partition]. *)
Record Partition : Type := mkPartition {
  name : string;
  source_path : string;
  source_size : Z;
  source_hash : Blob;
  target_path : string;
  target_size : Z;
  target_hash : Blob;
  run_postinstall : bool
}.

(** A default-constructed [Partition]. *)
Definition Partition_default : Partition :=
  mkPartition "" "" 0 [] "" 0 [] false.

(** [InstallPlan::Partition::operator==]. *)
Definition Partition_eqb (this that : Partition) : bool :=
  String.eqb (name this) (name that) &&
  String.eqb (source_path this) (source_path that) &&
  Z.eqb (source_size this) (source_size that) &&
  Blob_eqb (source_hash this) (source_hash that) &&
  String.eqb (target_path this) (target_path that) &&
  Z.eqb (target_size this) (target_size that) &&
  Blob_eqb (target_hash this) (target_hash that) &&
  Bool.eqb (run_postinstall this) (run_postinstall that).

(** [operator==] of [std::vector<Partition>]: same length and equal
    elements, position by position. *)
Fixpoint partitions_eqb (a b : list Partition) : bool :=
  match a, b with
  | [], [] => true
  | x :: a', y :: b' => Partition_eqb x y && partitions_eqb a' b'
  | _, _ => false
  end.

Record InstallPlan : Type := mkInstallPlan {
  is_resume : bool;
  is_full_update : bool;
  download_url : string;
  payload_size : Z;
  payload_hash : string;
  metadata_size : Z;
  metadata_signature : string;
  source_slot : Slot;
  target_slot : Slot;
  partitions : list Partition;
  hash_checks_mandatory : bool;
  powerwash_required : bool;
  public_key_rsa : string
}.

(** [InstallPlan::operator==]. *)
Definition InstallPlan_eqb (this that : InstallPlan) : bool :=
  Bool.eqb (is_resume this) (is_resume that) &&
  Bool.eqb (is_full_update this) (is_full_update that) &&
  String.eqb (download_url this) (download_url that) &&
  Z.eqb (payload_size this) (payload_size that) &&
  String.eqb (payload_hash this) (payload_hash that) &&
  Z.eqb (metadata_size this) (metadata_size that) &&
  String.eqb (metadata_signature this) (metadata_signature that) &&
  Z.eqb (source_slot this) (source_slot that) &&
  Z.eqb (target_slot this) (target_slot that) &&
  partitions_eqb (partitions this) (partitions that).

(** [InstallPlan::operator!=]. *)
Definition InstallPlan_neqb (this that : InstallPlan) : bool :=
  negb (InstallPlan_eqb this that).

Definition set_partitions (ps : list Partition) (p : InstallPlan)
  : InstallPlan :=
  mkInstallPlan (is_resume p) (is_full_update p) (download_url p)
    (payload_size p) (payload_hash p) (metadata_size p)
    (metadata_signature p) (source_slot p) (target_slot p) ps
    (hash_checks_mandatory p) (powerwash_required p) (public_key_rsa p).

Definition set_source_hash (h : Blob) (p : Partition) : Partition :=
  mkPartition (name p) (source_path p) (source_size p) h
    (target_path p) (target_size p) (target_hash p) (run_postinstall p).

Definition set_source_size (n : Z) (p : Partition) : Partition :=
  mkPartition (name p) (source_path p) n (source_hash p)
    (target_path p) (target_size p) (target_hash p) (run_postinstall p).

Definition set_name (n : string) (p : Partition) : Partition :=
  mkPartition n (source_path p) (source_size p) (source_hash p)
    (target_path p) (target_size p) (target_hash p) (run_postinstall p).

(** The three fields [operator==] does not read, replaced. *)
Definition set_uncompared (h w : bool) (k : string) (p : InstallPlan)
  : InstallPlan :=
  mkInstallPlan (is_resume p) (is_full_update p) (download_url p)
    (payload_size p) (payload_hash p) (metadata_size p)
    (metadata_signature p) (source_slot p) (target_slot p) (partitions p)
    h w k.

End Plan.

(** ** filesystem_verifier_action.cc *)

Module Verifier.
Import Plan.

Inductive VerifierMode : Type :=
| kComputeSourceHash
| kVerifyTargetHash.

(** [const off_t kReadFileBufferSize = 128 * 1024;] *)
Definition kReadFileBufferSize : Z := 128 * 1024.

(** Modelled from the spec: the two legacy partition names, constants of
    [payload_constants.h], which is not among the translation units; the
    specification gives their values as "root" and "kernel". *)
Definition kLegacyPartitionNameRoot : string := "root".
Definition kLegacyPartitionNameKernel : string := "kernel".

(** *** Collaborators *)

(** [BootControlInterface::GetPartitionDevice(name, slot, &device)]:
    [Some device] when the call returns true and stores [device], [None]
    when it returns false and leaves the output argument alone. *)
Class BootControlInterface : Type := {
  GetPartitionDevice : string -> Slot -> option string
}.

(** Modelled from the spec: [OmahaHashCalculator], the hash accumulator.
    Its context is represented by the bytes fed so far; [raw_hash] is the
    digest of these bytes; [Update] and [Finalize] may fail. *)
Class OmahaHashCalculator : Type := {
  Update_ok : list byte -> list byte -> bool;
  Finalize_ok : list byte -> bool;
  raw_hash : list byte -> Blob
}.

(** [utils::GetFilesystemSize], [utils::FileSize] on a path, and the two
    calls on [chromeos::FileStream] that can fail.
    [GetFilesystemSize path = Some (block_count, block_size)] when the
    call returns true; [ReadAsync_ok path consumed n] tells whether a read
    of [n] bytes can be scheduled on the stream opened on [path] that has
    delivered [consumed] so far. *)
Class Platform : Type := {
  GetFilesystemSize : string -> option (Z * Z);
  FileSize : string -> Z;
  FileStream_Open : string -> bool;
  ReadAsync_ok : string -> list byte -> Z -> bool
}.

(** *** State *)

(** A [chromeos::FileStream] opened for reading: the device it was opened
    on, the bytes it has delivered to read callbacks, the size of the
    read that is scheduled and not yet answered, and whether
    [CloseBlocking] was called. *)
Record Stream : Type := mkStream {
  stream_path : string;
  consumed : list byte;
  pending : option Z;
  closed : bool
}.

(** The data members of [FilesystemVerifierAction] ([buffer_] by its
    size, [hasher_] by the bytes fed), the pipes of the action, and the
    outside world: the codes passed to [processor_->ActionComplete],
    oldest first, the paths given to [FileStream::Open], the streams
    closed by [CloseBlocking], and whether the process was aborted
    (failed [CHECK], access through a null pointer or past the end of a
    vector). *)
Record State : Type := mkState {
  verifier_mode_ : VerifierMode;
  install_plan_ : InstallPlan;
  partition_index_ : nat;
  remaining_size_ : Z;
  read_done_ : bool;
  cancelled_ : bool;
  src_stream_ : option Stream;
  buffer_ : Z;
  hasher_ : option (list byte);
  input_object : option InstallPlan;
  has_output_pipe : bool;
  output_object : option InstallPlan;
  completions : list ErrorCode;
  opened : list string;
  closed_streams : list Stream;
  crashed : bool
}.

Definition set_install_plan_ (v : InstallPlan) (s : State) : State :=
  mkState (verifier_mode_ s) v (partition_index_ s) (remaining_size_ s)
    (read_done_ s) (cancelled_ s) (src_stream_ s) (buffer_ s) (hasher_ s)
    (input_object s) (has_output_pipe s) (output_object s) (completions s)
    (opened s) (closed_streams s) (crashed s).

Definition set_partition_index_ (v : nat) (s : State) : State :=
  mkState (verifier_mode_ s) (install_plan_ s) v (remaining_size_ s)
    (read_done_ s) (cancelled_ s) (src_stream_ s) (buffer_ s) (hasher_ s)
    (input_object s) (has_output_pipe s) (output_object s) (completions s)
    (opened s) (closed_streams s) (crashed s).

Definition set_remaining_size_ (v : Z) (s : State) : State :=
  mkState (verifier_mode_ s) (install_plan_ s) (partition_index_ s) v
    (read_done_ s) (cancelled_ s) (src_stream_ s) (buffer_ s) (hasher_ s)
    (input_object s) (has_output_pipe s) (output_object s) (completions s)
    (opened s) (closed_streams s) (crashed s).

Definition set_read_done_ (v : bool) (s : State) : State :=
  mkState (verifier_mode_ s) (install_plan_ s) (partition_index_ s)
    (remaining_size_ s) v (cancelled_ s) (src_stream_ s) (buffer_ s)
    (hasher_ s) (input_object s) (has_output_pipe s) (output_object s)
    (completions s) (opened s) (closed_streams s) (crashed s).

Definition set_cancelled_ (v : bool) (s : State) : State :=
  mkState (verifier_mode_ s) (install_plan_ s) (partition_index_ s)
    (remaining_size_ s) (read_done_ s) v (src_stream_ s) (buffer_ s)
    (hasher_ s) (input_object s) (has_output_pipe s) (output_object s)
    (completions s) (opened s) (closed_streams s) (crashed s).

Definition set_src_stream_ (v : option Stream) (s : State) : State :=
  mkState (verifier_mode_ s) (install_plan_ s) (partition_index_ s)
    (remaining_size_ s) (read_done_ s) (cancelled_ s) v (buffer_ s)
    (hasher_ s) (input_object s) (has_output_pipe s) (output_object s)
    (completions s) (opened s) (closed_streams s) (crashed s).

Definition set_buffer_ (v : Z) (s : State) : State :=
  mkState (verifier_mode_ s) (install_plan_ s) (partition_index_ s)
    (remaining_size_ s) (read_done_ s) (cancelled_ s) (src_stream_ s) v
    (hasher_ s) (input_object s) (has_output_pipe s) (output_object s)
    (completions s) (opened s) (closed_streams s) (crashed s).

Definition set_hasher_ (v : option (list byte)) (s : State) : State :=
  mkState (verifier_mode_ s) (install_plan_ s) (partition_index_ s)
    (remaining_size_ s) (read_done_ s) (cancelled_ s) (src_stream_ s)
    (buffer_ s) v (input_object s) (has_output_pipe s) (output_object s)
    (completions s) (opened s) (closed_streams s) (crashed s).

Definition set_output_object (v : option InstallPlan) (s : State) : State :=
  mkState (verifier_mode_ s) (install_plan_ s) (partition_index_ s)
    (remaining_size_ s) (read_done_ s) (cancelled_ s) (src_stream_ s)
    (buffer_ s) (hasher_ s) (input_object s) (has_output_pipe s) v
    (completions s) (opened s) (closed_streams s) (crashed s).

Definition set_completions (v : list ErrorCode) (s : State) : State :=
  mkState (verifier_mode_ s) (install_plan_ s) (partition_index_ s)
    (remaining_size_ s) (read_done_ s) (cancelled_ s) (src_stream_ s)
    (buffer_ s) (hasher_ s) (input_object s) (has_output_pipe s)
    (output_object s) v (opened s) (closed_streams s) (crashed s).

Definition set_opened (v : list string) (s : State) : State :=
  mkState (verifier_mode_ s) (install_plan_ s) (partition_index_ s)
    (remaining_size_ s) (read_done_ s) (cancelled_ s) (src_stream_ s)
    (buffer_ s) (hasher_ s) (input_object s) (has_output_pipe s)
    (output_object s) (completions s) v (closed_streams s) (crashed s).

Definition set_closed_streams (v : list Stream) (s : State) : State :=
  mkState (verifier_mode_ s) (install_plan_ s) (partition_index_ s)
    (remaining_size_ s) (read_done_ s) (cancelled_ s) (src_stream_ s)
    (buffer_ s) (hasher_ s) (input_object s) (has_output_pipe s)
    (output_object s) (completions s) (opened s) v (crashed s).

Definition set_crashed (v : bool) (s : State) : State :=
  mkState (verifier_mode_ s) (install_plan_ s) (partition_index_ s)
    (remaining_size_ s) (read_done_ s) (cancelled_ s) (src_stream_ s)
    (buffer_ s) (hasher_ s) (input_object s) (has_output_pipe s)
    (output_object s) (completions s) (opened s) (closed_streams s) v.

Definition set_pending (v : option Z) (st : Stream) : Stream :=
  mkStream (stream_path st) (consumed st) v (closed st).

Definition set_closed (v : bool) (st : Stream) : Stream :=
  mkStream (stream_path st) (consumed st) (pending st) v.

(** A default-constructed [InstallPlan]. *)
Definition InstallPlan_default : InstallPlan :=
  mkInstallPlan false false "" 0 "" 0 "" (2 ^ 32 - 1) (2 ^ 32 - 1) []
    false false "".

(** The action as its constructor leaves it, with the pipes the processor
    wired. *)
Definition init (mode : VerifierMode) (input : option InstallPlan)
    (out_pipe : bool) : State :=
  mkState mode InstallPlan_default 0%nat 0 false false None 0 None
    input out_pipe None [] [] [] false.

Definition ActionComplete (code : ErrorCode) (s : State) : State :=
  set_completions (completions s ++ [code]) s.

Definition SetOutputObject (p : InstallPlan) (s : State) : State :=
  set_output_object (Some p) s.

Definition crash (s : State) : State := set_crashed true s.

Definition pending_read (s : State) : option Z :=
  match src_stream_ s with
  | Some st => pending st
  | None => None
  end.

(** [partitions[i] = p], nothing when [i] is past the end. *)
Fixpoint replace_nth (i : nat) (p : Partition) (ps : list Partition)
  : list Partition :=
  match ps, i with
  | [], _ => []
  | _ :: ps', O => p :: ps'
  | q :: ps', S i' => q :: replace_nth i' p ps'
  end.

(** The member functions that end by calling another member function
    return that call as their outcome; [call] below carries the calls
    out. *)
Inductive Call : Type :=
| CStartPartitionHashing
| CScheduleRead
| COnReadDoneCallback (data : list byte)
| CFinishPartitionHashing.

Inductive Outcome : Type :=
| Return (s : State)
| Tail (c : Call) (s : State).

(** Modelled from the spec: [ScopedActionCompleter], the completion guard
    of [action_processor.h]: armed with code [kError] when constructed, it
    calls [ActionComplete] with its code when it goes out of scope unless
    it was disarmed. *)
Record ScopedActionCompleter : Type := mkCompleter {
  completer_code : ErrorCode;
  should_complete : bool
}.

Definition ScopedActionCompleter_exit (g : ScopedActionCompleter)
    (s : State) : State :=
  if should_complete g then ActionComplete (completer_code g) s else s.

Section Actions.

Context {boot_control_ : BootControlInterface}.
Context {hash_calculator : OmahaHashCalculator}.
Context {platform : Platform}.

(** [FilesystemVerifierAction::Cleanup]. *)
Definition Cleanup (code : ErrorCode) (s : State) : State :=
  let s := set_src_stream_ None s in
  let s := set_buffer_ 0 s in
  if cancelled_ s then s
  else
    let s :=
      if ErrorCode_eqb code kSuccess && has_output_pipe s
      then SetOutputObject (install_plan_ s) s else s in
    ActionComplete code s.

(** [FilesystemVerifierAction::TerminateProcessing]. *)
Definition TerminateProcessing (s : State) : State :=
  let s := set_cancelled_ true s in
  Cleanup kSuccess s.

(** [FilesystemVerifierAction::IsCleanupPending]. *)
Definition IsCleanupPending (s : State) : bool :=
  match src_stream_ s with Some _ => true | None => false end.

(** [FilesystemVerifierAction::StartPartitionHashing]. *)
Definition StartPartitionHashing (s : State) : Outcome :=
  if Nat.eqb (partition_index_ s)
       (List.length (partitions (install_plan_ s)))
  then Return (Cleanup kSuccess s)
  else
    match nth_error (partitions (install_plan_ s)) (partition_index_ s) with
    | None => Return (crash s)
    | Some partition =>
      let slot :=
        match verifier_mode_ s with
        | kComputeSourceHash => source_slot (install_plan_ s)
        | kVerifyTargetHash => target_slot (install_plan_ s)
        end in
      let part_path :=
        match GetPartitionDevice (name partition) slot with
        | Some device => device
        | None => ""
        end in
      let s :=
        match verifier_mode_ s with
        | kComputeSourceHash =>
            set_remaining_size_ (to_int64 (source_size partition)) s
        | kVerifyTargetHash =>
            set_remaining_size_ (to_int64 (target_size partition)) s
        end in
      if String.eqb part_path "" then
        Return (Cleanup kFilesystemVerifierError s)
      else
        let s := set_opened (opened s ++ [part_path]) s in
        if negb (FileStream_Open part_path) then
          let s := set_src_stream_ None s in
          Return (Cleanup kFilesystemVerifierError s)
        else
          let s :=
            set_src_stream_ (Some (mkStream part_path [] None false)) s in
          let s := set_buffer_ kReadFileBufferSize s in
          let s := set_read_done_ false s in
          let s := set_hasher_ (Some []) s in
          Tail CScheduleRead s
    end.

(** [FilesystemVerifierAction::ScheduleRead]. *)
Definition ScheduleRead (s : State) : Outcome :=
  let bytes_to_read :=
    to_uint64 (Z.min (to_int64 (buffer_ s)) (remaining_size_ s)) in
  if bytes_to_read =? 0 then Tail (COnReadDoneCallback []) s
  else
    match src_stream_ s with
    | None => Return (crash s)
    | Some st =>
      if ReadAsync_ok (stream_path st) (consumed st) bytes_to_read then
        Return (set_src_stream_ (Some (set_pending (Some bytes_to_read) st)) s)
      else Return (Cleanup kError s)
    end.

(** [FilesystemVerifierAction::OnReadDoneCallback]; [data] is what the
    read left in [buffer_], [bytes_read] its length. *)
Definition OnReadDoneCallback (s : State) (data : list byte) : Outcome :=
  let bytes_read := blen data in
  let hashed : State + State :=
    if bytes_read =? 0 then inr (set_read_done_ true s)
    else
      let s :=
        set_remaining_size_ (to_int64 (remaining_size_ s - bytes_read)) s in
      if read_done_ s then inl (crash s)
      else
        match hasher_ s with
        | None => inl (crash s)
        | Some fed =>
          if negb (Update_ok fed data) then inl (Cleanup kError s)
          else inr (set_hasher_ (Some (fed ++ data)) s)
        end in
  match hashed with
  | inl s => Return s
  | inr s =>
    if cancelled_ s then Return (Cleanup kError s)
    else if read_done_ s || (remaining_size_ s =? 0) then
      if negb (remaining_size_ s =? 0) then
        Return (Cleanup kFilesystemVerifierError s)
      else Tail CFinishPartitionHashing s
    else Tail CScheduleRead s
  end.

(** [FilesystemVerifierAction::OnReadErrorCallback]. *)
Definition OnReadErrorCallback (s : State) : State :=
  Cleanup kError s.

(** [FilesystemVerifierAction::FinishPartitionHashing]. *)
Definition FinishPartitionHashing (s : State) : Outcome :=
  match hasher_ s with
  | None => Return (crash s)
  | Some fed =>
    if negb (Finalize_ok fed) then Return (Cleanup kError s)
    else
      match
        nth_error (partitions (install_plan_ s)) (partition_index_ s)
      with
      | None => Return (crash s)
      | Some partition =>
        let compared : State + State :=
          match verifier_mode_ s with
          | kComputeSourceHash =>
            let partition := set_source_hash (raw_hash fed) partition in
            inr (set_install_plan_
                   (set_partitions
                      (replace_nth (partition_index_ s) partition
                         (partitions (install_plan_ s)))
                      (install_plan_ s)) s)
          | kVerifyTargetHash =>
            if negb (Blob_eqb (target_hash partition) (raw_hash fed)) then
              inl (Cleanup kNewRootfsVerificationError s)
            else inr s
          end in
        match compared with
        | inl s => Return s
        | inr s =>
          let s := set_partition_index_ (S (partition_index_ s)) s in
          let s := set_hasher_ None s in
          let s := set_buffer_ 0 s in
          match src_stream_ s with
          | None => Return (crash s)
          | Some st =>
            let st := set_closed true st in
            let s := set_src_stream_ (Some st) s in
            let s := set_closed_streams (closed_streams s ++ [st]) s in
            Tail CStartPartitionHashing s
          end
        end
      end
  end.

Definition dispatch (c : Call) (s : State) : Outcome :=
  match c with
  | CStartPartitionHashing => StartPartitionHashing s
  | CScheduleRead => ScheduleRead s
  | COnReadDoneCallback data => OnReadDoneCallback s data
  | CFinishPartitionHashing => FinishPartitionHashing s
  end.

(** Carrying out the calls an outcome ends with; [None] when [fuel]
    calls were not enough. *)
Fixpoint run_calls (fuel : nat) (o : Outcome) : option State :=
  match o with
  | Return s => Some s
  | Tail c s =>
    match fuel with
    | O => None
    | S fuel' => run_calls fuel' (dispatch c s)
    end
  end.

(** The number of partitions not yet passed. *)
Definition todo (s : State) : nat :=
  List.length (partitions (install_plan_ s)) - partition_index_ s.

(** A number of calls that is enough for an outcome: along the chain
    start, schedule, read-done, finish, start of the next partition. *)
Definition rank (o : Outcome) : nat :=
  match o with
  | Return _ => 0
  | Tail c s =>
    5 * todo s +
    match c with
    | CStartPartitionHashing => 4
    | CScheduleRead => 3
    | COnReadDoneCallback [] => 2
    | COnReadDoneCallback (_ :: _) => 4
    | CFinishPartitionHashing => 1
    end
  end%nat.

Definition outcome_state (o : Outcome) : State :=
  match o with Return s => s | Tail _ s => s end.

(** The state in which a member function leaves the action, the calls it
    ends with carried out. *)
Definition call (o : Outcome) : State :=
  match run_calls (rank o) o with
  | Some s => s
  | None => outcome_state o
  end.

Definition push_back (part : Partition) (s : State) : State :=
  set_install_plan_
    (set_partitions (partitions (install_plan_ s) ++ [part])
       (install_plan_ s)) s.

(** The block of [FilesystemVerifierAction::PerformAction] that fills in
    the partitions of a legacy delta update.  The boolean is false when
    one of the [return] statements of the block was taken. *)
Definition PerformAction_legacy_partitions (s : State) : State * bool :=
  let part := Partition_default in
  let part := set_name kLegacyPartitionNameRoot part in
  match GetPartitionDevice (name part) (source_slot (install_plan_ s)) with
  | None => (s, false)
  | Some part_path =>
    let part :=
      match GetFilesystemSize part_path with
      | Some (block_count, block_size) =>
        set_source_size (to_uint64 (block_count * block_size)) part
      | None => part
      end in
    let s := push_back part s in
    let part := set_name kLegacyPartitionNameKernel part in
    match GetPartitionDevice (name part) (source_slot (install_plan_ s)) with
    | None => (s, false)
    | Some part_path =>
      let kernel_part_size := FileSize part_path in
      if kernel_part_size <? 0 then (s, false)
      else
        let part := set_source_size (to_uint64 kernel_part_size) part in
        (push_back part s, true)
    end
  end.

(** [FilesystemVerifierAction::PerformAction]. *)
Definition PerformAction (s : State) : State :=
  let abort_action_completer := mkCompleter kError true in
  let '(s, abort_action_completer) :=
    match input_object s with
    | None => (s, abort_action_completer)
    | Some plan =>
      let s := set_install_plan_ plan s in
      let '(s, goes_on) :=
        if negb (is_full_update (install_plan_ s)) &&
           Nat.eqb (List.length (partitions (install_plan_ s))) 0 &&
           match verifier_mode_ s with
           | kComputeSourceHash => true
           | kVerifyTargetHash => false
           end
        then PerformAction_legacy_partitions s
        else (s, true) in
      if negb goes_on then (s, abort_action_completer)
      else if Nat.eqb (List.length (partitions (install_plan_ s))) 0 then
        let s :=
          if has_output_pipe s then SetOutputObject (install_plan_ s) s
          else s in
        (s, mkCompleter kSuccess (should_complete abort_action_completer))
      else
        let s := call (StartPartitionHashing s) in
        (s, mkCompleter (completer_code abort_action_completer) false)
    end in
  ScopedActionCompleter_exit abort_action_completer s.

(** *** The action in its message loop *)

(** What reaches the action after [PerformAction]: the answer to the
    scheduled read, with the bytes read or with an error, and
    [TerminateProcessing] from the processor. *)
Inductive Event : Type :=
| EvReadDone (data : list byte)
| EvReadError
| EvTerminateProcessing.

(** The stream hands [data] to the read callback. *)
Definition stream_deliver (data : list byte) (st : Stream) : Stream :=
  mkStream (stream_path st) (consumed st ++ data) None (closed st).

(** The state after an event, [None] when the event cannot happen: a read
    is answered only while it is scheduled, with no more bytes than were
    asked for; the processor terminates only the action it is running,
    that is before the action has completed. *)
Definition deliver (s : State) (e : Event) : option State :=
  if crashed s then None
  else
    match e with
    | EvReadDone data =>
      match src_stream_ s with
      | Some st =>
        match pending st with
        | Some n =>
          if blen data <=? n then
            let s := set_src_stream_ (Some (stream_deliver data st)) s in
            Some (call (OnReadDoneCallback s data))
          else None
        | None => None
        end
      | None => None
      end
    | EvReadError =>
      match src_stream_ s with
      | Some st =>
        match pending st with
        | Some _ =>
          let s := set_src_stream_ (Some (set_pending None st)) s in
          Some (OnReadErrorCallback s)
        | None => None
        end
      | None => None
      end
    | EvTerminateProcessing =>
      match completions s with
      | [] => Some (TerminateProcessing s)
      | _ :: _ => None
      end
    end.

(** Events in a row; an event that cannot happen is skipped. *)
Fixpoint deliver_all (s : State) (es : list Event) : State :=
  match es with
  | [] => s
  | e :: es' =>
    match deliver s e with
    | Some s' => deliver_all s' es'
    | None => deliver_all s es'
    end
  end.

(** The states of a run of the action on the input [input]. *)
Inductive reachable (mode : VerifierMode) (input : option InstallPlan)
    (out_pipe : bool) : State -> Prop :=
| reach_perform :
    reachable mode input out_pipe (PerformAction (init mode input out_pipe))
| reach_deliver : forall s e s',
    reachable mode input out_pipe s ->
    deliver s e = Some s' ->
    reachable mode input out_pipe s'.

End Actions.

(** *** States of the action between two events *)

Section Control.

(** The action is at work: not aborted, not cancelled, nothing reported
    to the processor yet. *)
Definition running (s : State) : Prop :=
  crashed s = false /\ cancelled_ s = false /\ completions s = [].

(** The action reads a partition. *)
Definition hashing (s : State) : Prop :=
  running s /\
  (partition_index_ s < List.length (partitions (install_plan_ s)))%nat /\
  read_done_ s = false /\ hasher_ s <> None /\ src_stream_ s <> None /\
  buffer_ s = kReadFileBufferSize.

(** The action between two events: either a read is scheduled and the
    action is at work on a partition, or there is no stream any more and
    the action has reported once to the processor, unless it was
    cancelled, in which case it has not reported. *)
Definition settled (s : State) : Prop :=
  crashed s = false /\
  match pending_read s with
  | Some _ => hashing s
  | None =>
    src_stream_ s = None /\
    if cancelled_ s then completions s = []
    else exists code, completions s = [code]
  end.

(** What holds when a member function is entered, and when it returns. *)
Definition control (o : Outcome) : Prop :=
  match o with
  | Return s => settled s
  | Tail CStartPartitionHashing s =>
    running s /\
    (partition_index_ s <= List.length (partitions (install_plan_ s)))%nat
  | Tail CScheduleRead s => hashing s
  | Tail (COnReadDoneCallback _) s => hashing s
  | Tail CFinishPartitionHashing s =>
    running s /\
    (partition_index_ s < List.length (partitions (install_plan_ s)))%nat /\
    hasher_ s <> None /\ src_stream_ s <> None
  end.

(** [s] is [s0] after more work: the action is at the same partition or
    further, and what it has opened, closed and reported so far is still
    on record. *)
Definition later (s0 s : State) : Prop :=
  (partition_index_ s0 <= partition_index_ s)%nat /\
  (exists l, opened s = opened s0 ++ l) /\
  (exists l, closed_streams s = closed_streams s0 ++ l) /\
  (exists l, completions s = completions s0 ++ l).

(** The size and the slot the mode of the action reads, and the device
    [StartPartitionHashing] resolves for a partition (empty when there
    is none). *)
Definition mode_size (mode : VerifierMode) (p : Partition) : Z :=
  match mode with
  | kComputeSourceHash => source_size p
  | kVerifyTargetHash => target_size p
  end.

Definition mode_slot (mode : VerifierMode) (plan : InstallPlan) : Slot :=
  match mode with
  | kComputeSourceHash => source_slot plan
  | kVerifyTargetHash => target_slot plan
  end.

Definition device_of {boot_control_ : BootControlInterface}
    (mode : VerifierMode) (plan : InstallPlan) (p : Partition) : string :=
  match GetPartitionDevice (name p) (mode_slot mode plan) with
  | Some device => device
  | None => ""
  end.

(** The state in which [StartPartitionHashing] reaches
    [FinishPartitionHashing] for a partition of zero bytes on [device]:
    the device is open, nothing was read, nothing was fed. *)
Definition opened_unread (device : string) (s : State) : State :=
  set_read_done_ true
    (set_hasher_ (Some [])
       (set_read_done_ false
          (set_buffer_ kReadFileBufferSize
             (set_src_stream_ (Some (mkStream device [] None false))
                (set_opened (opened s ++ [device])
                   (set_remaining_size_ 0 s)))))).

(** The state in which [FinishPartitionHashing] hands over to
    [StartPartitionHashing] when the partition passes: the stream is
    closed and on record, the index is one further. *)
Definition moved_on (st : Stream) (s : State) : State :=
  set_closed_streams (closed_streams s ++ [set_closed true st])
    (set_src_stream_ (Some (set_closed true st))
       (set_buffer_ 0
          (set_hasher_ None
             (set_partition_index_ (S (partition_index_ s)) s)))).

(** [kSuccess] is reported only after the last partition. *)
Definition success_at_end (s : State) : Prop :=
  In kSuccess (completions s) ->
  partition_index_ s = List.length (partitions (install_plan_ s)).

(** The mode and the plan the action works on. *)
Definition working_on (mode : VerifierMode) (plan : InstallPlan)
    (s : State) : Prop :=
  verifier_mode_ s = mode /\ install_plan_ s = plan.

End Control.

(** *** What the action has read and hashed *)

Section Ledger.

Context {boot_control_ : BootControlInterface}.
Context {hash_calculator : OmahaHashCalculator}.

(** Sizes are byte counts that fit the signed [remaining_size_]. *)
Definition sizes_ok (mode : VerifierMode) (plan : InstallPlan) : Prop :=
  Forall (fun p => 0 <= mode_size mode p < 2 ^ 63) (partitions plan).

(** A closed stream accounts for a partition: it was opened on the
    device of the partition in the slot of the mode, it has delivered as
    many bytes as the size of the partition says, and the hash of these
    bytes is the source hash now recorded (computing) or the target hash
    given (verifying). *)
Definition passed (mode : VerifierMode) (plan : InstallPlan)
    (st : Stream) (p : Partition) : Prop :=
  stream_path st = device_of mode plan p /\
  blen (consumed st) = mode_size mode p /\
  match mode with
  | kComputeSourceHash => source_hash p = raw_hash (consumed st)
  | kVerifyTargetHash => raw_hash (consumed st) = target_hash p
  end.

(** The streams closed so far account for the partitions before the
    current one, in order. *)
Definition ledger (s : State) : Prop :=
  sizes_ok (verifier_mode_ s) (install_plan_ s) /\
  (partition_index_ s <= List.length (partitions (install_plan_ s)))%nat /\
  List.length (closed_streams s) = partition_index_ s /\
  forall j st p,
    nth_error (closed_streams s) j = Some st ->
    nth_error (partitions (install_plan_ s)) j = Some p ->
    passed (verifier_mode_ s) (install_plan_ s) st p.

(** The stream of the current partition has delivered what the hasher
    was fed, followed by [data], which the action still holds in its
    buffer; [remaining_size_] counts what was not fed yet. *)
Definition feeding (s : State) (data : list byte) : Prop :=
  exists st p fed,
    src_stream_ s = Some st /\
    nth_error (partitions (install_plan_ s)) (partition_index_ s) = Some p /\
    stream_path st = device_of (verifier_mode_ s) (install_plan_ s) p /\
    hasher_ s = Some fed /\
    consumed st = fed ++ data /\
    remaining_size_ s = mode_size (verifier_mode_ s) p - blen fed /\
    blen data <= remaining_size_ s.

Definition accounted (o : Outcome) : Prop :=
  match o with
  | Return s =>
    ledger s /\
    forall n, pending_read s = Some n ->
      feeding s [] /\ n <= remaining_size_ s
  | Tail CStartPartitionHashing s => ledger s
  | Tail CScheduleRead s => ledger s /\ feeding s []
  | Tail (COnReadDoneCallback data) s => ledger s /\ feeding s data
  | Tail CFinishPartitionHashing s =>
    ledger s /\ feeding s [] /\ remaining_size_ s = 0
  end.

(** What holds between two events of a verification run on [plan]. *)
Definition verifying (plan : InstallPlan) (s : State) : Prop :=
  settled s /\ accounted (Return s) /\
  working_on kVerifyTargetHash plan s /\ success_at_end s.

End Ledger.

End Verifier.

(** *** A small platform to run the action on *)

Module VerifierExample.
Import Plan Verifier.

(** Every partition has a device, named after it. *)
Definition example_boot_control : BootControlInterface :=
  {| GetPartitionDevice := fun part_name _ => Some ("/dev/" ++ part_name)%string |}.

(** Only the partition named "boot" has a device. *)
Definition boot_only_boot_control : BootControlInterface :=
  {| GetPartitionDevice := fun part_name _ =>
       if String.eqb part_name "boot" then Some "/dev/boot" else None |}.

(** A hash calculator that never fails; as digest, the bytes in reverse
    order. *)
Definition example_hash_calculator : OmahaHashCalculator :=
  {| Update_ok := fun _ _ => true;
     Finalize_ok := fun _ => true;
     raw_hash := fun fed => rev fed |}.

(** Every device opens and reads; the root file system has 4 blocks of
    2 bytes, a device is 3 bytes long. *)
Definition example_platform : Platform :=
  {| GetFilesystemSize := fun _ => Some (4, 2);
     FileSize := fun _ => 3;
     FileStream_Open := fun _ => true;
     ReadAsync_ok := fun _ _ _ => true |}.

(** No device opens. *)
Definition closed_platform : Platform :=
  {| GetFilesystemSize := fun _ => None;
     FileSize := fun _ => -1;
     FileStream_Open := fun _ => false;
     ReadAsync_ok := fun _ _ _ => false |}.

(** One partition of two bytes whose target hash is that of the bytes
    1, 2. *)
Definition boot_partition : Partition :=
  mkPartition "boot" "" 2 [] "" 2 [x02; x01] false.

Definition plan_one : InstallPlan :=
  set_partitions [boot_partition] InstallPlan_default.

(** One partition of no bytes whose target hash is that of no bytes. *)
Definition empty_partition : Partition :=
  mkPartition "boot" "" 0 [] "" 0 [] false.

Definition plan_empty_partition : InstallPlan :=
  set_partitions [empty_partition] InstallPlan_default.

(** A delta update without partitions. *)
Definition plan_legacy : InstallPlan := InstallPlan_default.

End VerifierExample.

(** *** What a run keeps true about the plan and the output *)

Module VerifierRuns.
Import Plan Verifier.

(** The plan the action holds is the input plan [plan] but for source
    hashes: a partition before the current one may have a new source
    hash, the others are as they were given. *)
Definition hashes_recorded (plan : InstallPlan) (s : State) : Prop :=
  install_plan_ s = set_partitions (partitions (install_plan_ s)) plan /\
  List.length (partitions (install_plan_ s)) =
    List.length (partitions plan) /\
  forall j p,
    nth_error (partitions plan) j = Some p ->
    exists h,
      nth_error (partitions (install_plan_ s)) j =
        Some (set_source_hash h p) /\
      ((partition_index_ s <= j)%nat -> h = source_hash p).

(** The output pipe holds the plan of the action once [kSuccess] was
    reported, and nothing otherwise. *)
Definition output_rule (out_pipe : bool) (s : State) : Prop :=
  has_output_pipe s = out_pipe /\
  output_object s =
    if out_pipe && existsb (ErrorCode_eqb kSuccess) (completions s)
    then Some (install_plan_ s) else None.

(** A scheduled read asks for at least one byte and for no more than
    the buffer holds. *)
Definition read_fits_buffer (s : State) : Prop :=
  forall n, pending_read s = Some n -> 0 < n <= kReadFileBufferSize.

(** The codes the action can report in mode [mode]. *)
Definition reportable (mode : VerifierMode) (code : ErrorCode) : bool :=
  match code with
  | kSuccess | kError | kFilesystemVerifierError => true
  | kNewRootfsVerificationError =>
    match mode with
    | kVerifyTargetHash => true
    | kComputeSourceHash => false
    end
  | _ => false
  end.

Definition codes_rule (mode : VerifierMode) (s : State) : Prop :=
  verifier_mode_ s = mode /\
  Forall (fun code => reportable mode code = true) (completions s).

End VerifierRuns.

(** *** install_plan.cc: [LoadPartitionsFromSlots] *)

Module PlanSlots.
Import Plan Verifier.

Definition set_source_path (v : string) (p : Partition) : Partition :=
  mkPartition (name p) v (source_size p) (source_hash p)
    (target_path p) (target_size p) (target_hash p) (run_postinstall p).

Definition set_target_path (v : string) (p : Partition) : Partition :=
  mkPartition (name p) (source_path p) (source_size p) (source_hash p)
    v (target_size p) (target_hash p) (run_postinstall p).

Section Slots.

Context {boot_control_ : BootControlInterface}.

(** [BootControlInterface::kInvalidSlot], a constant of
    [boot_control_interface.h], which is not among the translation
    units: its value is left open. *)
Variable kInvalidSlot : Slot.

(** The body of the loop of [LoadPartitionsFromSlots] for one
    partition: the partition and [result] afterwards.  The device is
    looked up before [result] is read ([GetPartitionDevice(...) &&
    result]). *)
Definition load_partition (source_slot target_slot : Slot)
    (partition : Partition) (result : bool) : Partition * bool :=
  let '(partition, result) :=
    if negb (source_slot =? kInvalidSlot) then
      match GetPartitionDevice (name partition) source_slot with
      | Some device => (set_source_path device partition, true && result)
      | None => (partition, false && result)
      end
    else (set_source_path "" partition, result) in
  if negb (target_slot =? kInvalidSlot) then
    match GetPartitionDevice (name partition) target_slot with
    | Some device => (set_target_path device partition, true && result)
    | None => (partition, false && result)
    end
  else (set_target_path "" partition, result).

(** The loop over [partitions]. *)
Fixpoint load_partitions (source_slot target_slot : Slot)
    (ps : list Partition) (result : bool) : list Partition * bool :=
  match ps with
  | [] => ([], result)
  | partition :: ps' =>
    let '(partition, result) :=
      load_partition source_slot target_slot partition result in
    let '(ps', result) :=
      load_partitions source_slot target_slot ps' result in
    (partition :: ps', result)
  end.

(** [InstallPlan::LoadPartitionsFromSlots], with a system state: the
    plan afterwards and the boolean returned. *)
Definition LoadPartitionsFromSlots (plan : InstallPlan)
  : InstallPlan * bool :=
  let '(ps, result) :=
    load_partitions (source_slot plan) (target_slot plan)
      (partitions plan) true in
  (set_partitions ps plan, result).

(** The path [LoadPartitionsFromSlots] leaves in a partition named
    [part_name] for [slot], when it held [path] before. *)
Definition loaded_path (part_name : string) (slot : Slot) (path : string)
  : string :=
  if slot =? kInvalidSlot then ""
  else
    match GetPartitionDevice part_name slot with
    | Some device => device
    | None => path
    end.

(** The lookup [LoadPartitionsFromSlots] makes for [slot] succeeds, or
    is not made. *)
Definition resolves (part_name : string) (slot : Slot) : bool :=
  (slot =? kInvalidSlot) ||
  match GetPartitionDevice part_name slot with
  | Some _ => true
  | None => false
  end.

End Slots.

End PlanSlots.

(** ** download_action.cc *)

Module Download.
Import Plan.

(** *** Collaborators *)

(** The calls the action makes on the operating system, on the P2P
    manager, on the payload writer, on its delegate, on the HTTP fetcher
    and on the processor, each with what it returned. *)
Inductive Call : Type :=
| c_close (fd : Z) (ok : bool)
| c_unlink (path : string) (ok : bool)
| c_FileShare (file_id : string) (file_size : Z) (ok : bool)
| c_open (path : string) (fd : Z)
| c_fchmod (fd : Z) (ok : bool)
| c_FileGetVisible (file_id : string) (visible : option bool)
| c_FileSize (fd : Z) (size : Z)
| c_lseek (fd : Z) (offset : Z) (result : Z)
| c_write (fd : Z) (data : list byte) (result : Z)
| c_FileMakeVisible (file_id : string)
| c_MarkSlotUnbootable (slot : Slot) (ok : bool)
| c_SetDownloadStatus (active : bool)
| c_BytesReceived (bytes_received : Z) (total : Z)
| c_Write (data : list byte) (ok : bool) (error : ErrorCode)
| c_Close (result : Z)
| c_VerifyPayload (expected_hash : string) (expected_size : Z)
    (code : ErrorCode)
| c_IsManifestValid (valid : bool)
| c_set_delegate
| c_set_low_speed_limit (bps seconds : Z)
| c_set_max_retry_count (count : Z)
| c_set_connect_timeout (seconds : Z)
| c_BeginTransfer (url : string)
| c_TerminateTransfer
| c_ActionComplete (code : ErrorCode).

(** The calls made so far, oldest first. *)
Definition Log := list Call.

(** What the collaborators answer, given the calls made so far.
    [p2p_FileGetPath] is [P2PManager::FileGetPath] (the empty path when
    there is no file); [p2p_FileGetVisible] is [None] when
    [FileGetVisible] fails and leaves its output argument alone;
    [writer_Write] gives the boolean [Write] returns and the code it
    stores through its third argument.  The four tuning constants and
    [utils::CalculateP2PFileId] come from headers that are not among the
    translation units. *)
Class World : Type := {
  os_close : Log -> Z -> bool;
  os_unlink : Log -> string -> bool;
  os_open : Log -> string -> Z;
  os_fchmod : Log -> Z -> bool;
  os_FileSize : Log -> Z -> Z;
  os_lseek : Log -> Z -> Z -> Z;
  os_write : Log -> Z -> list byte -> Z;
  p2p_FileShare : Log -> string -> Z -> bool;
  p2p_FileGetPath : Log -> string -> string;
  p2p_FileGetVisible : Log -> string -> option bool;
  boot_MarkSlotUnbootable : Log -> Slot -> bool;
  writer_Write : Log -> list byte -> bool * ErrorCode;
  writer_Close : Log -> Z;
  performer_VerifyPayload : Log -> string -> Z -> ErrorCode;
  performer_IsManifestValid : Log -> bool;
  GetUsingP2PForSharing : bool;
  GetUsingP2PForDownloading : bool;
  GetP2PUrl : string;
  CalculateP2PFileId : string -> Z -> string;
  kDownloadP2PLowSpeedLimitBps : Z;
  kDownloadP2PLowSpeedTimeSeconds : Z;
  kDownloadP2PMaxRetryCount : Z;
  kDownloadP2PConnectTimeoutSeconds : Z
}.

(** *** State *)

(** What [writer_] points to: a writer injected for a test, or the
    [DeltaPerformer] held by [delta_performer_]. *)
Inductive WriterRef : Type :=
| test_writer
| delta_performer.

(** The data members of [DownloadAction] ([delta_performer_],
    [delegate_] and [system_state_] by whether they are set), the pipes
    of the action, the calls made on the outside world, and whether the
    process was aborted (failed [CHECK], call through a null pointer). *)
Record State : Type := mkState {
  writer_ : option WriterRef;
  delta_performer_ : bool;
  code_ : ErrorCode;
  delegate_ : bool;
  bytes_received_ : Z;
  p2p_sharing_fd_ : Z;
  p2p_visible_ : bool;
  p2p_file_id_ : string;
  install_plan_ : InstallPlan;
  system_state_ : bool;
  input_object : option InstallPlan;
  has_output_pipe : bool;
  output_object : option InstallPlan;
  log : Log;
  crashed : bool
}.

Definition set_writer_ (v : option WriterRef) (s : State) : State :=
  mkState v (delta_performer_ s) (code_ s) (delegate_ s) (bytes_received_
    s) (p2p_sharing_fd_ s) (p2p_visible_ s) (p2p_file_id_ s)
    (install_plan_ s) (system_state_ s) (input_object s) (has_output_pipe
    s) (output_object s) (log s) (crashed s).

Definition set_delta_performer_ (v : bool) (s : State) : State :=
  mkState (writer_ s) v (code_ s) (delegate_ s) (bytes_received_ s)
    (p2p_sharing_fd_ s) (p2p_visible_ s) (p2p_file_id_ s) (install_plan_
    s) (system_state_ s) (input_object s) (has_output_pipe s)
    (output_object s) (log s) (crashed s).

Definition set_code_ (v : ErrorCode) (s : State) : State :=
  mkState (writer_ s) (delta_performer_ s) v (delegate_ s)
    (bytes_received_ s) (p2p_sharing_fd_ s) (p2p_visible_ s) (p2p_file_id_
    s) (install_plan_ s) (system_state_ s) (input_object s)
    (has_output_pipe s) (output_object s) (log s) (crashed s).

Definition set_bytes_received_ (v : Z) (s : State) : State :=
  mkState (writer_ s) (delta_performer_ s) (code_ s) (delegate_ s) v
    (p2p_sharing_fd_ s) (p2p_visible_ s) (p2p_file_id_ s) (install_plan_
    s) (system_state_ s) (input_object s) (has_output_pipe s)
    (output_object s) (log s) (crashed s).

Definition set_p2p_sharing_fd_ (v : Z) (s : State) : State :=
  mkState (writer_ s) (delta_performer_ s) (code_ s) (delegate_ s)
    (bytes_received_ s) v (p2p_visible_ s) (p2p_file_id_ s) (install_plan_
    s) (system_state_ s) (input_object s) (has_output_pipe s)
    (output_object s) (log s) (crashed s).

Definition set_p2p_visible_ (v : bool) (s : State) : State :=
  mkState (writer_ s) (delta_performer_ s) (code_ s) (delegate_ s)
    (bytes_received_ s) (p2p_sharing_fd_ s) v (p2p_file_id_ s)
    (install_plan_ s) (system_state_ s) (input_object s) (has_output_pipe
    s) (output_object s) (log s) (crashed s).

Definition set_p2p_file_id_ (v : string) (s : State) : State :=
  mkState (writer_ s) (delta_performer_ s) (code_ s) (delegate_ s)
    (bytes_received_ s) (p2p_sharing_fd_ s) (p2p_visible_ s) v
    (install_plan_ s) (system_state_ s) (input_object s) (has_output_pipe
    s) (output_object s) (log s) (crashed s).

Definition set_install_plan_ (v : InstallPlan) (s : State) : State :=
  mkState (writer_ s) (delta_performer_ s) (code_ s) (delegate_ s)
    (bytes_received_ s) (p2p_sharing_fd_ s) (p2p_visible_ s) (p2p_file_id_
    s) v (system_state_ s) (input_object s) (has_output_pipe s)
    (output_object s) (log s) (crashed s).

Definition set_output_object (v : option InstallPlan) (s : State) : State :=
  mkState (writer_ s) (delta_performer_ s) (code_ s) (delegate_ s)
    (bytes_received_ s) (p2p_sharing_fd_ s) (p2p_visible_ s) (p2p_file_id_
    s) (install_plan_ s) (system_state_ s) (input_object s)
    (has_output_pipe s) v (log s) (crashed s).

Definition set_log (v : list Call) (s : State) : State :=
  mkState (writer_ s) (delta_performer_ s) (code_ s) (delegate_ s)
    (bytes_received_ s) (p2p_sharing_fd_ s) (p2p_visible_ s) (p2p_file_id_
    s) (install_plan_ s) (system_state_ s) (input_object s)
    (has_output_pipe s) (output_object s) v (crashed s).

Definition set_crashed (v : bool) (s : State) : State :=
  mkState (writer_ s) (delta_performer_ s) (code_ s) (delegate_ s)
    (bytes_received_ s) (p2p_sharing_fd_ s) (p2p_visible_ s) (p2p_file_id_
    s) (install_plan_ s) (system_state_ s) (input_object s)
    (has_output_pipe s) (output_object s) (log s) v.

(** The action as its constructor leaves it, with what was set on it
    before the processor runs it: a writer injected for a test, a
    delegate, the system state, the pipes. *)
Definition init (test_writer_set delegate_set system_state_set : bool)
    (input : option InstallPlan) (out_pipe : bool) : State :=
  mkState (if test_writer_set then Some test_writer else None) false
    kSuccess delegate_set 0 (-1) true ""
    (mkInstallPlan false false "" 0 "" 0 "" (2 ^ 32 - 1) (2 ^ 32 - 1) []
       false false "")
    system_state_set input out_pipe None [] false.

Definition emit (c : Call) (s : State) : State :=
  set_log (log s ++ [c]) s.

Definition crash (s : State) : State := set_crashed true s.

Section Actions.

Context {world : World}.

(** [DownloadAction::CloseP2PSharingFd]. *)
Definition CloseP2PSharingFd (delete_p2p_file : bool) (s : State) : State :=
  let s :=
    if negb (p2p_sharing_fd_ s =? -1) then
      let s :=
        emit (c_close (p2p_sharing_fd_ s)
                (os_close (log s) (p2p_sharing_fd_ s))) s in
      set_p2p_sharing_fd_ (-1) s
    else s in
  if delete_p2p_file && negb (system_state_ s) then crash s
  else
    let s :=
      if delete_p2p_file then
        let path := p2p_FileGetPath (log s) (p2p_file_id_ s) in
        emit (c_unlink path (os_unlink (log s) path)) s
      else s in
    set_p2p_file_id_ "" s.

(** [DownloadAction::SetupP2PSharingFd]; the boolean is what it
    returns. *)
Definition SetupP2PSharingFd (s : State) : State * bool :=
  if negb (system_state_ s) then (crash s, false)
  else
    let shared :=
      p2p_FileShare (log s) (p2p_file_id_ s)
        (payload_size (install_plan_ s)) in
    let s :=
      emit (c_FileShare (p2p_file_id_ s) (payload_size (install_plan_ s))
              shared) s in
    if negb shared then (CloseP2PSharingFd true s, false)
    else
      let path := p2p_FileGetPath (log s) (p2p_file_id_ s) in
      let fd := os_open (log s) path in
      let s := emit (c_open path fd) s in
      let s := set_p2p_sharing_fd_ fd s in
      if p2p_sharing_fd_ s =? -1 then (CloseP2PSharingFd true s, false)
      else
        let chmod_ok := os_fchmod (log s) (p2p_sharing_fd_ s) in
        let s := emit (c_fchmod (p2p_sharing_fd_ s) chmod_ok) s in
        if negb chmod_ok then (CloseP2PSharingFd true s, false)
        else
          let visible := p2p_FileGetVisible (log s) (p2p_file_id_ s) in
          let s := emit (c_FileGetVisible (p2p_file_id_ s) visible) s in
          let s :=
            match visible with
            | Some v => set_p2p_visible_ v s
            | None => s
            end in
          (s, true).

(** [DownloadAction::WriteToP2PFile]. *)
Definition WriteToP2PFile (data : list byte) (file_offset : Z) (s : State)
  : State :=
  let '(s, goes_on) :=
    if p2p_sharing_fd_ s =? -1 then SetupP2PSharingFd s else (s, true) in
  if negb goes_on then s
  else
    let p2p_size := os_FileSize (log s) (p2p_sharing_fd_ s) in
    let s := emit (c_FileSize (p2p_sharing_fd_ s) p2p_size) s in
    if p2p_size <? 0 then CloseP2PSharingFd true s
    else if p2p_size <? file_offset then CloseP2PSharingFd true s
    else
      let cur_file_offset :=
        os_lseek (log s) (p2p_sharing_fd_ s) file_offset in
      let s :=
        emit (c_lseek (p2p_sharing_fd_ s) file_offset cur_file_offset) s in
      if negb (cur_file_offset =? file_offset) then
        CloseP2PSharingFd true s
      else
        let bytes_written := os_write (log s) (p2p_sharing_fd_ s) data in
        let s := emit (c_write (p2p_sharing_fd_ s) data bytes_written) s in
        if negb (bytes_written =? to_int64 (blen data)) then
          CloseP2PSharingFd true s
        else s.

(** [DownloadAction::PerformAction]. *)
Definition PerformAction (s : State) : State :=
  let s := emit c_set_delegate s in
  match input_object s with
  | None => crash s
  | Some plan =>
    let s := set_install_plan_ plan s in
    let s := set_bytes_received_ 0 s in
    if negb (system_state_ s) then crash s
    else
      let s :=
        emit (c_MarkSlotUnbootable (target_slot (install_plan_ s))
                (boot_MarkSlotUnbootable (log s)
                   (target_slot (install_plan_ s)))) s in
      let s :=
        match writer_ s with
        | Some _ => s
        | None =>
          set_writer_ (Some delta_performer) (set_delta_performer_ true s)
        end in
      let s :=
        if delegate_ s then emit (c_SetDownloadStatus true) s else s in
      let s :=
        if system_state_ s then
          let file_id :=
            CalculateP2PFileId (payload_hash (install_plan_ s))
              (payload_size (install_plan_ s)) in
          let s :=
            if GetUsingP2PForSharing then set_p2p_file_id_ file_id s
            else
              let path := p2p_FileGetPath (log s) file_id in
              if negb (String.eqb path "") then
                emit (c_unlink path (os_unlink (log s) path)) s
              else s in
          if GetUsingP2PForDownloading &&
             String.eqb GetP2PUrl (download_url (install_plan_ s))
          then
            let s :=
              emit (c_set_low_speed_limit kDownloadP2PLowSpeedLimitBps
                      kDownloadP2PLowSpeedTimeSeconds) s in
            let s :=
              emit (c_set_max_retry_count kDownloadP2PMaxRetryCount) s in
            emit (c_set_connect_timeout kDownloadP2PConnectTimeoutSeconds)
              s
          else s
        else s in
      emit (c_BeginTransfer (download_url (install_plan_ s))) s
  end.

(** [DownloadAction::TerminateProcessing]. *)
Definition TerminateProcessing (s : State) : State :=
  let s :=
    match writer_ s with
    | Some _ =>
      let s := emit (c_Close (writer_Close (log s))) s in
      set_writer_ None s
    | None => s
    end in
  let s :=
    if delegate_ s then emit (c_SetDownloadStatus false) s else s in
  let s := CloseP2PSharingFd false s in
  emit c_TerminateTransfer s.

(** [DownloadAction::SeekToOffset]. *)
Definition SeekToOffset (offset : Z) (s : State) : State :=
  set_bytes_received_ (to_uint64 offset) s.

(** [DownloadAction::ReceivedBytes]. *)
Definition ReceivedBytes (bytes : list byte) (s : State) : State :=
  let s :=
    if negb (String.eqb (p2p_file_id_ s) "") then
      WriteToP2PFile bytes (to_int64 (bytes_received_ s)) s
    else s in
  if crashed s then s
  else
    let s :=
      set_bytes_received_ (to_uint64 (bytes_received_ s + blen bytes)) s in
    let s :=
      if delegate_ s then
        emit (c_BytesReceived (bytes_received_ s)
                (payload_size (install_plan_ s))) s
      else s in
    let written :=
      match writer_ s with
      | Some _ =>
        let '(ok, error) := writer_Write (log s) bytes in
        (ok, set_code_ error (emit (c_Write bytes ok error) s))
      | None => (true, s)
      end in
    let '(ok, s) := written in
    if negb ok then
      let s :=
        if negb (String.eqb (p2p_file_id_ s) "") then
          CloseP2PSharingFd true s
        else s in
      if crashed s then s else TerminateProcessing s
    else
      if negb (p2p_visible_ s) && delta_performer_ s then
        let valid := performer_IsManifestValid (log s) in
        let s := emit (c_IsManifestValid valid) s in
        if valid then
          if negb (system_state_ s) then crash s
          else
            let s := emit (c_FileMakeVisible (p2p_file_id_ s)) s in
            set_p2p_visible_ true s
        else s
      else s.

(** [DownloadAction::TransferComplete]; the writer is closed inside a
    [LOG_IF(WARNING, ...)], taken to be evaluated. *)
Definition TransferComplete (successful : bool) (s : State) : State :=
  let s :=
    match writer_ s with
    | Some _ =>
      let s := emit (c_Close (writer_Close (log s))) s in
      set_writer_ None s
    | None => s
    end in
  let s :=
    if delegate_ s then emit (c_SetDownloadStatus false) s else s in
  let code := if successful then kSuccess else kDownloadTransferError in
  let '(code, s) :=
    if ErrorCode_eqb code kSuccess && delta_performer_ s then
      let code :=
        performer_VerifyPayload (log s) (payload_hash (install_plan_ s))
          (payload_size (install_plan_ s)) in
      let s :=
        emit (c_VerifyPayload (payload_hash (install_plan_ s))
                (payload_size (install_plan_ s)) code) s in
      if negb (ErrorCode_eqb code kSuccess) then
        (code,
         if negb (String.eqb (p2p_file_id_ s) "") then
           CloseP2PSharingFd true s
         else s)
      else (code, s)
    else (code, s) in
  if crashed s then s
  else
    let s :=
      if ErrorCode_eqb code kSuccess && has_output_pipe s then
        set_output_object (Some (install_plan_ s)) s
      else s in
    emit (c_ActionComplete code) s.

(** [DownloadAction::TransferTerminated]. *)
Definition TransferTerminated (s : State) : State :=
  if negb (ErrorCode_eqb (code_ s) kSuccess) then
    emit (c_ActionComplete (code_ s)) s
  else s.

(** *** The action driven by its fetcher and its processor *)

Inductive Event : Type :=
| EvSeekToOffset (offset : Z)
| EvReceivedBytes (bytes : list byte)
| EvTransferComplete (successful : bool)
| EvTransferTerminated
| EvTerminateProcessing.

(** A dead process handles nothing. *)
Definition handle (s : State) (e : Event) : State :=
  if crashed s then s
  else
    match e with
    | EvSeekToOffset offset => SeekToOffset offset s
    | EvReceivedBytes bytes => ReceivedBytes bytes s
    | EvTransferComplete successful => TransferComplete successful s
    | EvTransferTerminated => TransferTerminated s
    | EvTerminateProcessing => TerminateProcessing s
    end.

Definition handle_all (s : State) (es : list Event) : State :=
  fold_left handle es s.

(** The states of a run: [PerformAction] on a fresh action, then
    callbacks in any order. *)
Inductive reachable (s0 : State) : State -> Prop :=
| reach_perform : reachable s0 (PerformAction s0)
| reach_handle : forall s e,
    reachable s0 s -> reachable s0 (handle s e).

End Actions.

(** *** Reading the log *)

(** The codes passed to [processor_->ActionComplete], oldest first. *)
Fixpoint completions (l : Log) : list ErrorCode :=
  match l with
  | [] => []
  | c_ActionComplete code :: l' => code :: completions l'
  | _ :: l' => completions l'
  end.

Definition is_ActionComplete (c : Call) : bool :=
  match c with c_ActionComplete _ => true | _ => false end.

Definition is_FileShare (c : Call) : bool :=
  match c with c_FileShare _ _ _ => true | _ => false end.

Definition is_FileMakeVisible (c : Call) : bool :=
  match c with c_FileMakeVisible _ => true | _ => false end.

Definition is_unlink (c : Call) : bool :=
  match c with c_unlink _ _ => true | _ => false end.

Definition is_p2p_write (c : Call) : bool :=
  match c with c_write _ _ _ => true | _ => false end.

Definition is_Write (c : Call) : bool :=
  match c with c_Write _ _ _ => true | _ => false end.

Definition is_VerifyPayload (c : Call) : bool :=
  match c with c_VerifyPayload _ _ _ => true | _ => false end.

(** [writer_->Close()] and [close(fd)]. *)
Definition is_Close (c : Call) : bool :=
  match c with c_Close _ => true | _ => false end.

Definition is_close (c : Call) : bool :=
  match c with c_close _ _ => true | _ => false end.

(** Calls that create, open, size, position, write, close or delete the
    P2P file. *)
Definition is_p2p_file_call (c : Call) : bool :=
  match c with
  | c_close _ _ | c_unlink _ _ | c_FileShare _ _ _ | c_open _ _
  | c_fchmod _ _ | c_FileGetVisible _ _ | c_FileSize _ _
  | c_lseek _ _ _ | c_write _ _ _ => true
  | _ => false
  end.

Definition count (f : Call -> bool) (l : Log) : nat :=
  List.length (filter f l).

(** [s'] is [s] after more calls, [news]. *)
Definition extends (s s' : State) (news : Log) : Prop :=
  log s' = log s ++ news.

(** P2P sharing was asked for and the file is not set up yet. *)
Definition p2p_fresh (s : State) : Prop :=
  p2p_file_id_ s <> "" /\ p2p_sharing_fd_ s = -1.

(** P2P sharing is off: no file id, no descriptor. *)
Definition p2p_off (s : State) : Prop :=
  p2p_file_id_ s = "" /\ p2p_sharing_fd_ s = -1.

Definition is_transfer_end (e : Event) : bool :=
  match e with
  | EvTransferComplete _ | EvTransferTerminated => true
  | _ => false
  end.

(** Everything but the P2P members and the log is the same in [s] and
    [s']. *)
Definition same_core (s s' : State) : Prop :=
  writer_ s' = writer_ s /\
  delta_performer_ s' = delta_performer_ s /\
  code_ s' = code_ s /\
  delegate_ s' = delegate_ s /\
  bytes_received_ s' = bytes_received_ s /\
  install_plan_ s' = install_plan_ s /\
  system_state_ s' = system_state_ s /\
  input_object s' = input_object s /\
  has_output_pipe s' = has_output_pipe s /\
  output_object s' = output_object s /\
  crashed s' = crashed s.

(** A step on the P2P file only: [news] are calls on the file. *)
Definition p2p_step (s s' : State) (news : Log) : Prop :=
  same_core s s' /\ extends s s' news /\
  Forall (fun c => is_p2p_file_call c = true) news.

(** *** The descriptor of the P2P file *)

(** The descriptor of the P2P file that is open after the calls [l]
    when [fd] was open before them; [-1] stands for none.  There is no
    answer when the calls misuse descriptors: [open] returns a
    descriptor while another one is open, which would then be lost, or
    [close] is called on something else than the open descriptor. *)
Fixpoint fd_after (fd : Z) (l : Log) : option Z :=
  match l with
  | [] => Some fd
  | c_open _ fd' :: l' =>
    if fd =? -1 then fd_after fd' l'
    else if fd' =? -1 then fd_after fd l'
    else None
  | c_close fd' _ :: l' =>
    if (fd' =? fd) && negb (fd =? -1) then fd_after (-1) l' else None
  | _ :: l' => fd_after fd l'
  end.

(** [p2p_sharing_fd_] keeps track of the open descriptor from [s] to
    [s']: replaying the calls made in between from the descriptor held
    in [s] ends with the descriptor held in [s']. *)
Definition fd_tracked (s s' : State) : Prop :=
  exists news,
    extends s s' news /\
    fd_after (p2p_sharing_fd_ s) news = Some (p2p_sharing_fd_ s').

(** *** [ReceivedBytes] in three parts *)

Section Parts.

Context {world : World}.

(** The first statement of [ReceivedBytes]: the bytes go to the P2P file
    when there is a file id. *)
Definition ReceivedBytes_mirror (bytes : list byte) (s : State) : State :=
  if negb (String.eqb (p2p_file_id_ s) "") then
    WriteToP2PFile bytes (to_int64 (bytes_received_ s)) s
  else s.

(** The last statement of [ReceivedBytes]: the P2P file is made visible
    once the manifest is valid. *)
Definition ReceivedBytes_promote (s : State) : State :=
  if negb (p2p_visible_ s) && delta_performer_ s then
    let valid := performer_IsManifestValid (log s) in
    let s := emit (c_IsManifestValid valid) s in
    if valid then
      if negb (system_state_ s) then crash s
      else
        let s := emit (c_FileMakeVisible (p2p_file_id_ s)) s in
        set_p2p_visible_ true s
    else s
  else s.

(** The statements in between: count the bytes, tell the delegate, hand
    the bytes to the writer and, when it refuses them, drop the P2P file
    and terminate. *)
Definition ReceivedBytes_forward (bytes : list byte) (s : State) : State :=
  if crashed s then s
  else
    let s :=
      set_bytes_received_ (to_uint64 (bytes_received_ s + blen bytes)) s in
    let s :=
      if delegate_ s then
        emit (c_BytesReceived (bytes_received_ s)
                (payload_size (install_plan_ s))) s
      else s in
    let written :=
      match writer_ s with
      | Some _ =>
        let '(ok, error) := writer_Write (log s) bytes in
        (ok, set_code_ error (emit (c_Write bytes ok error) s))
      | None => (true, s)
      end in
    let '(ok, s) := written in
    if negb ok then
      let s :=
        if negb (String.eqb (p2p_file_id_ s) "") then
          CloseP2PSharingFd true s
        else s in
      if crashed s then s else TerminateProcessing s
    else ReceivedBytes_promote s.

End Parts.

(** *** What a run keeps true about the P2P file *)

(** The process is alive; an open descriptor comes with a file id; as
    long as the file was asked for and not set up, the visibility flag
    has its initial value and the P2P manager was asked neither to
    share nor to make visible; it is asked at most once for each; and
    once it was asked to make the file visible the flag says so. *)
Definition sharing_inv (s : State) : Prop :=
  system_state_ s = true /\ crashed s = false /\
  (p2p_sharing_fd_ s <> -1 -> p2p_file_id_ s <> "") /\
  (p2p_fresh s ->
   p2p_visible_ s = true /\
   count is_FileShare (log s) = 0%nat /\
   count is_FileMakeVisible (log s) = 0%nat) /\
  (count is_FileShare (log s) <= 1)%nat /\
  (count is_FileMakeVisible (log s) <= 1)%nat /\
  (count is_FileMakeVisible (log s) = 1%nat -> p2p_visible_ s = true).

(** The members no callback changes. *)
Definition frame (s s' : State) : Prop :=
  system_state_ s' = system_state_ s /\
  delegate_ s' = delegate_ s /\
  delta_performer_ s' = delta_performer_ s /\
  install_plan_ s' = install_plan_ s /\
  input_object s' = input_object s /\
  has_output_pipe s' = has_output_pipe s.

End Download.

(** *** Example worlds *)

Module DownloadExample.
Import Plan Download.

(** A world where the operating system and the P2P manager do what they
    are asked: the P2P file is [file_size] bytes long and hidden, the
    payload writer answers [write_answer], the payload verifies to
    [verdict] and the manifest is valid. *)
Definition example_world (file_size : Z) (write_answer : bool * ErrorCode)
    (verdict : ErrorCode) : World :=
  {| os_close := fun _ _ => true;
     os_unlink := fun _ _ => true;
     os_open := fun _ _ => 3;
     os_fchmod := fun _ _ => true;
     os_FileSize := fun _ _ => file_size;
     os_lseek := fun _ _ offset => offset;
     os_write := fun _ _ data => blen data;
     p2p_FileShare := fun _ _ _ => true;
     p2p_FileGetPath := fun _ file_id => ("/p2p/" ++ file_id)%string;
     p2p_FileGetVisible := fun _ _ => Some false;
     boot_MarkSlotUnbootable := fun _ _ => true;
     writer_Write := fun _ _ => write_answer;
     writer_Close := fun _ => 0;
     performer_VerifyPayload := fun _ _ _ => verdict;
     performer_IsManifestValid := fun _ => true;
     GetUsingP2PForSharing := true;
     GetUsingP2PForDownloading := false;
     GetP2PUrl := "";
     CalculateP2PFileId := fun payload_hash _ => payload_hash;
     kDownloadP2PLowSpeedLimitBps := 1;
     kDownloadP2PLowSpeedTimeSeconds := 1;
     kDownloadP2PMaxRetryCount := 1;
     kDownloadP2PConnectTimeoutSeconds := 1 |}.

(** All is well. *)
Definition good_world : World := example_world 100 (true, kSuccess) kSuccess.

(** The payload writer refuses the bytes. *)
Definition refusing_world : World :=
  example_world 100 (false, kDownloadWriteError) kSuccess.

(** The payload does not verify. *)
Definition mismatch_world : World :=
  example_world 100 (true, kSuccess) kPayloadHashMismatchError.

(** The P2P file is empty. *)
Definition empty_file_world : World :=
  example_world 0 (true, kSuccess) kSuccess.

Definition example_plan : InstallPlan :=
  mkInstallPlan false true "http://host/payload" 10 "hash" 0 "" 0 1 []
    false false "".

(** A fresh action with a delegate, a system state, an input plan and an
    output pipe. *)
Definition fresh : State := init false true true (Some example_plan) true.

(** The same action when the download resumes at offset 4. *)
Definition resumed {world : World} : State :=
  handle (PerformAction fresh) (EvSeekToOffset 4).

End DownloadExample.

(** *** Reading the log: promotion of the P2P file *)

Module DownloadLog.
Import Plan Download.

(** Every [FileMakeVisible] in the calls [l] comes right after an
    [IsManifestValid] that answered true; [prev] is the call made
    before [l], if any. *)
Fixpoint promoted_after_valid (prev : option Call) (l : Log) : bool :=
  match l with
  | [] => true
  | c :: l' =>
    match c with
    | c_FileMakeVisible _ =>
      match prev with
      | Some (c_IsManifestValid true) => true
      | _ => false
      end
    | _ => true
    end && promoted_after_valid (Some c) l'
  end.

(** What a callback adds to the log, as far as promotion goes: no
    [FileMakeVisible], or one, as the last call, right after the
    manifest was found valid. *)
Definition promotes (news : Log) : Prop :=
  count is_FileMakeVisible news = 0%nat \/
  exists before file_id,
    news = before ++ [c_IsManifestValid true; c_FileMakeVisible file_id] /\
    count is_FileMakeVisible before = 0%nat.

End DownloadLog.

(** * Properties *)

(** ** Machine integers, buffers, error codes *)

Lemma to_uint64_small z : 0 <= z < 2 ^ 64 -> to_uint64 z = z.
Proof. intros H. unfold to_uint64. apply Z.mod_small. exact H. Qed.

Lemma to_int64_small z : - 2 ^ 63 <= z < 2 ^ 63 -> to_int64 z = z.
Proof. intros H. unfold to_int64. rewrite Z.mod_small; lia. Qed.

Lemma blen_app a b : blen (a ++ b) = blen a + blen b.
Proof. unfold blen. rewrite length_app. lia. Qed.

Lemma blen_nil_iff bs : blen bs = 0 <-> bs = [].
Proof.
  unfold blen. destruct bs as [|b bs]; simpl; split; intros H;
    try reflexivity; try discriminate; lia.
Qed.

Lemma blen_nonneg bs : 0 <= blen bs.
Proof. unfold blen. lia. Qed.

Lemma ErrorCode_eqb_eq a b : ErrorCode_eqb a b = true <-> a = b.
Proof. destruct a, b; simpl; split; intros H; congruence. Qed.

Lemma ErrorCode_eqb_refl a : ErrorCode_eqb a a = true.
Proof. apply ErrorCode_eqb_eq. reflexivity. Qed.

Lemma to_int64_range z : - 2 ^ 63 <= to_int64 z < 2 ^ 63.
Proof.
  unfold to_int64.
  pose proof (Z.mod_pos_bound (z + 2 ^ 63) (2 ^ 64) ltac:(lia)). lia.
Qed.

Lemma to_uint64_range z : 0 <= to_uint64 z < 2 ^ 64.
Proof. unfold to_uint64. apply Z.mod_pos_bound. lia. Qed.

Lemma to_uint64_zero z :
  - 2 ^ 64 < z < 2 ^ 64 -> to_uint64 z = 0 -> z = 0.
Proof.
  unfold to_uint64. intros R H.
  destruct (Z.neg_nonneg_cases z) as [N|N].
  - replace z with ((z + 2 ^ 64) + (-1) * 2 ^ 64) in H by lia.
    rewrite Z.mod_add in H by lia. rewrite Z.mod_small in H; lia.
  - rewrite Z.mod_small in H; lia.
Qed.

(** ** install_plan.cc *)

Module PlanFacts.
Import Plan.

Lemma Blob_eqb_eq a : forall b, Blob_eqb a b = true <-> a = b.
Proof.
  induction a as [|x a IH]; intros [|y b]; simpl; split; intros H;
    try reflexivity; try discriminate.
  - apply andb_true_iff in H. destruct H as [Hx Hr].
    apply Byte.byte_dec_bl in Hx. apply IH in Hr. congruence.
  - inversion H; subst. apply andb_true_iff. split.
    + apply Byte.byte_dec_lb. reflexivity.
    + apply IH. reflexivity.
Qed.

Lemma Blob_eqb_refl a : Blob_eqb a a = true.
Proof. apply Blob_eqb_eq. reflexivity. Qed.

Lemma Partition_eqb_refl p : Partition_eqb p p = true.
Proof.
  unfold Partition_eqb.
  rewrite !String.eqb_refl, !Z.eqb_refl, !Blob_eqb_refl, Bool.eqb_reflx.
  reflexivity.
Qed.

Lemma partitions_eqb_refl ps : partitions_eqb ps ps = true.
Proof.
  induction ps as [|p ps IH]; simpl.
  - reflexivity.
  - rewrite Partition_eqb_refl, IH. reflexivity.
Qed.

Lemma InstallPlan_eqb_refl p : InstallPlan_eqb p p = true.
Proof.
  unfold InstallPlan_eqb.
  rewrite !Bool.eqb_reflx, !String.eqb_refl, !Z.eqb_refl,
    partitions_eqb_refl.
  reflexivity.
Qed.

(** C10: [operator==] does not read [hash_checks_mandatory],
    [powerwash_required] and [public_key_rsa]: a plan compares equal to
    itself with these three fields set to any other values, in both
    argument orders, and [operator!=] answers false for such a pair. *)
Theorem InstallPlan_eq_ignores_three_fields :
  forall (p : InstallPlan) (h w : bool) (k : string),
    InstallPlan_eqb p (set_uncompared h w k p) = true /\
    InstallPlan_eqb (set_uncompared h w k p) p = true /\
    InstallPlan_neqb p (set_uncompared h w k p) = false /\
    InstallPlan_neqb (set_uncompared h w k p) p = false.
Proof.
  intros p h w k.
  assert (E1 : InstallPlan_eqb p (set_uncompared h w k p) = true)
    by (rewrite <- (InstallPlan_eqb_refl p); reflexivity).
  assert (E2 : InstallPlan_eqb (set_uncompared h w k p) p = true)
    by (rewrite <- (InstallPlan_eqb_refl p); reflexivity).
  unfold InstallPlan_neqb. rewrite E1, E2. repeat split; reflexivity.
Qed.

End PlanFacts.

Module PlanEq.
Import Plan PlanFacts.

Lemma partitions_eqb_eq a : forall b, partitions_eqb a b = true <-> a = b.
Proof.
  assert (P : forall p q, Partition_eqb p q = true <-> p = q).
  { intros p q. unfold Partition_eqb. split.
    - intros H. repeat (apply andb_true_iff in H; destruct H as [H ?]).
      repeat match goal with
      | E : String.eqb _ _ = true |- _ => apply String.eqb_eq in E
      | E : Z.eqb _ _ = true |- _ => apply Z.eqb_eq in E
      | E : Blob_eqb _ _ = true |- _ => apply Blob_eqb_eq in E
      | E : Bool.eqb _ _ = true |- _ => apply Bool.eqb_prop in E
      end.
      destruct p, q; simpl in *; subst; reflexivity.
    - intros <-. apply Partition_eqb_refl. }
  induction a as [|x a IH]; intros [|y b]; simpl; split; intros H;
    try reflexivity; try discriminate.
  - apply andb_true_iff in H. destruct H as [Hx Hr].
    apply P in Hx. apply IH in Hr. congruence.
  - inversion H; subst. apply andb_true_iff. split.
    + apply P. reflexivity.
    + apply IH. reflexivity.
Qed.

(** X12.  [InstallPlan::Partition::operator==] answers true exactly for
    partitions that agree on all eight fields: name, both paths, both
    sizes, both hashes and the postinstall flag. *)
Theorem Partition_eq_compares_all_fields p q :
  Partition_eqb p q = true <-> p = q.
Proof.
  pose proof (partitions_eqb_eq [p] [q]) as H. simpl in H.
  rewrite andb_true_r in H. rewrite H.
  split; [intros E; injection E as E; exact E|intros ->; reflexivity].
Qed.

(** X13.  [InstallPlan::operator==] answers true exactly for plans that
    agree on the ten fields it reads (with the partition lists of the
    same length and equal position by position), that is for plans that
    are equal once [hash_checks_mandatory], [powerwash_required] and
    [public_key_rsa] are set aside; [operator!=] answers the
    opposite. *)
Theorem InstallPlan_eq_compares_ten_fields a b :
  (InstallPlan_eqb a b = true <->
   set_uncompared false false "" a = set_uncompared false false "" b) /\
  (InstallPlan_neqb a b = true <->
   set_uncompared false false "" a <> set_uncompared false false "" b).
Proof.
  assert (E : InstallPlan_eqb a b = true <->
              set_uncompared false false "" a =
              set_uncompared false false "" b).
  { unfold InstallPlan_eqb. split.
    - intros H. repeat (apply andb_true_iff in H; destruct H as [H ?]).
      repeat match goal with
      | E : String.eqb _ _ = true |- _ => apply String.eqb_eq in E
      | E : Z.eqb _ _ = true |- _ => apply Z.eqb_eq in E
      | E : partitions_eqb _ _ = true |- _ => apply partitions_eqb_eq in E
      | E : Bool.eqb _ _ = true |- _ => apply Bool.eqb_prop in E
      end.
      destruct a, b; unfold set_uncompared; simpl in *; subst;
        reflexivity.
    - intros H.
      change (InstallPlan_eqb (set_uncompared false false "" a)
                (set_uncompared false false "" b) = true).
      rewrite H. apply InstallPlan_eqb_refl. }
  split; [exact E|].
  unfold InstallPlan_neqb. rewrite negb_true_iff.
  destruct (InstallPlan_eqb a b) eqn:B; split; intros H.
  - discriminate H.
  - exfalso. apply H. apply E. reflexivity.
  - intros F. apply E in F. discriminate F.
  - reflexivity.
Qed.

End PlanEq.

Module PlanSlotsFacts.
Import Plan Verifier PlanSlots.

Section SlotsFacts.

Context {boot_control_ : BootControlInterface}.
Variable kInvalidSlot : Slot.

Lemma load_partition_spec source_slot target_slot p result :
  load_partition kInvalidSlot source_slot target_slot p result =
  (mkPartition (name p)
     (loaded_path kInvalidSlot (name p) source_slot (source_path p))
     (source_size p) (source_hash p)
     (loaded_path kInvalidSlot (name p) target_slot (target_path p))
     (target_size p) (target_hash p) (run_postinstall p),
   resolves kInvalidSlot (name p) source_slot &&
   resolves kInvalidSlot (name p) target_slot && result).
Proof.
  unfold load_partition, loaded_path, resolves.
  destruct (source_slot =? kInvalidSlot); simpl;
    destruct (target_slot =? kInvalidSlot); simpl;
    try destruct (GetPartitionDevice (name p) source_slot); simpl;
    try destruct (GetPartitionDevice (name p) target_slot); simpl;
    destruct p; reflexivity.
Qed.

Lemma load_partitions_spec source_slot target_slot ps : forall result,
  load_partitions kInvalidSlot source_slot target_slot ps result =
  (map (fun p =>
          mkPartition (name p)
            (loaded_path kInvalidSlot (name p) source_slot (source_path p))
            (source_size p) (source_hash p)
            (loaded_path kInvalidSlot (name p) target_slot (target_path p))
            (target_size p) (target_hash p) (run_postinstall p)) ps,
   forallb (fun p =>
              resolves kInvalidSlot (name p) source_slot &&
              resolves kInvalidSlot (name p) target_slot) ps && result).
Proof.
  induction ps as [|p ps IH]; intros result; [reflexivity|].
  simpl. rewrite load_partition_spec, IH. simpl.
  f_equal. rewrite andb_assoc. f_equal. apply andb_comm.
Qed.

(** X10.  [LoadPartitionsFromSlots] changes nothing but the two paths
    of each partition: the other fields of the plan, the number and the
    order of the partitions, and their names, sizes, hashes and
    postinstall flags are as before.  A path is cleared when its slot
    is the invalid slot, becomes the device of the partition in the
    slot when the lookup succeeds, and is left as it was when the
    lookup fails, also for the partitions that come after one whose
    lookup failed. *)
Theorem load_partitions_sets_only_paths plan :
  let plan' := fst (LoadPartitionsFromSlots kInvalidSlot plan) in
  plan' = set_partitions (partitions plan') plan /\
  List.length (partitions plan') = List.length (partitions plan) /\
  forall i p,
    nth_error (partitions plan) i = Some p ->
    nth_error (partitions plan') i =
    Some (mkPartition (name p)
            (loaded_path kInvalidSlot (name p) (source_slot plan)
               (source_path p))
            (source_size p) (source_hash p)
            (loaded_path kInvalidSlot (name p) (target_slot plan)
               (target_path p))
            (target_size p) (target_hash p) (run_postinstall p)).
Proof.
  unfold LoadPartitionsFromSlots. rewrite load_partitions_spec. simpl.
  split; [reflexivity|]. split; [apply length_map|].
  intros i p H. rewrite nth_error_map, H. reflexivity.
Qed.

(** X11.  [LoadPartitionsFromSlots] returns true exactly when, for every
    partition, the device lookup succeeds in each of the two slots that
    is not the invalid slot; in particular it returns true, with all
    paths cleared, when both slots are invalid. *)
Theorem load_partitions_result plan :
  snd (LoadPartitionsFromSlots kInvalidSlot plan) = true <->
  forall p, In p (partitions plan) ->
    (source_slot plan <> kInvalidSlot ->
     GetPartitionDevice (name p) (source_slot plan) <> None) /\
    (target_slot plan <> kInvalidSlot ->
     GetPartitionDevice (name p) (target_slot plan) <> None).
Proof.
  unfold LoadPartitionsFromSlots. rewrite load_partitions_spec. simpl.
  rewrite andb_true_r, forallb_forall.
  assert (R : forall part_name slot,
    resolves kInvalidSlot part_name slot = true <->
    (slot <> kInvalidSlot -> GetPartitionDevice part_name slot <> None)).
  { intros part_name slot. unfold resolves.
    destruct (slot =? kInvalidSlot) eqn:E; simpl.
    - apply Z.eqb_eq in E. split; [intros _ F; contradiction|reflexivity].
    - apply Z.eqb_neq in E.
      destruct (GetPartitionDevice part_name slot); split; intros H;
        try reflexivity; try discriminate.
      exfalso. apply (H E). reflexivity. }
  split; intros H p Hp.
  - specialize (H p Hp). apply andb_true_iff in H.
    destruct H as [H1 H2]. split; apply R; assumption.
  - destruct (H p Hp) as [H1 H2]. apply andb_true_iff.
    split; apply R; assumption.
Qed.

End SlotsFacts.

End PlanSlotsFacts.

(** ** filesystem_verifier_action.cc *)

Module VerifierFacts.
Import Plan Verifier.

#[local] Arguments to_uint64 : simpl never.
#[local] Arguments to_int64 : simpl never.
#[local] Arguments Z.min : simpl never.
#[local] Arguments Z.sub : simpl never.
#[local] Arguments String.eqb : simpl never.
#[local] Arguments Z.ltb : simpl never.
#[local] Arguments Z.leb : simpl never.

(** Case analysis on the tests of a member function, wherever they
    appear. *)
Ltac break_step :=
  match goal with
  | H : inl _ = inl _ |- _ => injection H as H
  | H : inr _ = inr _ |- _ => injection H as H
  | H : Some _ = Some _ |- _ => injection H as H
  | H : Return _ = Return _ |- _ => injection H as H
  | H : Tail _ _ = Tail _ _ |- _ => injection H as ? H
  | H : (_, _) = (_, _) |- _ => injection H as ? H
  | H : context [match ?x with _ => _ end] |- _ => destruct x eqn:?
  | |- context [match ?x with _ => _ end] => destruct x eqn:?
  end.

Ltac break_all :=
  repeat (simpl in *; subst; try discriminate; break_step);
  simpl in *; subst; try discriminate.

Lemma replace_nth_length i p ps :
  List.length (replace_nth i p ps) = List.length ps.
Proof.
  revert i. induction ps as [|q ps IH]; intros [|i]; simpl;
    try reflexivity.
  rewrite IH. reflexivity.
Qed.

Lemma nth_error_replace_nth_same i p ps :
  (i < List.length ps)%nat -> nth_error (replace_nth i p ps) i = Some p.
Proof.
  revert i. induction ps as [|q ps IH]; intros [|i] H; simpl in *;
    try lia; try reflexivity.
  apply IH. lia.
Qed.

Lemma nth_error_replace_nth_other i j p ps :
  i <> j -> nth_error (replace_nth i p ps) j = nth_error ps j.
Proof.
  revert i j. induction ps as [|q ps IH]; intros [|i] [|j] H; simpl;
    try reflexivity; try congruence.
  apply IH. congruence.
Qed.

Section ActionFacts.

Context {boot_control_ : BootControlInterface}.
Context {hash_calculator : OmahaHashCalculator}.
Context {platform : Platform}.

(** *** The calls a member function ends with are carried out *)

Lemma todo_index_lt s p :
  nth_error (partitions (install_plan_ s)) (partition_index_ s) = Some p ->
  (partition_index_ s < List.length (partitions (install_plan_ s)))%nat.
Proof. intros H. apply nth_error_Some. congruence. Qed.

Lemma rank_dispatch c s c' s' :
  dispatch c s = Tail c' s' ->
  (rank (Tail c' s') < rank (Tail c s))%nat.
Proof.
  intros H.
  destruct c as [| |[|b data]|];
    unfold dispatch, StartPartitionHashing, ScheduleRead,
      OnReadDoneCallback, FinishPartitionHashing, blen in H;
    break_all;
    try (match goal with
         | E : nth_error _ _ = Some _ |- _ => apply todo_index_lt in E
         end);
    unfold rank, todo; simpl; rewrite ?replace_nth_length; lia.
Qed.

Lemma run_calls_enough : forall fuel o,
  (rank o <= fuel)%nat -> exists s, run_calls fuel o = Some s.
Proof.
  induction fuel as [|fuel IH]; intros [s|c s] H.
  - exists s. reflexivity.
  - exfalso. unfold rank in H. destruct c as [| |[|]|]; lia.
  - exists s. reflexivity.
  - simpl. apply IH.
    destruct (dispatch c s) as [s'|c' s'] eqn:E.
    + simpl. lia.
    + apply rank_dispatch in E. lia.
Qed.

Lemma run_calls_more : forall fuel o s,
  run_calls fuel o = Some s -> run_calls (S fuel) o = Some s.
Proof.
  induction fuel as [|fuel IH]; intros [s0|c s0] s H.
  - exact H.
  - discriminate.
  - exact H.
  - simpl in H. apply IH in H. exact H.
Qed.

Lemma run_calls_agree fuel o :
  (rank o <= fuel)%nat -> run_calls fuel o = run_calls (rank o) o.
Proof.
  intros H. destruct (run_calls_enough (rank o) o (Nat.le_refl _)) as [s E].
  rewrite E. clear - H E.
  induction H as [|fuel H IH].
  - exact E.
  - apply run_calls_more. exact IH.
Qed.

Lemma call_Return s : call (Return s) = s.
Proof. reflexivity. Qed.

Lemma call_Tail c s : call (Tail c s) = call (dispatch c s).
Proof.
  unfold call at 1.
  assert (R : exists n, rank (Tail c s) = S n).
  { unfold rank. destruct c as [| |[|]|];
      eexists; rewrite Nat.add_comm; simpl; reflexivity. }
  destruct R as [n R]. rewrite R. simpl.
  assert (L : (rank (dispatch c s) <= n)%nat).
  { destruct (dispatch c s) as [s'|c' s'] eqn:E.
    - simpl. lia.
    - apply rank_dispatch in E. lia. }
  rewrite (run_calls_agree n _ L).
  unfold call.
  destruct (run_calls_enough _ _ (Nat.le_refl (rank (dispatch c s))))
    as [r E].
  rewrite E. reflexivity.
Qed.

(** A property of outcomes that every member function hands on to the
    call it ends with holds of the state the calls end in. *)
Lemma call_rule (Pre : Outcome -> Prop) :
  (forall c s, Pre (Tail c s) -> Pre (dispatch c s)) ->
  forall o, Pre o -> Pre (Return (call o)).
Proof.
  intros Hstep o.
  remember (rank o) as n eqn:Hn. revert o Hn.
  induction n as [n IH] using lt_wf_ind. intros [s|c s] Hn Hpre.
  - rewrite call_Return. exact Hpre.
  - rewrite call_Tail.
    destruct (dispatch c s) as [s'|c' s'] eqn:E.
    + rewrite call_Return. rewrite <- E. apply Hstep. exact Hpre.
    + apply (IH (rank (Tail c' s'))).
      * subst n. apply rank_dispatch. exact E.
      * reflexivity.
      * rewrite <- E. apply Hstep. exact Hpre.
Qed.

(** *** Control: one report to the processor, or none after cancellation *)

Lemma nth_error_index_None s :
  nth_error (partitions (install_plan_ s)) (partition_index_ s) = None ->
  (List.length (partitions (install_plan_ s)) <= partition_index_ s)%nat.
Proof. intros H. apply nth_error_None. exact H. Qed.

Ltac index_facts :=
  repeat match goal with
  | E : nth_error _ _ = Some _ |- _ => apply todo_index_lt in E
  | E : nth_error _ _ = None |- _ => apply nth_error_index_None in E
  | E : Nat.eqb _ _ = true |- _ => apply Nat.eqb_eq in E
  | E : Nat.eqb _ _ = false |- _ => apply Nat.eqb_neq in E
  end.

Lemma control_dispatch c s :
  control (Tail c s) -> control (dispatch c s).
Proof.
  destruct c as [| |data|];
    unfold control, hashing, running, dispatch, StartPartitionHashing,
      ScheduleRead, OnReadDoneCallback, FinishPartitionHashing;
    intros H; decompose [and] H; clear H;
    break_all; index_facts;
    unfold settled, hashing, running, pending_read, Cleanup, ActionComplete,
      SetOutputObject, crash in *;
    break_all; rewrite ?replace_nth_length;
    repeat split; eauto; try congruence; try lia;
    match goal with
    | E : completions _ = [] |- _ => rewrite E; simpl; eauto
    end.
Qed.

Lemma settled_call o : control o -> settled (call o).
Proof.
  intros H. apply (call_rule control control_dispatch o H).
Qed.

Lemma legacy_partitions_running s s' b :
  PerformAction_legacy_partitions s = (s', b) ->
  running s -> src_stream_ s = None ->
  running s' /\ src_stream_ s' = None /\
  partition_index_ s' = partition_index_ s /\
  has_output_pipe s' = has_output_pipe s.
Proof.
  unfold PerformAction_legacy_partitions, running. intros H R N.
  break_all; auto.
Qed.

Lemma settled_PerformAction mode input out_pipe :
  settled (PerformAction (init mode input out_pipe)).
Proof.
  unfold PerformAction.
  destruct input as [plan|].
  - simpl input_object. cbv iota beta.
    set (s0 := set_install_plan_ plan (init mode (Some plan) out_pipe)).
    assert (R0 : running s0) by (repeat split; reflexivity).
    assert (N0 : src_stream_ s0 = None) by reflexivity.
    assert (I0 : partition_index_ s0 = 0%nat) by reflexivity.
    assert (G : forall s b,
      running s -> src_stream_ s = None -> partition_index_ s = 0%nat ->
      settled
        (let '(s1, completer) :=
           if negb b then (s, mkCompleter kError true)
           else if Nat.eqb (List.length (partitions (install_plan_ s))) 0
           then
             (if has_output_pipe s then SetOutputObject (install_plan_ s) s
              else s,
              mkCompleter kSuccess true)
           else (call (StartPartitionHashing s), mkCompleter kError false) in
         ScopedActionCompleter_exit completer s1)).
    { intros s b [Rc [Rk Rp]] N I.
      destruct b; simpl negb; cbv iota.
      - destruct (Nat.eqb _ _).
        + unfold ScopedActionCompleter_exit, settled, pending_read,
            ActionComplete, SetOutputObject.
          destruct (has_output_pipe s); simpl; rewrite ?N, ?Rk, ?Rp;
            simpl; eauto.
        + unfold ScopedActionCompleter_exit. simpl.
          apply (settled_call (dispatch CStartPartitionHashing s)).
          apply control_dispatch. simpl. unfold running.
          repeat split; auto. lia.
      - unfold ScopedActionCompleter_exit, settled, pending_read,
          ActionComplete.
        simpl. rewrite ?N, ?Rk, ?Rp. simpl. eauto. }
    destruct (negb (is_full_update (install_plan_ s0)) &&
              Nat.eqb (List.length (partitions (install_plan_ s0))) 0 &&
              match verifier_mode_ s0 with
              | kComputeSourceHash => true
              | kVerifyTargetHash => false
              end).
    + destruct (PerformAction_legacy_partitions s0) as [s1 b] eqn:E.
      destruct (legacy_partitions_running _ _ _ E R0 N0) as [R1 [N1 [I1 _]]].
      apply (G s1 b R1 N1). congruence.
    + apply (G s0 true R0 N0 I0).
  - unfold ScopedActionCompleter_exit, settled, pending_read,
      ActionComplete.
    simpl. eauto.
Qed.

Lemma settled_deliver s e s' :
  settled s -> deliver s e = Some s' -> settled s'.
Proof.
  unfold deliver. intros [Hc Hs] H.
  rewrite Hc in H. unfold pending_read in Hs.
  destruct e as [data| |].
  - destruct (src_stream_ s) as [st|] eqn:Est; [|discriminate].
    destruct (pending st) as [n|] eqn:En; [|discriminate].
    destruct (blen data <=? n); [|discriminate].
    injection H as <-.
    apply (settled_call (dispatch (COnReadDoneCallback data) _)).
    apply control_dispatch. simpl.
    unfold hashing, running in *. simpl.
    decompose [and] Hs. repeat split; auto. discriminate.
  - destruct (src_stream_ s) as [st|] eqn:Est; [|discriminate].
    destruct (pending st) as [n|] eqn:En; [|discriminate].
    injection H as <-.
    destruct Hs as [[_ [Hk Hp]] _].
    unfold OnReadErrorCallback, Cleanup, settled, pending_read,
      ActionComplete.
    simpl. rewrite Hk, Hp. simpl. rewrite Hk. eauto.
  - destruct (completions s) as [|c cs] eqn:Ec; [|discriminate].
    injection H as <-.
    unfold TerminateProcessing, Cleanup, settled, pending_read. simpl.
    auto.
Qed.

Lemma reachable_settled mode input out_pipe s :
  reachable mode input out_pipe s -> settled s.
Proof.
  induction 1 as [|s e s' _ IH H].
  - apply settled_PerformAction.
  - apply (settled_deliver s e s' IH H).
Qed.

Lemma settled_cancelled s :
  settled s -> cancelled_ s = true ->
  pending_read s = None /\ completions s = [] /\
  forall e s', deliver s e = Some s' ->
    cancelled_ s' = true /\ completions s' = [].
Proof.
  intros [Hc Hs] Hk. destruct (pending_read s) eqn:Ep.
  - destruct Hs as [[_ [Hk' _]] _]. congruence.
  - destruct Hs as [Hn Hs]. rewrite Hk in Hs.
    split; [reflexivity|]. split; [exact Hs|].
    intros e s' H. unfold deliver in H. rewrite Hc, Hn, Hs in H.
    destruct e; try discriminate.
    injection H as <-.
    unfold TerminateProcessing, Cleanup. simpl. auto.
Qed.

(** *** Only [TerminateProcessing] cancels *)

Lemma cancelled_Cleanup code s :
  cancelled_ (Cleanup code s) = cancelled_ s.
Proof.
  unfold Cleanup, ActionComplete, SetOutputObject. simpl.
  destruct (cancelled_ s) eqn:E; [exact E|].
  destruct (ErrorCode_eqb code kSuccess && has_output_pipe s); exact E.
Qed.

Lemma cancelled_dispatch c s :
  cancelled_ (outcome_state (dispatch c s)) = cancelled_ s.
Proof.
  destruct c as [| |data|];
    unfold dispatch, StartPartitionHashing, ScheduleRead,
      OnReadDoneCallback, FinishPartitionHashing;
    repeat break_step; simpl outcome_state;
    rewrite ?cancelled_Cleanup; subst; try reflexivity;
    repeat match goal with
    | H : inl _ = inl _ |- _ => injection H as <-
    | H : inr _ = inr _ |- _ => injection H as <-
    | H : inl _ = inr _ |- _ => discriminate H
    | H : inr _ = inl _ |- _ => discriminate H
    end;
    rewrite ?cancelled_Cleanup; reflexivity.
Qed.

Lemma cancelled_call o :
  cancelled_ (call o) = cancelled_ (outcome_state o).
Proof.
  apply (call_rule
           (fun o' => cancelled_ (outcome_state o') =
                      cancelled_ (outcome_state o)));
    [|reflexivity].
  intros c s H. rewrite cancelled_dispatch. exact H.
Qed.

Lemma cancelled_PerformAction mode input out_pipe :
  cancelled_ (PerformAction (init mode input out_pipe)) = false.
Proof.
  unfold PerformAction.
  destruct input as [plan|]; [|reflexivity].
  simpl input_object. cbv iota beta.
  set (s0 := set_install_plan_ plan (init mode (Some plan) out_pipe)).
  assert (R0 : running s0) by (repeat split; reflexivity).
  assert (G : forall s b,
    cancelled_ s = false ->
    cancelled_
      (let '(s1, completer) :=
         if negb b then (s, mkCompleter kError true)
         else if Nat.eqb (List.length (partitions (install_plan_ s))) 0
         then
           (if has_output_pipe s then SetOutputObject (install_plan_ s) s
            else s,
            mkCompleter kSuccess true)
         else (call (StartPartitionHashing s), mkCompleter kError false) in
       ScopedActionCompleter_exit completer s1) = false).
  { intros s b Hk.
    destruct b; simpl negb; cbv iota.
    - destruct (Nat.eqb _ _).
      + unfold ScopedActionCompleter_exit, ActionComplete, SetOutputObject.
        destruct (has_output_pipe s); simpl; exact Hk.
      + unfold ScopedActionCompleter_exit. simpl.
        rewrite cancelled_call.
        exact (eq_trans (cancelled_dispatch CStartPartitionHashing s) Hk).
    - unfold ScopedActionCompleter_exit, ActionComplete. simpl. exact Hk. }
  destruct (negb (is_full_update (install_plan_ s0)) &&
            Nat.eqb (List.length (partitions (install_plan_ s0))) 0 &&
            match verifier_mode_ s0 with
            | kComputeSourceHash => true
            | kVerifyTargetHash => false
            end).
  - destruct (PerformAction_legacy_partitions s0) as [s1 b] eqn:E.
    destruct (legacy_partitions_running _ _ _ E R0 eq_refl)
      as [[_ [K1 _]] _].
    apply (G s1 b K1).
  - apply (G s0 true). reflexivity.
Qed.

(** An event other than [TerminateProcessing] leaves [cancelled_] as it
    is; [TerminateProcessing] sets it. *)
Lemma cancelled_deliver s e s' :
  deliver s e = Some s' ->
  cancelled_ s' =
    match e with
    | EvTerminateProcessing => true
    | _ => cancelled_ s
    end.
Proof.
  unfold deliver. intros H.
  destruct (crashed s); [discriminate|].
  destruct e as [data| |].
  - destruct (src_stream_ s) as [st|]; [|discriminate].
    destruct (pending st) as [n|]; [|discriminate].
    destruct (blen data <=? n); [|discriminate].
    injection H as <-.
    rewrite cancelled_call.
    exact (cancelled_dispatch (COnReadDoneCallback data)
             (set_src_stream_ (Some (stream_deliver data st)) s)).
  - destruct (src_stream_ s) as [st|]; [|discriminate].
    destruct (pending st) as [n|]; [|discriminate].
    injection H as <-.
    unfold OnReadErrorCallback. rewrite cancelled_Cleanup. reflexivity.
  - destruct (completions s); [|discriminate].
    injection H as <-.
    unfold TerminateProcessing. rewrite cancelled_Cleanup. reflexivity.
Qed.

Lemma cancelled_stays es : forall s,
  cancelled_ s = true -> cancelled_ (deliver_all s es) = true.
Proof.
  induction es as [|e es IH]; intros s Hk; [exact Hk|].
  simpl. destruct (deliver s e) as [s'|] eqn:E; [|apply IH; exact Hk].
  apply IH. rewrite (cancelled_deliver s e s' E).
  destruct e; auto.
Qed.

Lemma deliver_all_app es1 : forall s es2,
  deliver_all s (es1 ++ es2) = deliver_all (deliver_all s es1) es2.
Proof.
  induction es1 as [|e es1 IH]; intros s es2; [reflexivity|].
  simpl. destruct (deliver s e); apply IH.
Qed.

Lemma deliver_all_reachable mode input out_pipe es : forall s,
  reachable mode input out_pipe s ->
  reachable mode input out_pipe (deliver_all s es).
Proof.
  induction es as [|e es IH]; intros s R; [exact R|].
  simpl. destruct (deliver s e) as [s'|] eqn:E; [|apply IH; exact R].
  apply IH. apply (reach_deliver _ _ _ s e s' R E).
Qed.

(** Every state of a run is the state after a list of events. *)
Lemma reachable_deliver_all mode input out_pipe s :
  reachable mode input out_pipe s ->
  exists es,
    s = deliver_all (PerformAction (init mode input out_pipe)) es.
Proof.
  induction 1 as [|s e s' _ [es IH] H].
  - exists []. reflexivity.
  - exists (es ++ [e]). rewrite deliver_all_app, <- IH. simpl.
    rewrite H. reflexivity.
Qed.

(** The action is cancelled only by a [TerminateProcessing] that came
    before it had reported. *)
Lemma cancelled_by_terminate es : forall s,
  cancelled_ s = false ->
  cancelled_ (deliver_all s es) = true ->
  exists es1 es2,
    es = es1 ++ EvTerminateProcessing :: es2 /\
    completions (deliver_all s es1) = [].
Proof.
  induction es as [|e es IH]; intros s Hk H.
  - simpl in H. congruence.
  - simpl in H. destruct (deliver s e) as [s'|] eqn:E.
    + pose proof (cancelled_deliver s e s' E) as K.
      assert (Next : cancelled_ s' = false ->
        exists es1 es2,
          e :: es = es1 ++ EvTerminateProcessing :: es2 /\
          completions (deliver_all s es1) = []).
      { intros K'. destruct (IH s' K' H) as [es1 [es2 [E1 E2]]].
        exists (e :: es1), es2. split; [rewrite E1; reflexivity|].
        simpl. rewrite E. exact E2. }
      destruct e as [data| |]; try (apply Next; congruence).
      exists [], es. split; [reflexivity|]. simpl.
      unfold deliver in E. destruct (crashed s); [discriminate|].
      destruct (completions s); [reflexivity|discriminate].
    + destruct (IH s Hk H) as [es1 [es2 [E1 E2]]].
      exists (e :: es1), es2. split; [rewrite E1; reflexivity|].
      simpl. rewrite E. exact E2.
Qed.

(** C3, as the code has it.  The state of a run is the state after
    [PerformAction] and a list of events.  The process is not aborted.
    The action is cancelled exactly when the events include a
    [TerminateProcessing] that arrived before the action had reported
    to the processor.  A run that was not cancelled has reported
    nothing as long as a read is scheduled, and exactly one code once
    no read is scheduled any more.  A run that was cancelled has no
    read scheduled and has reported nothing, and this stays so whatever
    happens next. *)
Theorem one_completion_unless_cancelled :
  forall mode input out_pipe es,
    let s0 := PerformAction (init mode input out_pipe) in
    let s := deliver_all s0 es in
    crashed s = false /\
    (cancelled_ s = true <->
     exists es1 es2,
       es = es1 ++ EvTerminateProcessing :: es2 /\
       completions (deliver_all s0 es1) = []) /\
    (cancelled_ s = false ->
     match pending_read s with
     | Some _ => completions s = []
     | None => exists code, completions s = [code]
     end) /\
    (cancelled_ s = true ->
     pending_read s = None /\ completions s = [] /\
     forall e s', deliver s e = Some s' ->
       cancelled_ s' = true /\ completions s' = []).
Proof.
  intros mode input out_pipe es s0 s.
  assert (R : reachable mode input out_pipe s).
  { apply deliver_all_reachable. apply reach_perform. }
  pose proof (reachable_settled _ _ _ _ R) as Hset.
  pose proof Hset as [Hc Hs].
  split; [exact Hc|]. split; [|split].
  - split.
    + apply cancelled_by_terminate. apply cancelled_PerformAction.
    + intros [es1 [es2 [E1 E2]]]. subst s. rewrite E1, deliver_all_app.
      set (s1 := deliver_all s0 es1) in *.
      assert (R1 : reachable mode input out_pipe s1).
      { apply deliver_all_reachable. apply reach_perform. }
      destruct (reachable_settled _ _ _ _ R1) as [Hc1 _].
      assert (D : deliver s1 EvTerminateProcessing =
                  Some (TerminateProcessing s1))
        by (unfold deliver; rewrite Hc1, E2; reflexivity).
      simpl. rewrite D.
      apply cancelled_stays. unfold TerminateProcessing.
      rewrite cancelled_Cleanup. reflexivity.
  - intros Hk. destruct (pending_read s).
    + destruct Hs as [[_ [_ Hp]] _]. exact Hp.
    + destruct Hs as [_ Hs]. rewrite Hk in Hs. exact Hs.
  - apply settled_cancelled. exact Hset.
Qed.

(** *** The action only moves forward *)

Lemma later_refl s : later s s.
Proof.
  unfold later. split; [lia|].
  repeat split; exists []; rewrite app_nil_r; reflexivity.
Qed.

Lemma later_trans s0 s1 s2 : later s0 s1 -> later s1 s2 -> later s0 s2.
Proof.
  unfold later.
  intros [I1 [[o1 O1] [[c1 C1] [k1 K1]]]] [I2 [[o2 O2] [[c2 C2] [k2 K2]]]].
  split; [lia|]. repeat split.
  - exists (o1 ++ o2). rewrite O2, O1, app_assoc. reflexivity.
  - exists (c1 ++ c2). rewrite C2, C1, app_assoc. reflexivity.
  - exists (k1 ++ k2). rewrite K2, K1, app_assoc. reflexivity.
Qed.

Lemma later_Cleanup code s : later s (Cleanup code s).
Proof.
  unfold later, Cleanup, ActionComplete, SetOutputObject.
  break_all; (split; [lia|]); repeat split;
    try (exists []; rewrite app_nil_r; reflexivity);
    eexists; reflexivity.
Qed.

Lemma later_dispatch c s : later s (outcome_state (dispatch c s)).
Proof.
  destruct c as [| |data|];
    unfold dispatch, StartPartitionHashing, ScheduleRead,
      OnReadDoneCallback, FinishPartitionHashing;
    break_all;
    try apply later_refl; try apply later_Cleanup;
    try (eapply later_trans; [|apply later_Cleanup]);
    unfold later; simpl; (split; [lia|]); repeat split;
    try (exists []; rewrite app_nil_r; reflexivity);
    eexists; reflexivity.
Qed.

Lemma later_call s0 o : later s0 (outcome_state o) -> later s0 (call o).
Proof.
  intros H.
  apply (call_rule (fun o => later s0 (outcome_state o))); [|exact H].
  intros c s L. eapply later_trans; [exact L|]. apply later_dispatch.
Qed.

(** *** The read loop of a partition *)

Lemma pending_read_Cleanup code s : pending_read (Cleanup code s) = None.
Proof. unfold pending_read, Cleanup. break_all; reflexivity. Qed.

Lemma completions_Cleanup code s :
  cancelled_ s = false ->
  completions (Cleanup code s) = completions s ++ [code].
Proof.
  intros H. unfold Cleanup, ActionComplete, SetOutputObject. simpl.
  rewrite H. break_all; reflexivity.
Qed.

Lemma finish_moves_on s :
  control (Tail CFinishPartitionHashing s) ->
  pending_read (call (Tail CFinishPartitionHashing s)) = None \/
  (partition_index_ s <
   partition_index_ (call (Tail CFinishPartitionHashing s)))%nat.
Proof.
  intros [_ [Hi [Hh Hs]]]. rewrite call_Tail.
  unfold dispatch, FinishPartitionHashing.
  break_all; index_facts; try congruence; try lia;
    rewrite ?call_Return, ?pending_read_Cleanup; auto; right;
    match goal with
    | |- (_ < partition_index_ (call (Tail ?c ?s1)))%nat =>
      pose proof (later_call s1 (Tail c s1) (later_refl s1)) as [L _]
    end;
    simpl in L; lia.
Qed.

(** C4: a read of the partition in progress is answered with [data].
    When no bytes were read, or the bytes read bring [remaining_size_] to
    zero, the loop over this partition ends: afterwards no read is
    scheduled, or the action is at a later partition.  When bytes were
    read and [remaining_size_] stays different from zero, the hasher
    takes the bytes and the next read can be scheduled, the loop goes
    on: the next read of the same partition is scheduled and nothing is
    reported.  When no bytes were read while [remaining_size_] is
    different from zero, the action reports [kFilesystemVerifierError]
    and stops reading. *)
Theorem read_loop_ends :
  forall mode input out_pipe s st n data s',
    reachable mode input out_pipe s ->
    src_stream_ s = Some st -> pending st = Some n ->
    deliver s (EvReadDone data) = Some s' ->
    let remaining := to_int64 (remaining_size_ s - blen data) in
    (data = [] \/ remaining = 0 ->
     pending_read s' = None \/
     (partition_index_ s < partition_index_ s')%nat) /\
    (forall fed,
       data <> [] -> remaining <> 0 -> hasher_ s = Some fed ->
       Update_ok fed data = true ->
       let bytes_to_read :=
         to_uint64 (Z.min kReadFileBufferSize remaining) in
       ReadAsync_ok (stream_path st) (consumed st ++ data) bytes_to_read
         = true ->
       pending_read s' = Some bytes_to_read /\
       partition_index_ s' = partition_index_ s /\
       remaining_size_ s' = remaining /\
       completions s' = []) /\
    (data = [] -> remaining_size_ s <> 0 ->
     completions s' = [kFilesystemVerifierError] /\
     pending_read s' = None).
Proof.
  intros mode input out_pipe s st n data s' R Est En H remaining.
  pose proof (reachable_settled _ _ _ _ R) as [Hc Hs].
  unfold pending_read in Hs. rewrite Est, En in Hs.
  pose proof Hs as [[_ [Hk Hp]] [Hi [Hd [Hh [_ Hb]]]]].
  unfold deliver in H. rewrite Hc, Est, En in H.
  destruct (blen data <=? n); [|discriminate]. injection H as <-.
  set (s1 := set_src_stream_ (Some (stream_deliver data st)) s).
  assert (C1 : control (Tail (COnReadDoneCallback data) s1)).
  { simpl. unfold hashing, running. simpl.
    repeat split; auto. discriminate. }
  assert (C2 : control (dispatch (COnReadDoneCallback data) s1))
    by (apply control_dispatch; exact C1).
  simpl in C2.
  split; [|split].
  - intros Hend.
    unfold OnReadDoneCallback in *. subst remaining.
    destruct (blen data =? 0) eqn:Eb.
    + simpl in *. rewrite Hk in *.
      destruct (remaining_size_ s =? 0); simpl in *.
      * apply finish_moves_on in C2. exact C2.
      * rewrite call_Return, pending_read_Cleanup. auto.
    + apply Z.eqb_neq in Eb.
      destruct Hend as [Hend|Hend];
        [subst data; exfalso; apply Eb; reflexivity|].
      simpl in *. rewrite Hd in *.
      destruct (hasher_ s) as [fed|]; [|congruence].
      destruct (Update_ok fed data); simpl in *.
      * rewrite Hk, Hd, Hend in *. simpl in *.
        apply finish_moves_on in C2. exact C2.
      * rewrite call_Return, pending_read_Cleanup. auto.
  - intros fed Hne Hrem Ef Hu bytes_to_read Hr.
    unfold OnReadDoneCallback. subst remaining.
    assert (Eb : (blen data =? 0) = false).
    { apply Z.eqb_neq. intros E. apply blen_nil_iff in E. auto. }
    rewrite Eb. simpl. rewrite Hd, Ef, Hu. simpl. rewrite Hk, Hd. simpl.
    apply Z.eqb_neq in Hrem. rewrite Hrem.
    rewrite call_Tail. unfold dispatch, ScheduleRead. simpl.
    rewrite Hb.
    replace (to_int64 kReadFileBufferSize) with kReadFileBufferSize
      by reflexivity.
    fold bytes_to_read.
    assert (Hnz : (bytes_to_read =? 0) = false).
    { apply Z.eqb_neq. intros E. apply to_uint64_zero in E.
      - apply Z.eqb_neq in Hrem. unfold kReadFileBufferSize in E. lia.
      - pose proof (to_int64_range (remaining_size_ s - blen data)).
        unfold kReadFileBufferSize. lia. }
    rewrite Hnz. unfold stream_deliver at 1 2. simpl.
    rewrite Hr. rewrite call_Return. simpl. auto.
  - intros Hnil Hrem. subst data.
    unfold OnReadDoneCallback. simpl. rewrite Hk.
    apply Z.eqb_neq in Hrem. rewrite Hrem. simpl.
    rewrite call_Return, pending_read_Cleanup.
    rewrite completions_Cleanup by exact Hk. simpl. rewrite Hp. auto.
Qed.

(** *** Legacy partitions *)

(** C7: [PerformAction] in [kComputeSourceHash] mode on a delta update
    without partitions.  When both legacy devices resolve and the kernel
    device has a length, hashing starts on a plan with exactly two
    partitions: "root", of [block_count * block_size] bytes (the two
    counts as [GetFilesystemSize] reports them, zero when it reports
    nothing), and "kernel", of the length of its device.  Otherwise the
    action reports [kError] and no device is opened: nothing is hashed
    on fewer partitions. *)
Theorem legacy_partitions_before_hashing :
  forall plan out_pipe,
    is_full_update plan = false -> partitions plan = [] ->
    let s0 := init kComputeSourceHash (Some plan) out_pipe in
    let slot := source_slot plan in
    (forall root_path kernel_path block_count block_size,
       GetPartitionDevice "root" slot = Some root_path ->
       GetPartitionDevice "kernel" slot = Some kernel_path ->
       match GetFilesystemSize root_path with
       | Some counts => counts
       | None => (0, 0)
       end = (block_count, block_size) ->
       0 <= block_count * block_size < 2 ^ 64 ->
       0 <= FileSize kernel_path < 2 ^ 64 ->
       let root :=
         mkPartition "root" "" (block_count * block_size) [] "" 0 []
           false in
       let kernel :=
         mkPartition "kernel" "" (FileSize kernel_path) [] "" 0 []
           false in
       PerformAction s0 =
       call (StartPartitionHashing
               (set_install_plan_ (set_partitions [root; kernel] plan)
                  s0))) /\
    (GetPartitionDevice "root" slot = None \/
     GetPartitionDevice "kernel" slot = None \/
     (exists kernel_path,
        GetPartitionDevice "kernel" slot = Some kernel_path /\
        FileSize kernel_path < 0) ->
     completions (PerformAction s0) = [kError] /\
     opened (PerformAction s0) = [] /\
     output_object (PerformAction s0) = None).
Proof.
  intros plan out_pipe Hfull Hparts s0 slot.
  unfold PerformAction. simpl input_object. cbv iota beta.
  replace (negb (is_full_update (install_plan_ (set_install_plan_ plan s0)))
           && Nat.eqb
                (List.length
                   (partitions (install_plan_ (set_install_plan_ plan s0))))
                0
           && match verifier_mode_ (set_install_plan_ plan s0) with
              | kComputeSourceHash => true
              | kVerifyTargetHash => false
              end) with true
    by (simpl; rewrite Hfull, Hparts; reflexivity).
  unfold PerformAction_legacy_partitions.
  unfold kLegacyPartitionNameRoot, kLegacyPartitionNameKernel.
  change (name (set_name "root" Partition_default)) with "root".
  change (source_slot (install_plan_ (set_install_plan_ plan s0)))
    with (source_slot plan).
  subst slot.
  split.
  - intros root_path kernel_path block_count block_size Hr Hk Hc Hb Hf.
    assert (Hneg : (FileSize kernel_path <? 0) = false)
      by (apply Z.ltb_ge; lia).
    rewrite Hr.
    destruct (GetFilesystemSize root_path) as [[c z]|];
      injection Hc as <- <-; simpl; rewrite Hk; simpl; rewrite Hneg;
      simpl; rewrite Hparts; simpl;
      unfold ScopedActionCompleter_exit; simpl;
      f_equal; f_equal; unfold push_back, set_install_plan_; simpl;
      rewrite Hparts; simpl;
      unfold set_source_size, set_name; simpl;
      rewrite ?to_uint64_small by lia; reflexivity.
  - intros [Hr|[Hk|[kernel_path [Hk Hf]]]].
    + rewrite Hr. simpl. auto.
    + destruct (GetPartitionDevice "root" (source_slot plan))
        as [root_path|];
        [destruct (GetFilesystemSize root_path) as [[c z]|]|];
        simpl; rewrite ?Hk; simpl; auto.
    + assert (Hneg : (FileSize kernel_path <? 0) = true)
        by (apply Z.ltb_lt; lia).
      destruct (GetPartitionDevice "root" (source_slot plan))
        as [root_path|];
        [destruct (GetFilesystemSize root_path) as [[c z]|]|];
        simpl; rewrite ?Hk, ?Hneg; simpl; auto.
Qed.

(** *** A partition of zero bytes *)

Lemma start_zero_size s p :
  running s ->
  nth_error (partitions (install_plan_ s)) (partition_index_ s) = Some p ->
  mode_size (verifier_mode_ s) p = 0 ->
  let device := device_of (verifier_mode_ s) (install_plan_ s) p in
  (device = "" ->
   call (StartPartitionHashing s) =
   Cleanup kFilesystemVerifierError (set_remaining_size_ 0 s)) /\
  (device <> "" -> FileStream_Open device = false ->
   call (StartPartitionHashing s) =
   Cleanup kFilesystemVerifierError
     (set_opened (opened s ++ [device]) (set_remaining_size_ 0 s))) /\
  (device <> "" -> FileStream_Open device = true ->
   call (StartPartitionHashing s) =
   call (FinishPartitionHashing (opened_unread device s))).
Proof.
  intros [Hc [Hk Hp]] Hn Hz device.
  pose proof (todo_index_lt _ _ Hn) as Hlt.
  assert (Hneq : Nat.eqb (partition_index_ s)
                   (List.length (partitions (install_plan_ s))) = false)
    by (apply Nat.eqb_neq; lia).
  unfold StartPartitionHashing. rewrite Hneq, Hn.
  fold (mode_slot (verifier_mode_ s) (install_plan_ s)).
  fold (device_of (verifier_mode_ s) (install_plan_ s) p). fold device.
  replace (match verifier_mode_ s with
           | kComputeSourceHash =>
             set_remaining_size_ (to_int64 (source_size p)) s
           | kVerifyTargetHash =>
             set_remaining_size_ (to_int64 (target_size p)) s
           end) with (set_remaining_size_ 0 s)
    by (unfold mode_size in Hz; destruct (verifier_mode_ s);
        rewrite Hz; reflexivity).
  split; [|split].
  - intros Hd. rewrite Hd, String.eqb_refl. apply call_Return.
  - intros Hd Ho. apply String.eqb_neq in Hd. rewrite Hd, Ho. simpl.
    rewrite call_Return. reflexivity.
  - intros Hd Ho. apply String.eqb_neq in Hd. rewrite Hd, Ho.
    set (s1 := set_hasher_ (Some [])
         (set_read_done_ false
            (set_buffer_ kReadFileBufferSize
               (set_src_stream_ (Some (mkStream device [] None false))
                  (set_opened (opened s ++ [device])
                     (set_remaining_size_ 0 s)))))).
    assert (E1 : ScheduleRead s1 = Tail (COnReadDoneCallback []) s1)
      by reflexivity.
    assert (E2 : OnReadDoneCallback s1 [] =
                 Tail CFinishPartitionHashing (opened_unread device s)).
    { unfold OnReadDoneCallback. simpl. rewrite Hk. reflexivity. }
    change (call (Tail CScheduleRead s1) =
            call (FinishPartitionHashing (opened_unread device s))).
    rewrite call_Tail. unfold dispatch.
    rewrite E1, call_Tail. unfold dispatch.
    rewrite E2, call_Tail. reflexivity.
Qed.

(** C9, as the code has it: [StartPartitionHashing] at a partition whose
    size for the mode is zero.  The device is resolved and opened as for
    any other partition, and the action reports
    [kFilesystemVerifierError] when there is no device or it does not
    open.  Once the device is open no read is scheduled on it: the
    partition is finished within the same call over zero bytes.  When
    the hasher finalizes and, in [kVerifyTargetHash] mode, the target
    hash is the hash of no bytes, the stream is closed having delivered
    nothing and the action moves on to the next partition; in
    [kVerifyTargetHash] mode with another target hash it reports
    [kNewRootfsVerificationError]. *)
Theorem zero_size_partition_opened_not_read :
  forall s p,
    running s ->
    nth_error (partitions (install_plan_ s)) (partition_index_ s) = Some p ->
    mode_size (verifier_mode_ s) p = 0 ->
    let device := device_of (verifier_mode_ s) (install_plan_ s) p in
    let s' := call (StartPartitionHashing s) in
    (device = "" ->
     completions s' = [kFilesystemVerifierError] /\
     opened s' = opened s) /\
    (device <> "" ->
     (exists l, opened s' = opened s ++ device :: l) /\
     (FileStream_Open device = false ->
      completions s' = [kFilesystemVerifierError]) /\
     (FileStream_Open device = true -> Finalize_ok [] = true ->
      verifier_mode_ s = kComputeSourceHash \/
      target_hash p = raw_hash [] ->
      nth_error (closed_streams s') (List.length (closed_streams s)) =
        Some (mkStream device [] None true) /\
      (partition_index_ s < partition_index_ s')%nat) /\
     (FileStream_Open device = true -> Finalize_ok [] = true ->
      verifier_mode_ s = kVerifyTargetHash ->
      target_hash p <> raw_hash [] ->
      completions s' = [kNewRootfsVerificationError] /\
      opened s' = opened s ++ [device])).
Proof.
  intros s p Hrun Hn Hz device s'.
  destruct (start_zero_size s p Hrun Hn Hz) as [Z1 [Z2 Z3]].
  fold device in Z1, Z2, Z3.
  destruct Hrun as [Hc [Hk Hp]].
  split.
  - intros Hd. subst s'. rewrite (Z1 Hd).
    unfold Cleanup, ActionComplete, SetOutputObject. simpl.
    rewrite Hk, Hp. simpl. auto.
  - intros Hd. split; [|split; [|split]].
    + destruct (FileStream_Open device) eqn:Eo.
      * subst s'. rewrite (Z3 Hd eq_refl).
        pose proof (later_call (opened_unread device s)
                      (FinishPartitionHashing (opened_unread device s))
                      (later_dispatch CFinishPartitionHashing _))
          as [_ [[l Hl] _]].
        exists l. rewrite Hl. simpl. rewrite <- app_assoc. reflexivity.
      * subst s'. rewrite (Z2 Hd eq_refl). exists [].
        unfold Cleanup, ActionComplete, SetOutputObject. simpl.
        rewrite Hk. reflexivity.
    + intros Ho. subst s'. rewrite (Z2 Hd Ho).
      unfold Cleanup, ActionComplete, SetOutputObject. simpl.
      rewrite Hk, Hp. reflexivity.
    + intros Ho Hfin Hhash. subst s'. rewrite (Z3 Hd Ho).
      unfold FinishPartitionHashing. simpl. rewrite Hfin, Hn. simpl.
      assert (F : forall s2 : State,
        closed_streams s2 =
          closed_streams s ++ [mkStream device [] None true] ->
        partition_index_ s2 = S (partition_index_ s) ->
        nth_error (closed_streams (call (Tail CStartPartitionHashing s2)))
          (List.length (closed_streams s)) =
          Some (mkStream device [] None true) /\
        (partition_index_ s <
         partition_index_ (call (Tail CStartPartitionHashing s2)))%nat).
      { intros s2 E2 E3.
        pose proof (later_call s2 (Tail CStartPartitionHashing s2)
                      (later_refl s2)) as [L1 [_ [[l L2] _]]].
        split; [|lia].
        rewrite L2, E2, <- app_assoc. simpl.
        rewrite nth_error_app2 by lia.
        rewrite Nat.sub_diag. reflexivity. }
      destruct (verifier_mode_ s) eqn:Em.
      * simpl. apply F; reflexivity.
      * destruct Hhash as [Hhash|Hhash]; [discriminate|].
        rewrite Hhash, PlanFacts.Blob_eqb_refl. simpl.
        apply F; reflexivity.
    + intros Ho Hfin Hm Hhash. subst s'. rewrite (Z3 Hd Ho).
      unfold FinishPartitionHashing. simpl. rewrite Hfin, Hn, Hm. simpl.
      assert (Hb : Blob_eqb (target_hash p) (raw_hash []) = false).
      { destruct (Blob_eqb (target_hash p) (raw_hash [])) eqn:E;
          [|reflexivity].
        apply PlanFacts.Blob_eqb_eq in E. contradiction. }
      rewrite Hb. simpl. rewrite call_Return.
      unfold Cleanup, ActionComplete, SetOutputObject. simpl.
      rewrite Hk, Hp. simpl. auto.
Qed.

(** *** The ledger of closed streams *)

Lemma ledger_ext s s' :
  verifier_mode_ s' = verifier_mode_ s ->
  install_plan_ s' = install_plan_ s ->
  closed_streams s' = closed_streams s ->
  partition_index_ s' = partition_index_ s ->
  ledger s -> ledger s'.
Proof.
  unfold ledger. intros -> -> -> ->. auto.
Qed.

Lemma ledger_Cleanup code s : ledger s -> ledger (Cleanup code s).
Proof.
  apply ledger_ext; unfold Cleanup, ActionComplete, SetOutputObject;
    break_all; reflexivity.
Qed.

Lemma accounted_Cleanup code s :
  ledger s -> accounted (Return (Cleanup code s)).
Proof.
  intros H. split.
  - apply ledger_Cleanup. exact H.
  - intros n Hn. rewrite pending_read_Cleanup in Hn. discriminate.
Qed.

Lemma sizes_ok_nth mode plan i p :
  sizes_ok mode plan -> nth_error (partitions plan) i = Some p ->
  0 <= mode_size mode p < 2 ^ 63.
Proof.
  unfold sizes_ok. intros H Hn. rewrite Forall_forall in H.
  apply H. apply (nth_error_In _ _ Hn).
Qed.

Lemma accounted_Start s :
  control (Tail CStartPartitionHashing s) ->
  accounted (Tail CStartPartitionHashing s) ->
  accounted (StartPartitionHashing s).
Proof.
  intros [_ Hi] L. simpl in L.
  unfold StartPartitionHashing.
  destruct (Nat.eqb _ _) eqn:E; [apply accounted_Cleanup; exact L|].
  destruct (nth_error _ _) as [p|] eqn:Hn;
    [|index_facts; lia].
  pose proof L as [Hsz _].
  pose proof (sizes_ok_nth _ _ _ _ Hsz Hn) as Hp.
  fold (mode_slot (verifier_mode_ s) (install_plan_ s)).
  fold (device_of (verifier_mode_ s) (install_plan_ s) p).
  set (device := device_of (verifier_mode_ s) (install_plan_ s) p).
  replace (match verifier_mode_ s with
           | kComputeSourceHash =>
             set_remaining_size_ (to_int64 (source_size p)) s
           | kVerifyTargetHash =>
             set_remaining_size_ (to_int64 (target_size p)) s
           end)
    with (set_remaining_size_ (mode_size (verifier_mode_ s) p) s)
    by (unfold mode_size in *; destruct (verifier_mode_ s);
        rewrite to_int64_small by lia; reflexivity).
  destruct (String.eqb device "");
    [apply accounted_Cleanup; revert L; apply ledger_ext; reflexivity|].
  destruct (FileStream_Open device); simpl negb; cbv iota;
    [|apply accounted_Cleanup; revert L; apply ledger_ext; reflexivity].
  simpl. split.
  - revert L. apply ledger_ext; reflexivity.
  - exists (mkStream device [] None false), p, []. simpl.
    unfold blen. simpl. repeat split; auto; lia.
Qed.

Lemma accounted_Schedule s :
  control (Tail CScheduleRead s) ->
  accounted (Tail CScheduleRead s) ->
  accounted (ScheduleRead s).
Proof.
  intros [_ [_ [_ [_ [_ Hb]]]]] [L F]. unfold ScheduleRead.
  destruct (_ =? 0) eqn:E; [split; assumption|].
  pose proof F as [st [p [fed [Est [Hn [Hpath [Hh [Hcons [Hrem Hle]]]]]]]]].
  rewrite Est.
  destruct (ReadAsync_ok _ _ _); [|apply accounted_Cleanup; exact L].
  split.
  - revert L. apply ledger_ext; reflexivity.
  - unfold pending_read. simpl. intros n Hpend. injection Hpend as <-.
    split.
    + exists (set_pending
                (Some (to_uint64
                         (Z.min (to_int64 (buffer_ s))
                            (remaining_size_ s)))) st), p, fed.
      simpl. repeat split; auto.
    + rewrite Hb. change (to_int64 kReadFileBufferSize) with 131072.
      change (blen []) with 0 in Hle.
      rewrite to_uint64_small by lia. lia.
Qed.

Lemma accounted_OnReadDone s data :
  control (Tail (COnReadDoneCallback data) s) ->
  accounted (Tail (COnReadDoneCallback data) s) ->
  accounted (OnReadDoneCallback s data).
Proof.
  intros [[_ [Hk _]] [_ [Hd _]]] [L F].
  pose proof F as [st [p [fed [Est [Hn [Hpath [Hh [Hcons [Hrem Hle]]]]]]]]].
  pose proof L as [Hsz _].
  pose proof (sizes_ok_nth _ _ _ _ Hsz Hn) as Hp.
  pose proof (blen_nonneg fed) as Hfed.
  pose proof (blen_nonneg data) as Hdata.
  unfold OnReadDoneCallback.
  destruct (blen data =? 0) eqn:Eb.
  - apply Z.eqb_eq, blen_nil_iff in Eb. subst data.
    simpl. rewrite Hk.
    destruct (remaining_size_ s =? 0) eqn:Er; simpl.
    + apply Z.eqb_eq in Er. split; [|split].
      * revert L. apply ledger_ext; reflexivity.
      * exists st, p, fed. simpl. repeat split; auto.
      * exact Er.
    + apply accounted_Cleanup. revert L. apply ledger_ext; reflexivity.
  - simpl. rewrite Hd, Hh.
    destruct (Update_ok fed data); simpl;
      [|apply accounted_Cleanup; revert L; apply ledger_ext; reflexivity].
    rewrite Hk, Hd. simpl.
    rewrite to_int64_small by lia.
    assert (F' : feeding
                   (set_hasher_ (Some (fed ++ data))
                      (set_remaining_size_ (remaining_size_ s - blen data)
                         s)) []).
    { exists st, p, (fed ++ data). simpl.
      rewrite app_nil_r, blen_app. change (blen []) with 0.
      repeat split; auto; lia. }
    destruct (remaining_size_ s - blen data =? 0) eqn:Er.
    + apply Z.eqb_eq in Er. split; [|split].
      * revert L. apply ledger_ext; reflexivity.
      * exact F'.
      * exact Er.
    + split.
      * revert L. apply ledger_ext; reflexivity.
      * exact F'.
Qed.

Lemma replace_nth_same i p ps :
  nth_error ps i = Some p -> replace_nth i p ps = ps.
Proof.
  revert i. induction ps as [|q ps IH]; intros [|i] H; simpl in *;
    try reflexivity; try discriminate.
  - congruence.
  - rewrite (IH i H). reflexivity.
Qed.

Lemma Forall_replace_nth (P : Partition -> Prop) i p ps :
  Forall P ps -> P p -> Forall P (replace_nth i p ps).
Proof.
  intros H Hp. revert i.
  induction H as [|q ps Hq H IH]; intros [|i]; simpl; auto.
Qed.

Lemma passed_slot mode plan plan' st p :
  mode_slot mode plan' = mode_slot mode plan ->
  passed mode plan st p -> passed mode plan' st p.
Proof.
  unfold passed, device_of. intros ->. auto.
Qed.

Lemma ledger_advance s s' st p p' :
  ledger s ->
  nth_error (partitions (install_plan_ s)) (partition_index_ s) = Some p ->
  mode_size (verifier_mode_ s) p' = mode_size (verifier_mode_ s) p ->
  passed (verifier_mode_ s) (install_plan_ s) st p' ->
  verifier_mode_ s' = verifier_mode_ s ->
  partitions (install_plan_ s') =
    replace_nth (partition_index_ s) p' (partitions (install_plan_ s)) ->
  mode_slot (verifier_mode_ s) (install_plan_ s') =
    mode_slot (verifier_mode_ s) (install_plan_ s) ->
  partition_index_ s' = S (partition_index_ s) ->
  closed_streams s' = closed_streams s ++ [st] ->
  ledger s'.
Proof.
  intros [Hsz [_ [Hlen Hall]]] Hn Hsize Hpass Em Ep Eslot Ei Ec.
  pose proof (todo_index_lt _ _ Hn) as Hlt.
  unfold ledger. rewrite Em, Ei, Ec.
  split; [|split; [|split]].
  - unfold sizes_ok in *. rewrite Ep.
    apply Forall_replace_nth; [exact Hsz|].
    rewrite Hsize. apply (sizes_ok_nth _ _ _ _ Hsz Hn).
  - rewrite Ep, replace_nth_length. lia.
  - rewrite length_app. simpl. lia.
  - intros j stj pj Hst Hpj. rewrite Ep in Hpj.
    apply (passed_slot _ (install_plan_ s)); [exact Eslot|].
    destruct (Nat.lt_trichotomy j (partition_index_ s)) as [Hj|[Hj|Hj]].
    + rewrite nth_error_app1 in Hst by lia.
      rewrite nth_error_replace_nth_other in Hpj by lia.
      apply (Hall j stj pj Hst Hpj).
    + subst j. rewrite nth_error_app2 in Hst by lia.
      rewrite Hlen, Nat.sub_diag in Hst. simpl in Hst.
      rewrite nth_error_replace_nth_same in Hpj by lia.
      congruence.
    + assert (Hnone : nth_error (closed_streams s ++ [st]) j = None).
      { apply nth_error_None. rewrite length_app. simpl. lia. }
      congruence.
Qed.

Lemma accounted_Finish s :
  control (Tail CFinishPartitionHashing s) ->
  accounted (Tail CFinishPartitionHashing s) ->
  accounted (FinishPartitionHashing s).
Proof.
  intros _ [L [F Hzero]].
  destruct F as [st [p [fed [Est [Hn [Hpath [Hh [Hcons [Hrem _]]]]]]]]].
  rewrite app_nil_r in Hcons.
  unfold FinishPartitionHashing. rewrite Hh.
  destruct (Finalize_ok fed); simpl negb; cbv iota;
    [|apply accounted_Cleanup; exact L].
  rewrite Hn.
  destruct (verifier_mode_ s) eqn:Em.
  - simpl. rewrite Est. simpl.
    apply (ledger_advance s _ (set_closed true st) p
             (set_source_hash (raw_hash fed) p) L Hn);
      simpl; rewrite ?Em; try reflexivity.
    unfold passed, device_of, mode_size, mode_slot in *. simpl.
    rewrite Hcons. repeat split; auto; lia.
  - destruct (Blob_eqb (target_hash p) (raw_hash fed)) eqn:Eh;
      simpl negb; cbv iota;
      [|apply accounted_Cleanup; exact L].
    apply PlanFacts.Blob_eqb_eq in Eh.
    simpl. rewrite Est. simpl.
    apply (ledger_advance s _ (set_closed true st) p p L Hn);
      simpl; rewrite ?Em; try reflexivity.
    + unfold passed, device_of, mode_size, mode_slot in *. simpl.
      rewrite Hcons. repeat split; auto; lia.
    + rewrite (replace_nth_same _ _ _ Hn). reflexivity.
Qed.

Lemma accounted_dispatch c s :
  control (Tail c s) /\ accounted (Tail c s) ->
  control (dispatch c s) /\ accounted (dispatch c s).
Proof.
  intros [C A]. split; [apply control_dispatch; exact C|].
  destruct c as [| |data|].
  - apply accounted_Start; assumption.
  - apply accounted_Schedule; assumption.
  - apply accounted_OnReadDone; assumption.
  - apply accounted_Finish; assumption.
Qed.

Lemma accounted_call o :
  control o -> accounted o -> accounted (Return (call o)).
Proof.
  intros C A.
  apply (call_rule (fun o => control o /\ accounted o) accounted_dispatch o).
  split; assumption.
Qed.

(** *** Verification runs keep the plan; success comes last *)

Lemma working_on_dispatch plan c s :
  working_on kVerifyTargetHash plan s ->
  working_on kVerifyTargetHash plan (outcome_state (dispatch c s)).
Proof.
  unfold working_on. intros [Hm Hp].
  destruct c as [| |data|];
    unfold dispatch, StartPartitionHashing, ScheduleRead,
      OnReadDoneCallback, FinishPartitionHashing;
    rewrite ?Hm;
    break_all; unfold Cleanup, ActionComplete, SetOutputObject, crash;
    break_all; auto; congruence.
Qed.

Lemma working_on_call plan o :
  working_on kVerifyTargetHash plan (outcome_state o) ->
  working_on kVerifyTargetHash plan (call o).
Proof.
  intros H.
  apply (call_rule
           (fun o => working_on kVerifyTargetHash plan (outcome_state o)));
    [|exact H].
  intros c s W. apply working_on_dispatch. exact W.
Qed.

Lemma success_dispatch c s :
  control (Tail c s) -> success_at_end (outcome_state (dispatch c s)).
Proof.
  destruct c as [| |data|];
    unfold control, hashing, running, dispatch, StartPartitionHashing,
      ScheduleRead, OnReadDoneCallback, FinishPartitionHashing;
    intros H; decompose [and] H; clear H;
    break_all; index_facts;
    unfold success_at_end, Cleanup, ActionComplete, SetOutputObject,
      crash in *;
    break_all;
    repeat match goal with
    | E : completions _ = [] |- _ => rewrite E; clear E
    end;
    simpl; intros G; try contradiction; try congruence;
    repeat (destruct G as [G|G]; try discriminate; try contradiction);
    auto.
Qed.

Lemma success_call o :
  control o -> success_at_end (outcome_state o) ->
  success_at_end (call o).
Proof.
  intros C S.
  apply (call_rule
           (fun o => control o /\ success_at_end (outcome_state o)));
    [|split; assumption].
  intros c s [C' _]. split.
  - apply control_dispatch. exact C'.
  - apply success_dispatch. exact C'.
Qed.

Lemma PerformAction_verify plan out_pipe :
  let s0 :=
    set_install_plan_ plan (init kVerifyTargetHash (Some plan) out_pipe) in
  PerformAction (init kVerifyTargetHash (Some plan) out_pipe) =
  if Nat.eqb (List.length (partitions plan)) 0 then
    ActionComplete kSuccess
      (if out_pipe then SetOutputObject plan s0 else s0)
  else call (StartPartitionHashing s0).
Proof.
  unfold PerformAction. simpl.
  rewrite andb_false_r. simpl.
  destruct (Nat.eqb _ _); destruct out_pipe; reflexivity.
Qed.

Lemma verifying_PerformAction plan out_pipe :
  sizes_ok kVerifyTargetHash plan ->
  verifying plan
    (PerformAction (init kVerifyTargetHash (Some plan) out_pipe)).
Proof.
  intros Hsz. split; [apply settled_PerformAction|].
  rewrite PerformAction_verify.
  set (s0 := set_install_plan_ plan _).
  assert (L0 : ledger s0).
  { split; [exact Hsz|]. split; [simpl; lia|]. split; [reflexivity|].
    intros [|j] st p H; discriminate H. }
  destruct (Nat.eqb _ _) eqn:E.
  - apply Nat.eqb_eq in E. split; [|split].
    + split.
      * revert L0. apply ledger_ext; destruct out_pipe; reflexivity.
      * intros n Hn. destruct out_pipe; discriminate Hn.
    + destruct out_pipe; split; reflexivity.
    + intros _. destruct out_pipe; simpl; auto.
  - assert (C0 : control (StartPartitionHashing s0)).
    { apply (control_dispatch CStartPartitionHashing). simpl.
      unfold running. simpl. repeat split; auto. lia. }
    split; [|split].
    + apply accounted_call; [exact C0|].
      apply accounted_Start; [|exact L0].
      simpl. unfold running. simpl. repeat split; auto. lia.
    + apply working_on_call.
      apply (working_on_dispatch plan CStartPartitionHashing s0).
      split; reflexivity.
    + apply success_call; [exact C0|].
      apply (success_dispatch CStartPartitionHashing s0).
      simpl. unfold running. simpl. repeat split; auto. lia.
Qed.

Lemma verifying_deliver plan s e s' :
  verifying plan s -> deliver s e = Some s' -> verifying plan s'.
Proof.
  intros [Hset [[L P] [W S]]] H.
  split; [apply (settled_deliver s e s' Hset H)|].
  destruct Hset as [Hc Hs]. unfold deliver in H. rewrite Hc in H.
  unfold pending_read in Hs, P.
  destruct e as [data| |].
  - destruct (src_stream_ s) as [st|] eqn:Est; [|discriminate].
    destruct (pending st) as [n|] eqn:En; [|discriminate].
    destruct (blen data <=? n) eqn:Eb; [|discriminate].
    apply Z.leb_le in Eb. injection H as <-.
    set (s1 := set_src_stream_ (Some (stream_deliver data st)) s).
    assert (C1 : control (Tail (COnReadDoneCallback data) s1)).
    { simpl. unfold hashing, running in *. simpl.
      decompose [and] Hs. repeat split; auto. discriminate. }
    assert (A1 : accounted (Tail (COnReadDoneCallback data) s1)).
    { split; [revert L; apply ledger_ext; reflexivity|].
      destruct (P n eq_refl)
        as [[st0 [p [fed [E0 [Hn [Hpath [Hh [Hcons [Hrem _]]]]]]]]] Hle].
      rewrite Est in E0. injection E0 as <-.
      exists (stream_deliver data st), p, fed. simpl.
      rewrite Hcons, app_nil_r. repeat split; auto. lia. }
    pose proof (control_dispatch _ _ C1) as C2.
    split; [|split].
    + apply accounted_call; [exact C2|].
      apply accounted_OnReadDone; assumption.
    + apply working_on_call.
      apply (working_on_dispatch plan (COnReadDoneCallback data) s1).
      exact W.
    + apply success_call; [exact C2|].
      apply (success_dispatch _ _ C1).
  - destruct (src_stream_ s) as [st|] eqn:Est; [|discriminate].
    destruct (pending st) as [n|] eqn:En; [|discriminate].
    injection H as <-.
    destruct Hs as [[_ [Hk Hp]] _].
    unfold OnReadErrorCallback. split; [|split].
    + apply accounted_Cleanup. revert L. apply ledger_ext; reflexivity.
    + destruct W as [Wm Wp]. unfold Cleanup, ActionComplete,
        SetOutputObject, working_on.
      break_all; auto.
    + unfold success_at_end. rewrite completions_Cleanup by exact Hk.
      simpl. rewrite Hp. simpl. intros [G|[]]. discriminate G.
  - destruct (completions s) as [|c cs] eqn:Ec; [|discriminate].
    injection H as <-. unfold TerminateProcessing. split; [|split].
    + apply accounted_Cleanup. revert L. apply ledger_ext; reflexivity.
    + destruct W as [Wm Wp]. unfold Cleanup, working_on. simpl. auto.
    + unfold success_at_end, Cleanup. simpl. rewrite Ec.
      intros G. contradiction.
Qed.

Lemma reachable_verifying plan out_pipe s :
  sizes_ok kVerifyTargetHash plan ->
  reachable kVerifyTargetHash (Some plan) out_pipe s ->
  verifying plan s.
Proof.
  intros Hsz R. induction R as [|s e s' _ IH H].
  - apply verifying_PerformAction. exact Hsz.
  - apply (verifying_deliver plan s e s' IH H).
Qed.

(** *** The verdict of [FinishPartitionHashing] when verifying *)

Lemma finish_decides s fed p st :
  verifier_mode_ s = kVerifyTargetHash ->
  cancelled_ s = false ->
  hasher_ s = Some fed ->
  src_stream_ s = Some st ->
  nth_error (partitions (install_plan_ s)) (partition_index_ s) = Some p ->
  Finalize_ok fed = true ->
  let s' := call (FinishPartitionHashing s) in
  (raw_hash fed = target_hash p ->
   (partition_index_ s < partition_index_ s')%nat) /\
  (raw_hash fed <> target_hash p ->
   completions s' = completions s ++ [kNewRootfsVerificationError] /\
   partition_index_ s' = partition_index_ s).
Proof.
  intros Hm Hk Hh Hs Hn Hf s'. subst s'.
  unfold FinishPartitionHashing. rewrite Hh, Hf, Hn, Hm. simpl negb.
  cbv iota. split.
  - intros Heq. rewrite <- Heq, PlanFacts.Blob_eqb_refl. simpl.
    rewrite Hs.
    match goal with
    | |- (_ < partition_index_ (call (Tail ?c ?s1)))%nat =>
      pose proof (later_call s1 (Tail c s1) (later_refl s1)) as [L _]
    end.
    simpl in L. lia.
  - intros Hne.
    assert (Hb : Blob_eqb (target_hash p) (raw_hash fed) = false).
    { destruct (Blob_eqb (target_hash p) (raw_hash fed)) eqn:E;
        [|reflexivity].
      apply PlanFacts.Blob_eqb_eq in E. congruence. }
    rewrite Hb. simpl. rewrite call_Return.
    rewrite completions_Cleanup by exact Hk.
    split; [reflexivity|].
    unfold Cleanup, ActionComplete, SetOutputObject. break_all; reflexivity.
Qed.

(** [StartPartitionHashing] past the last partition reports success. *)
Lemma start_at_end s :
  partition_index_ s = List.length (partitions (install_plan_ s)) ->
  call (StartPartitionHashing s) = Cleanup kSuccess s.
Proof.
  intros H. unfold StartPartitionHashing. rewrite H, Nat.eqb_refl.
  apply call_Return.
Qed.

Lemma finish_advances s fed p st :
  verifier_mode_ s = kVerifyTargetHash ->
  hasher_ s = Some fed ->
  src_stream_ s = Some st ->
  nth_error (partitions (install_plan_ s)) (partition_index_ s) = Some p ->
  Finalize_ok fed = true ->
  raw_hash fed = target_hash p ->
  call (FinishPartitionHashing s) =
  call (StartPartitionHashing (moved_on st s)).
Proof.
  intros Hm Hh Hs Hn Hf Heq.
  unfold FinishPartitionHashing. rewrite Hh, Hf, Hn, Hm. simpl negb.
  cbv iota. rewrite <- Heq, PlanFacts.Blob_eqb_refl. simpl negb.
  cbv iota beta zeta. simpl src_stream_. rewrite Hs.
  rewrite call_Tail. reflexivity.
Qed.

Lemma partition_index_Cleanup code s :
  partition_index_ (Cleanup code s) = partition_index_ s.
Proof.
  unfold Cleanup, ActionComplete, SetOutputObject. simpl.
  destruct (cancelled_ s); [reflexivity|].
  destruct (ErrorCode_eqb code kSuccess && has_output_pipe s); reflexivity.
Qed.

(** C1: a run in [kVerifyTargetHash] mode on a plan whose target sizes
    are byte counts.  In every state of the run, each partition the
    action has passed is accounted for by a stream that was opened on
    the device of the partition in the target slot, has delivered
    exactly [target_size] bytes, and whose bytes hash to [target_hash];
    [kSuccess] is reported only when all partitions are passed.  And
    when the answer to a read completes the [target_size] bytes of the
    partition in progress (the hasher taking the bytes and finalizing),
    the action moves past the partition if and only if the hash of the
    bytes read from the device equals [target_hash]; on a mismatch it
    reports [kNewRootfsVerificationError].  On a match it closes the
    stream, puts it on record with the bytes read, and enters
    [StartPartitionHashing] for the next partition with nothing
    reported; when the partition was the last one, it reports
    [kSuccess], and only that. *)
Theorem target_hash_verification :
  forall plan out_pipe s,
    sizes_ok kVerifyTargetHash plan ->
    reachable kVerifyTargetHash (Some plan) out_pipe s ->
    (forall j, (j < partition_index_ s)%nat ->
       exists st p,
         nth_error (closed_streams s) j = Some st /\
         nth_error (partitions plan) j = Some p /\
         stream_path st = device_of kVerifyTargetHash plan p /\
         blen (consumed st) = target_size p /\
         raw_hash (consumed st) = target_hash p) /\
    (In kSuccess (completions s) ->
     partition_index_ s = List.length (partitions plan)) /\
    (forall st n p data s',
       src_stream_ s = Some st -> pending st = Some n ->
       nth_error (partitions plan) (partition_index_ s) = Some p ->
       deliver s (EvReadDone data) = Some s' ->
       blen (consumed st ++ data) = target_size p ->
       (data <> [] -> Update_ok (consumed st) data = true) ->
       Finalize_ok (consumed st ++ data) = true ->
       stream_path st = device_of kVerifyTargetHash plan p /\
       ((partition_index_ s < partition_index_ s')%nat <->
        raw_hash (consumed st ++ data) = target_hash p) /\
       (raw_hash (consumed st ++ data) <> target_hash p ->
        completions s' = [kNewRootfsVerificationError]) /\
       (raw_hash (consumed st ++ data) = target_hash p ->
        exists s3,
          s' = call (StartPartitionHashing s3) /\
          partition_index_ s3 = S (partition_index_ s) /\
          install_plan_ s3 = plan /\
          verifier_mode_ s3 = kVerifyTargetHash /\
          cancelled_ s3 = false /\ completions s3 = [] /\
          opened s3 = opened s /\
          closed_streams s3 =
            closed_streams s ++
            [mkStream (stream_path st) (consumed st ++ data) None true]) /\
       (raw_hash (consumed st ++ data) = target_hash p ->
        S (partition_index_ s) = List.length (partitions plan) ->
        completions s' = [kSuccess] /\ pending_read s' = None /\
        partition_index_ s' = List.length (partitions plan))).
Proof.
  intros plan out_pipe s Hsz R.
  pose proof (reachable_verifying plan out_pipe s Hsz R)
    as [[Hc Hs] [[L P] [[Wm Wp] S]]].
  destruct L as [_ [Hi [Hlen Hall]]]. rewrite Wm, Wp in *.
  split; [|split].
  - intros j Hj.
    destruct (nth_error (closed_streams s) j) as [st|] eqn:Est;
      [|apply nth_error_None in Est; lia].
    destruct (nth_error (partitions plan) j) as [p|] eqn:Ep;
      [|apply nth_error_None in Ep; lia].
    exists st, p. destruct (Hall j st p Est Ep) as [H1 [H2 H3]]. auto.
  - unfold success_at_end in S. rewrite Wp in S. exact S.
  - intros st n p data s' Est En Hn H Hlen' Hu Hf.
    unfold pending_read in Hs, P. rewrite Est, En in Hs.
    destruct (P n ltac:(rewrite Est; exact En))
      as [[st0 [p0 [fed [E0 [Hn0 [Hpath [Hh [Hcons [Hrem _]]]]]]]]] _].
    rewrite Wm, Wp in *. rewrite Est in E0. injection E0 as <-.
    rewrite Hn in Hn0. injection Hn0 as <-.
    rewrite app_nil_r in Hcons. subst fed.
    destruct Hs as [[_ [Hk Hp]] [_ [Hd _]]].
    split; [exact Hpath|].
    unfold deliver in H. rewrite Hc, Est, En in H.
    destruct (blen data <=? n); [|discriminate]. injection H as <-.
    set (s1 := set_src_stream_ (Some (stream_deliver data st)) s).
    assert (Hrem0 : remaining_size_ s - blen data = 0).
    { rewrite blen_app in Hlen'. unfold mode_size in Hrem. lia. }
    assert (E : exists s2,
      call (OnReadDoneCallback s1 data) = call (FinishPartitionHashing s2)
      /\ verifier_mode_ s2 = kVerifyTargetHash
      /\ cancelled_ s2 = false
      /\ hasher_ s2 = Some (consumed st ++ data)
      /\ src_stream_ s2 = Some (stream_deliver data st)
      /\ install_plan_ s2 = plan
      /\ partition_index_ s2 = partition_index_ s
      /\ completions s2 = []
      /\ opened s2 = opened s
      /\ closed_streams s2 = closed_streams s).
    { unfold OnReadDoneCallback.
      destruct (blen data =? 0) eqn:Eb.
      - apply Z.eqb_eq in Eb. pose proof Eb as Hnil.
        apply blen_nil_iff in Hnil. subst data.
        exists (set_read_done_ true s1). simpl. rewrite Hk.
        replace (remaining_size_ s =? 0) with true
          by (symmetry; apply Z.eqb_eq; change (blen []) with 0 in Hrem0;
              lia).
        simpl. rewrite call_Tail, app_nil_r. repeat split; auto.
      - assert (Hne : data <> []).
        { intros ->. discriminate Eb. }
        exists (set_hasher_ (Some (consumed st ++ data))
                  (set_remaining_size_
                     (to_int64 (remaining_size_ s - blen data)) s1)).
        simpl. rewrite Hd, Hh, (Hu Hne). simpl. rewrite Hk, Hd, Hrem0.
        simpl. rewrite call_Tail. repeat split; auto. }
    destruct E
      as [s2 [Ecall [Em2 [Ek2 [Eh2 [Es2 [Ep2 [Ei2 [Ec2 [Eo2 Ecl2]]]]]]]]]].
    rewrite Ecall.
    assert (Hn2 : nth_error (partitions (install_plan_ s2))
                    (partition_index_ s2) = Some p)
      by (rewrite Ep2, Ei2; exact Hn).
    destruct (finish_decides s2 _ p _ Em2 Ek2 Eh2 Es2 Hn2 Hf) as [D1 D2].
    pose proof (finish_advances s2 _ p _ Em2 Eh2 Es2 Hn2 Hf) as D3.
    set (s3 := moved_on (stream_deliver data st) s2) in D3.
    rewrite Ei2, Ec2 in *.
    split; [|split; [|split]].
    + split; [|exact D1].
      intros Hlt.
      destruct (Blob_eqb (raw_hash (consumed st ++ data)) (target_hash p))
        eqn:Eq.
      * apply PlanFacts.Blob_eqb_eq in Eq. exact Eq.
      * assert (Hne : raw_hash (consumed st ++ data) <> target_hash p).
        { intros Heq. apply PlanFacts.Blob_eqb_eq in Heq. congruence. }
        destruct (D2 Hne) as [_ Hsame]. lia.
    + intros Hne. destruct (D2 Hne) as [Hcomp _]. exact Hcomp.
    + intros Heq. exists s3.
      split; [exact (D3 Heq)|].
      subst s3. unfold moved_on. simpl.
      rewrite Ei2, Ep2, Em2, Ek2, Ec2, Eo2, Ecl2. repeat split.
    + intros Heq Hlast. rewrite (D3 Heq).
      assert (Hend : partition_index_ s3 =
                     List.length (partitions (install_plan_ s3))).
      { subst s3. unfold moved_on. simpl. rewrite Ei2, Ep2. exact Hlast. }
      rewrite (start_at_end s3 Hend).
      rewrite completions_Cleanup, pending_read_Cleanup,
        partition_index_Cleanup by (subst s3; exact Ek2).
      rewrite Hend.
      subst s3. unfold moved_on. simpl. rewrite Ec2, Ep2.
      repeat split.
Qed.

End ActionFacts.

Section ExampleRuns.

Import VerifierExample.

#[local] Existing Instance example_boot_control.
#[local] Existing Instance example_hash_calculator.
#[local] Existing Instance example_platform.

Lemma one_completion_unless_cancelled_witness :
  let s0 := PerformAction (init kVerifyTargetHash (Some plan_one) true) in
  let s := deliver_all s0 [EvReadDone [x01; x02]] in
  pending_read s0 = Some 2 /\ completions s0 = [] /\
  cancelled_ s = false /\ pending_read s = None /\
  completions s = [kSuccess] /\
  exists code, completions s = [code].
Proof.
  intros s0 s.
  destruct (one_completion_unless_cancelled kVerifyTargetHash
              (Some plan_one) true [EvReadDone [x01; x02]])
    as [_ [_ [H _]]].
  fold s0 in H. fold s in H.
  assert (Hk : cancelled_ s = false) by (vm_compute; reflexivity).
  assert (Hp : pending_read s = None) by (vm_compute; reflexivity).
  specialize (H Hk). rewrite Hp in H.
  split; [vm_compute; reflexivity|].
  split; [vm_compute; reflexivity|].
  split; [exact Hk|]. split; [exact Hp|].
  split; [vm_compute; reflexivity|exact H].
Defined.

(** C3 as stated fails: [TerminateProcessing] arrives while the first
    read of the only partition is scheduled; the action then has no
    stream, has reported nothing, and reports nothing whatever events
    follow. *)
Lemma cancelled_action_never_completes :
  let s1 := PerformAction (init kVerifyTargetHash (Some plan_one) true) in
  let s2 := deliver_all s1 [EvTerminateProcessing] in
  reachable kVerifyTargetHash (Some plan_one) true s2 /\
  pending_read s1 = Some 2 /\
  cancelled_ s2 = true /\
  pending_read s2 = None /\
  completions s2 = [] /\
  forall es, completions (deliver_all s2 es) = [].
Proof.
  intros s1 s2.
  assert (R : reachable kVerifyTargetHash (Some plan_one) true s2).
  { apply (reach_deliver _ _ _ s1 EvTerminateProcessing).
    - apply reach_perform.
    - reflexivity. }
  split; [exact R|].
  split; [reflexivity|]. split; [reflexivity|].
  split; [reflexivity|]. split; [reflexivity|].
  intros es. generalize s2 R (eq_refl : cancelled_ s2 = true).
  induction es as [|e es IH]; intros s Rs Hk; simpl.
  - apply (settled_cancelled s (reachable_settled _ _ _ _ Rs) Hk).
  - destruct (deliver s e) as [s'|] eqn:E.
    + apply IH.
      * apply (reach_deliver _ _ _ s e); assumption.
      * destruct (settled_cancelled s (reachable_settled _ _ _ _ Rs) Hk)
          as [_ [_ H]].
        apply (H e s' E).
    + apply IH; assumption.
Qed.

Lemma read_loop_ends_witness :
  let s := PerformAction (init kVerifyTargetHash (Some plan_one) true) in
  let st := mkStream "/dev/boot" [] (Some 2) false in
  let data : list byte := [] in
  let s' := deliver_all s [EvReadDone data] in
  let remaining := to_int64 (remaining_size_ s - blen data) in
  (data = [] \/ remaining = 0 ->
   pending_read s' = None \/
   (partition_index_ s < partition_index_ s')%nat) /\
  (forall fed,
     data <> [] -> remaining <> 0 -> hasher_ s = Some fed ->
     Update_ok fed data = true ->
     let bytes_to_read :=
       to_uint64 (Z.min kReadFileBufferSize remaining) in
     ReadAsync_ok (stream_path st) (consumed st ++ data) bytes_to_read
       = true ->
     pending_read s' = Some bytes_to_read /\
     partition_index_ s' = partition_index_ s /\
     remaining_size_ s' = remaining /\
     completions s' = []) /\
  (data = [] -> remaining_size_ s <> 0 ->
   completions s' = [kFilesystemVerifierError] /\
   pending_read s' = None).
Proof.
  intros s st data s'.
  apply (read_loop_ends kVerifyTargetHash (Some plan_one) true s st 2
           data s').
  - apply reach_perform.
  - reflexivity.
  - reflexivity.
  - reflexivity.
Defined.

Lemma legacy_partitions_before_hashing_witness :
  let s0 := init kComputeSourceHash (Some plan_legacy) true in
  PerformAction s0 =
  call (StartPartitionHashing
          (set_install_plan_
             (set_partitions
                [mkPartition "root" "" 8 [] "" 0 [] false;
                 mkPartition "kernel" "" 3 [] "" 0 [] false]
                plan_legacy) s0)).
Proof.
  intros s0.
  destruct (legacy_partitions_before_hashing plan_legacy true
              eq_refl eq_refl) as [H _].
  apply (H "/dev/root" "/dev/kernel" 4 2);
    try reflexivity; simpl; lia.
Defined.

(** C9 as stated fails: the only partition has zero bytes, and the
    action opens its device; where the device does not open the action
    reports [kFilesystemVerifierError], not [kSuccess]. *)
Lemma zero_size_partition_device_is_opened :
  let s0 := init kVerifyTargetHash (Some plan_empty_partition) true in
  opened (PerformAction s0) = ["/dev/boot"] /\
  completions (PerformAction (platform := closed_platform) s0) =
    [kFilesystemVerifierError].
Proof. split; reflexivity. Qed.

Lemma zero_size_partition_opened_not_read_witness :
  let s :=
    set_install_plan_ plan_empty_partition
      (init kVerifyTargetHash (Some plan_empty_partition) true) in
  let s' := call (StartPartitionHashing s) in
  nth_error (closed_streams s') 0 = Some (mkStream "/dev/boot" [] None true)
  /\ (0 < partition_index_ s')%nat.
Proof.
  intros s s'.
  destruct (zero_size_partition_opened_not_read s empty_partition)
    as [_ H].
  - repeat split.
  - reflexivity.
  - reflexivity.
  - destruct H as [_ [_ [H _]]].
    + discriminate.
    + apply H.
      * reflexivity.
      * reflexivity.
      * right. reflexivity.
Defined.

Lemma target_hash_verification_witness :
  let s := PerformAction (init kVerifyTargetHash (Some plan_one) true) in
  let s' := deliver_all s [EvReadDone [x01; x02]] in
  ((partition_index_ s < partition_index_ s')%nat <->
   raw_hash ([] ++ [x01; x02]) = target_hash boot_partition) /\
  (raw_hash ([] ++ [x01; x02]) <> target_hash boot_partition ->
   completions s' = [kNewRootfsVerificationError]) /\
  completions s' = [kSuccess] /\ pending_read s' = None /\
  partition_index_ s' = List.length (partitions plan_one).
Proof.
  assert (Hsz : sizes_ok kVerifyTargetHash plan_one).
  { apply Forall_cons; [|apply Forall_nil].
    unfold mode_size, boot_partition, target_size. lia. }
  intros s s'.
  destruct (target_hash_verification plan_one true s Hsz
              (reach_perform _ _ _)) as [_ [_ H]].
  destruct (H (mkStream "/dev/boot" [] (Some 2) false) 2 boot_partition
              [x01; x02] s') as [_ [H1 [H2 [_ H3]]]].
  - vm_compute; reflexivity.
  - vm_compute; reflexivity.
  - vm_compute; reflexivity.
  - vm_compute; reflexivity.
  - vm_compute; reflexivity.
  - vm_compute; reflexivity.
  - vm_compute; reflexivity.
  - split; [exact H1|]. split; [exact H2|].
    apply H3; vm_compute; reflexivity.
Defined.

End ExampleRuns.

End VerifierFacts.

(** *** Invariants of runs, in both modes *)

Module VerifierRunFacts.
Import Plan Verifier VerifierRuns VerifierFacts.

#[local] Arguments to_uint64 : simpl never.
#[local] Arguments to_int64 : simpl never.
#[local] Arguments Z.min : simpl never.
#[local] Arguments Z.sub : simpl never.
#[local] Arguments String.eqb : simpl never.
#[local] Arguments Z.ltb : simpl never.
#[local] Arguments Z.leb : simpl never.

Section RunFacts.

Context {boot_control_ : BootControlInterface}.
Context {hash_calculator : OmahaHashCalculator}.
Context {platform : Platform}.

(** *** Invariants of a run *)

Section Invariant.

(** A property of states that every member function keeps. *)
Variable Inv : State -> Prop.

Hypothesis Inv_dispatch : forall c s,
  control (Tail c s) -> Inv s -> Inv (outcome_state (dispatch c s)).

Hypothesis Inv_stream : forall st s, Inv s -> Inv (set_src_stream_ st s).

Hypothesis Inv_error : forall s, running s -> Inv s -> Inv (Cleanup kError s).

Hypothesis Inv_terminate : forall s,
  completions s = [] -> Inv s -> Inv (TerminateProcessing s).

Lemma Inv_call o : control o -> Inv (outcome_state o) -> Inv (call o).
Proof.
  intros C I.
  apply (call_rule (fun o => control o /\ Inv (outcome_state o)));
    [|split; assumption].
  intros c s [C' I']. split.
  - apply control_dispatch. exact C'.
  - apply Inv_dispatch; assumption.
Qed.

Lemma Inv_deliver s e s' :
  settled s -> Inv s -> deliver s e = Some s' -> Inv s'.
Proof.
  unfold deliver. intros [Hc Hs] I H.
  rewrite Hc in H. unfold pending_read in Hs.
  destruct e as [data| |].
  - destruct (src_stream_ s) as [st|] eqn:Est; [|discriminate].
    destruct (pending st) as [n|] eqn:En; [|discriminate].
    destruct (blen data <=? n); [|discriminate].
    injection H as <-.
    set (s1 := set_src_stream_ (Some (stream_deliver data st)) s).
    assert (C1 : control (Tail (COnReadDoneCallback data) s1)).
    { simpl. unfold hashing, running in *. simpl.
      decompose [and] Hs. repeat split; auto. discriminate. }
    apply (Inv_call (dispatch (COnReadDoneCallback data) s1)).
    + apply control_dispatch. exact C1.
    + apply Inv_dispatch; [exact C1|]. apply Inv_stream. exact I.
  - destruct (src_stream_ s) as [st|] eqn:Est; [|discriminate].
    destruct (pending st) as [n|] eqn:En; [|discriminate].
    injection H as <-.
    destruct Hs as [R _].
    unfold OnReadErrorCallback. apply Inv_error.
    + unfold running in *. simpl. exact R.
    + apply Inv_stream. exact I.
  - destruct (completions s) as [|c cs] eqn:Ec; [|discriminate].
    injection H as <-. apply Inv_terminate; assumption.
Qed.

Lemma Inv_reachable mode input out_pipe s :
  Inv (PerformAction (init mode input out_pipe)) ->
  reachable mode input out_pipe s -> Inv s.
Proof.
  intros I0 R. induction R as [|s e s' R IH H].
  - exact I0.
  - apply (Inv_deliver s e s'); [|exact IH|exact H].
    apply (reachable_settled mode input out_pipe). exact R.
Qed.

End Invariant.

(** *** The output pipe *)

Lemma output_Cleanup out_pipe code s :
  completions s = [] -> output_rule out_pipe s ->
  output_rule out_pipe (Cleanup code s).
Proof.
  unfold output_rule, Cleanup, ActionComplete, SetOutputObject.
  intros Hp [Ho Hn]. rewrite Hp in Hn. rewrite andb_false_r in Hn.
  destruct (cancelled_ s) eqn:Ek; simpl; rewrite ?Ek; simpl.
  - rewrite Hp, andb_false_r. auto.
  - rewrite Ho.
    destruct code; simpl; destruct out_pipe; simpl; rewrite ?Hp; simpl;
      rewrite ?Hn; auto.
Qed.

Lemma output_dispatch out_pipe c s :
  control (Tail c s) -> output_rule out_pipe s ->
  output_rule out_pipe (outcome_state (dispatch c s)).
Proof.
  intros C O.
  assert (Hp : completions s = []).
  { destruct c; simpl in C; unfold hashing, running in C;
      decompose [and] C; assumption. }
  assert (Quiet : forall s',
    has_output_pipe s' = has_output_pipe s ->
    output_object s' = output_object s ->
    completions s' = [] -> output_rule out_pipe s').
  { intros s' E1 E2 E3. destruct O as [Ho Hn].
    unfold output_rule. rewrite E1, E2, E3, Hn, Hp, !andb_false_r.
    auto. }
  destruct c as [| |data|];
    unfold dispatch, StartPartitionHashing, ScheduleRead,
      OnReadDoneCallback, FinishPartitionHashing;
    break_all;
    repeat first
      [ exact O
      | apply output_Cleanup; [simpl; exact Hp|]
      | apply Quiet; [reflexivity|reflexivity|simpl; exact Hp] ].
Qed.

Lemma legacy_partitions_output s s' b :
  PerformAction_legacy_partitions s = (s', b) ->
  has_output_pipe s' = has_output_pipe s /\
  output_object s' = output_object s /\
  completions s' = completions s.
Proof.
  unfold PerformAction_legacy_partitions. intros H. break_all; auto.
Qed.

Lemma output_PerformAction mode input out_pipe :
  output_rule out_pipe (PerformAction (init mode input out_pipe)).
Proof.
  unfold PerformAction.
  destruct input as [plan|].
  - simpl input_object. cbv iota beta.
    set (s0 := set_install_plan_ plan (init mode (Some plan) out_pipe)).
    assert (R0 : running s0) by (repeat split; reflexivity).
    assert (I0 : partition_index_ s0 = 0%nat) by reflexivity.
    assert (P0 : has_output_pipe s0 = out_pipe) by reflexivity.
    assert (O0 : output_object s0 = None) by reflexivity.
    assert (G : forall s b,
      running s -> partition_index_ s = 0%nat ->
      has_output_pipe s = out_pipe -> output_object s = None ->
      output_rule out_pipe
        (let '(s1, completer) :=
           if negb b then (s, mkCompleter kError true)
           else if Nat.eqb (List.length (partitions (install_plan_ s))) 0
           then
             (if has_output_pipe s then SetOutputObject (install_plan_ s) s
              else s,
              mkCompleter kSuccess true)
           else (call (StartPartitionHashing s), mkCompleter kError false) in
         ScopedActionCompleter_exit completer s1)).
    { intros s b [Rc [Rk Rp]] I P O.
      assert (Os : output_rule out_pipe s).
      { unfold output_rule. rewrite P, O, Rp, andb_false_r. auto. }
      destruct b; simpl negb; cbv iota.
      - destruct (Nat.eqb _ _).
        + unfold ScopedActionCompleter_exit, output_rule, ActionComplete,
            SetOutputObject.
          simpl. rewrite !P.
          destruct out_pipe; simpl; rewrite ?P, ?Rp; simpl; auto.
        + unfold ScopedActionCompleter_exit. simpl.
          apply (Inv_call (output_rule out_pipe) (output_dispatch out_pipe)
                   (dispatch CStartPartitionHashing s)).
          * apply control_dispatch. simpl. unfold running.
            repeat split; auto. lia.
          * apply output_dispatch; [|exact Os].
            simpl. unfold running. repeat split; auto. lia.
      - unfold ScopedActionCompleter_exit, output_rule, ActionComplete.
        simpl. rewrite P, O, Rp. simpl. rewrite andb_false_r. auto. }
    destruct (negb (is_full_update (install_plan_ s0)) &&
              Nat.eqb (List.length (partitions (install_plan_ s0))) 0 &&
              match verifier_mode_ s0 with
              | kComputeSourceHash => true
              | kVerifyTargetHash => false
              end).
    + destruct (PerformAction_legacy_partitions s0) as [s1 b] eqn:E.
      destruct (legacy_partitions_running _ _ _ E R0 eq_refl)
        as [R1 [_ [I1 _]]].
      destruct (legacy_partitions_output _ _ _ E) as [P1 [O1 _]].
      apply (G s1 b R1); congruence.
    + apply (G s0 true R0 I0 P0 O0).
  - unfold ScopedActionCompleter_exit, output_rule, ActionComplete.
    simpl. rewrite andb_false_r. auto.
Qed.

Lemma reachable_output_rule mode input out_pipe s :
  reachable mode input out_pipe s -> output_rule out_pipe s.
Proof.
  apply (Inv_reachable (output_rule out_pipe) (output_dispatch out_pipe)).
  - intros st s0 O. exact O.
  - intros s0 [_ [_ Hp]] O. apply output_Cleanup; assumption.
  - intros s0 Hp O. unfold TerminateProcessing.
    apply output_Cleanup; [exact Hp|exact O].
  - apply output_PerformAction.
Qed.


(** *** Source hashes *)

Lemma hashes_ext plan s s' :
  install_plan_ s' = install_plan_ s ->
  partition_index_ s' = partition_index_ s ->
  hashes_recorded plan s -> hashes_recorded plan s'.
Proof. unfold hashes_recorded. intros -> ->. auto. Qed.

Lemma hashes_advance plan s s' fed partition :
  hashes_recorded plan s ->
  nth_error (partitions (install_plan_ s)) (partition_index_ s) =
    Some partition ->
  install_plan_ s' =
    set_partitions
      (replace_nth (partition_index_ s)
         (set_source_hash (raw_hash fed) partition)
         (partitions (install_plan_ s)))
      (install_plan_ s) ->
  partition_index_ s' = S (partition_index_ s) ->
  hashes_recorded plan s'.
Proof.
  intros [Hplan [Hlen Hnth]] Hp Ep Ei.
  pose proof (todo_index_lt _ _ Hp) as Hlt.
  unfold hashes_recorded. rewrite Ep, Ei. simpl.
  set (ps := replace_nth _ _ _).
  split; [clearbody ps; rewrite Hplan; reflexivity|]. subst ps.
  split; [rewrite replace_nth_length; exact Hlen|].
  intros j p Hj. destruct (Hnth j p Hj) as [h [Hh Hfix]].
  destruct (Nat.eq_dec (partition_index_ s) j) as [<-|Ne].
  - exists (raw_hash fed). split; [|lia].
    rewrite nth_error_replace_nth_same by exact Hlt.
    rewrite Hp in Hh. injection Hh as ->. reflexivity.
  - exists h. rewrite nth_error_replace_nth_other by exact Ne.
    split; [exact Hh|]. intros Hle. apply Hfix. lia.
Qed.

Lemma computing_keep plan s s' :
  verifier_mode_ s = kComputeSourceHash /\ hashes_recorded plan s ->
  verifier_mode_ s' = verifier_mode_ s ->
  install_plan_ s' = install_plan_ s ->
  partition_index_ s' = partition_index_ s ->
  verifier_mode_ s' = kComputeSourceHash /\ hashes_recorded plan s'.
Proof.
  intros [Hm H] E1 E2 E3. split; [congruence|].
  apply (hashes_ext plan s s' E2 E3 H).
Qed.

Lemma computing_Cleanup plan s code s' :
  verifier_mode_ s = kComputeSourceHash /\ hashes_recorded plan s ->
  verifier_mode_ s' = verifier_mode_ s ->
  install_plan_ s' = install_plan_ s ->
  partition_index_ s' = partition_index_ s ->
  verifier_mode_ (Cleanup code s') = kComputeSourceHash /\
  hashes_recorded plan (Cleanup code s').
Proof.
  intros H E1 E2 E3. apply (computing_keep plan s _ H);
    unfold Cleanup, ActionComplete, SetOutputObject;
    destruct (cancelled_ _); simpl;
    try destruct (ErrorCode_eqb code kSuccess && has_output_pipe _);
    simpl; assumption.
Qed.

Lemma computing_dispatch plan c s :
  control (Tail c s) ->
  verifier_mode_ s = kComputeSourceHash /\ hashes_recorded plan s ->
  verifier_mode_ (outcome_state (dispatch c s)) = kComputeSourceHash /\
  hashes_recorded plan (outcome_state (dispatch c s)).
Proof.
  intros C H. pose proof H as [Hm Hh].
  destruct c as [| |data|].
  - unfold dispatch, StartPartitionHashing. rewrite Hm.
    break_all;
    first [ apply (computing_Cleanup plan s _ _ H); reflexivity
          | apply (computing_keep plan s _ H); reflexivity
          | split; [exact Hm|];
            apply (hashes_ext plan s); [reflexivity|reflexivity|exact Hh] ].
  - unfold dispatch, ScheduleRead.
    break_all;
    first [ apply (computing_Cleanup plan s _ _ H); reflexivity
          | apply (computing_keep plan s _ H); reflexivity
          | split; [exact Hm|];
            apply (hashes_ext plan s); [reflexivity|reflexivity|exact Hh] ].
  - unfold dispatch, OnReadDoneCallback.
    break_all;
    first [ apply (computing_Cleanup plan s _ _ H); reflexivity
          | apply (computing_keep plan s _ H); reflexivity
          | split; [exact Hm|];
            apply (hashes_ext plan s); [reflexivity|reflexivity|exact Hh] ].
  - unfold dispatch, FinishPartitionHashing. rewrite Hm.
    destruct (hasher_ s) as [fed|];
      [|apply (computing_keep plan s _ H); reflexivity].
    destruct (negb (Finalize_ok fed));
      [apply (computing_Cleanup plan s _ _ H); reflexivity|].
    destruct (nth_error _ _) as [partition|] eqn:Hp;
      [|apply (computing_keep plan s _ H); reflexivity].
    cbv zeta iota beta.
    assert (Adv : forall s',
      verifier_mode_ s' = verifier_mode_ s ->
      install_plan_ s' =
        set_partitions
          (replace_nth (partition_index_ s)
             (set_source_hash (raw_hash fed) partition)
             (partitions (install_plan_ s)))
          (install_plan_ s) ->
      partition_index_ s' = S (partition_index_ s) ->
      verifier_mode_ s' = kComputeSourceHash /\ hashes_recorded plan s').
    { intros s' E1 E2 E3. split; [congruence|].
      apply (hashes_advance plan s s' fed partition Hh Hp E2 E3). }
    simpl src_stream_.
    destruct (src_stream_ s); simpl outcome_state; apply Adv; reflexivity.
Qed.


(** *** Runs on a plan that names its partitions *)

Lemma PerformAction_hashing mode plan out_pipe :
  partitions plan <> [] ->
  PerformAction (init mode (Some plan) out_pipe) =
  call (StartPartitionHashing
          (set_install_plan_ plan (init mode (Some plan) out_pipe))).
Proof.
  intros Hne. unfold PerformAction. simpl.
  assert (E : Nat.eqb (List.length (partitions plan)) 0 = false).
  { destruct (partitions plan); [contradiction|reflexivity]. }
  rewrite E, andb_false_r. simpl. rewrite E. reflexivity.
Qed.

Lemma start_control mode plan out_pipe :
  control
    (Tail CStartPartitionHashing
       (set_install_plan_ plan (init mode (Some plan) out_pipe))).
Proof. simpl. unfold running. simpl. repeat split; auto. lia. Qed.

Lemma accounted_PerformAction mode plan out_pipe :
  partitions plan <> [] -> sizes_ok mode plan ->
  accounted (Return (PerformAction (init mode (Some plan) out_pipe))).
Proof.
  intros Hne Hsz. rewrite PerformAction_hashing by exact Hne.
  set (s0 := set_install_plan_ plan _).
  assert (L0 : ledger s0).
  { split; [exact Hsz|]. split; [simpl; lia|]. split; [reflexivity|].
    intros [|j] st p H; discriminate H. }
  apply accounted_call.
  - apply (control_dispatch CStartPartitionHashing). apply start_control.
  - apply accounted_Start; [apply start_control|exact L0].
Qed.

Lemma accounted_deliver s e s' :
  settled s -> accounted (Return s) -> deliver s e = Some s' ->
  accounted (Return s').
Proof.
  intros Hset [L P] H.
  destruct Hset as [Hc Hs]. unfold deliver in H. rewrite Hc in H.
  unfold pending_read in Hs, P.
  destruct e as [data| |].
  - destruct (src_stream_ s) as [st|] eqn:Est; [|discriminate].
    destruct (pending st) as [n|] eqn:En; [|discriminate].
    destruct (blen data <=? n) eqn:Eb; [|discriminate].
    apply Z.leb_le in Eb. injection H as <-.
    set (s1 := set_src_stream_ (Some (stream_deliver data st)) s).
    assert (C1 : control (Tail (COnReadDoneCallback data) s1)).
    { simpl. unfold hashing, running in *. simpl.
      decompose [and] Hs. repeat split; auto. discriminate. }
    assert (A1 : accounted (Tail (COnReadDoneCallback data) s1)).
    { split; [revert L; apply ledger_ext; reflexivity|].
      destruct (P n eq_refl)
        as [[st0 [p [fed [E0 [Hn [Hpath [Hh [Hcons [Hrem _]]]]]]]]] Hle].
      rewrite Est in E0. injection E0 as <-.
      exists (stream_deliver data st), p, fed. simpl.
      rewrite Hcons, app_nil_r. repeat split; auto. lia. }
    apply accounted_call;
      [exact (control_dispatch (COnReadDoneCallback data) s1 C1)|].
    apply accounted_OnReadDone; assumption.
  - destruct (src_stream_ s) as [st|] eqn:Est; [|discriminate].
    destruct (pending st) as [n|] eqn:En; [|discriminate].
    injection H as <-.
    unfold OnReadErrorCallback.
    apply accounted_Cleanup. revert L. apply ledger_ext; reflexivity.
  - destruct (completions s) as [|c cs] eqn:Ec; [|discriminate].
    injection H as <-. unfold TerminateProcessing.
    apply accounted_Cleanup. revert L. apply ledger_ext; reflexivity.
Qed.

Lemma reachable_accounted mode plan out_pipe s :
  partitions plan <> [] -> sizes_ok mode plan ->
  reachable mode (Some plan) out_pipe s -> accounted (Return s).
Proof.
  intros Hne Hsz R. induction R as [|s e s' R IH H].
  - apply accounted_PerformAction; assumption.
  - apply (accounted_deliver s e s'); [|exact IH|exact H].
    apply (reachable_settled mode (Some plan) out_pipe). exact R.
Qed.

Lemma reachable_success_at_end mode plan out_pipe s :
  partitions plan <> [] ->
  reachable mode (Some plan) out_pipe s -> success_at_end s.
Proof.
  intros Hne.
  apply (Inv_reachable success_at_end).
  - intros c s0 C _. apply success_dispatch. exact C.
  - intros st s0 I. exact I.
  - intros s0 [_ [Hk Hp]] _. unfold success_at_end.
    rewrite completions_Cleanup by exact Hk. rewrite Hp.
    simpl. intros [G|[]]. discriminate G.
  - intros s0 Hp _. unfold success_at_end, TerminateProcessing, Cleanup.
    simpl. rewrite Hp. intros G. contradiction.
  - rewrite PerformAction_hashing by exact Hne.
    apply success_call.
    + apply (control_dispatch CStartPartitionHashing). apply start_control.
    + apply (success_dispatch CStartPartitionHashing). apply start_control.
Qed.

Lemma reachable_computing plan out_pipe s :
  partitions plan <> [] ->
  reachable kComputeSourceHash (Some plan) out_pipe s ->
  verifier_mode_ s = kComputeSourceHash /\ hashes_recorded plan s.
Proof.
  intros Hne.
  apply (Inv_reachable
           (fun s => verifier_mode_ s = kComputeSourceHash /\
                     hashes_recorded plan s)
           (computing_dispatch plan)).
  - intros st s0 I. apply (computing_keep plan s0 _ I); reflexivity.
  - intros s0 _ I. apply (computing_Cleanup plan s0 _ _ I); reflexivity.
  - intros s0 _ I. unfold TerminateProcessing.
    apply (computing_Cleanup plan s0 _ _ I); reflexivity.
  - rewrite PerformAction_hashing by exact Hne.
    set (s0 := set_install_plan_ plan _).
    assert (I0 : verifier_mode_ s0 = kComputeSourceHash /\
                 hashes_recorded plan s0).
    { split; [reflexivity|]. unfold hashes_recorded. simpl.
      split; [destruct plan; reflexivity|]. split; [reflexivity|].
      intros j p Hj. exists (source_hash p).
      split; [rewrite Hj; destruct p; reflexivity|reflexivity]. }
    apply (Inv_call _ (computing_dispatch plan)
             (dispatch CStartPartitionHashing s0)).
    + apply control_dispatch. apply start_control.
    + apply computing_dispatch; [apply start_control|exact I0].
Qed.

(** *** The size of a read *)

Lemma fits_stream s s' :
  pending_read s' = pending_read s ->
  read_fits_buffer s -> read_fits_buffer s'.
Proof. unfold read_fits_buffer. intros ->. auto. Qed.

Lemma fits_Cleanup code s : read_fits_buffer (Cleanup code s).
Proof.
  intros n Hn. rewrite pending_read_Cleanup in Hn. discriminate Hn.
Qed.

Lemma fits_dispatch c s :
  control (Tail c s) -> accounted (Tail c s) -> read_fits_buffer s ->
  read_fits_buffer (outcome_state (dispatch c s)).
Proof.
  intros C A B.
  assert (Same : forall s',
    pending_read s' = pending_read s \/ pending_read s' = None ->
    read_fits_buffer s').
  { intros s' [E|E] n Hn; rewrite E in Hn; [exact (B n Hn)|discriminate]. }
  destruct c as [| |data|].
  - clear C A B. unfold dispatch, StartPartitionHashing.
    repeat match goal with
    | |- context [match ?x with _ => _ end] => destruct x
    end; simpl outcome_state;
    first [ apply fits_Cleanup
          | apply Same; left; reflexivity
          | apply Same; right; reflexivity ].
  - destruct C as [_ [_ [_ [_ [_ Hb]]]]]. destruct A as [_ F].
    destruct F as [st [p [fed [Est [_ [_ [_ [_ [_ Hle]]]]]]]]].
    change (blen []) with 0 in Hle.
    unfold dispatch, ScheduleRead. rewrite Hb, Est.
    change (to_int64 kReadFileBufferSize) with 131072.
    rewrite to_uint64_small by lia.
    destruct (Z.min 131072 (remaining_size_ s) =? 0) eqn:E;
      [exact B|].
    apply Z.eqb_neq in E.
    destruct (ReadAsync_ok _ _ _); simpl outcome_state;
      [|apply fits_Cleanup].
    intros n Hn. unfold pending_read in Hn. simpl in Hn.
    injection Hn as <-. unfold kReadFileBufferSize. lia.
  - clear C A B. unfold dispatch, OnReadDoneCallback.
    destruct (blen data =? 0); cbv zeta;
      repeat match goal with
      | |- context [if ?x then _ else _] => destruct x
      | |- context [match hasher_ ?x with _ => _ end] =>
        destruct (hasher_ x)
      end; simpl outcome_state;
      first [ apply fits_Cleanup
            | apply Same; left; reflexivity ].
  - clear C A B. unfold dispatch, FinishPartitionHashing.
    destruct (hasher_ s) as [fed|]; [|apply Same; left; reflexivity].
    destruct (negb (Finalize_ok fed)); [apply fits_Cleanup|].
    destruct (nth_error _ _) as [partition|];
      [|apply Same; left; reflexivity].
    destruct (verifier_mode_ s); cbv zeta;
      try destruct (negb (Blob_eqb _ _));
      try apply fits_Cleanup;
      simpl src_stream_;
      destruct (src_stream_ s) as [st|] eqn:Est; simpl outcome_state;
      apply Same; left; unfold pending_read; simpl; rewrite Est;
      reflexivity.
Qed.


Lemma fits_call o :
  control o -> accounted o -> read_fits_buffer (outcome_state o) ->
  read_fits_buffer (call o).
Proof.
  intros C A B.
  apply (call_rule
           (fun o => (control o /\ accounted o) /\
                     read_fits_buffer (outcome_state o)));
    [|split; [split|]; assumption].
  intros c s [[C' A'] B']. split.
  - apply accounted_dispatch. split; assumption.
  - apply fits_dispatch; assumption.
Qed.

Lemma reachable_fits mode plan out_pipe s :
  partitions plan <> [] -> sizes_ok mode plan ->
  reachable mode (Some plan) out_pipe s -> read_fits_buffer s.
Proof.
  intros Hne Hsz R. induction R as [|s e s' R IH H].
  - rewrite PerformAction_hashing by exact Hne.
    set (s0 := set_install_plan_ plan _).
    assert (C0 : control (Tail CStartPartitionHashing s0))
      by apply start_control.
    assert (A0 : accounted (Tail CStartPartitionHashing s0)).
    { split; [exact Hsz|]. split; [simpl; lia|]. split; [reflexivity|].
      intros [|j] st p H; discriminate H. }
    assert (B0 : read_fits_buffer s0)
      by (intros n Hn; discriminate Hn).
    destruct (accounted_dispatch _ _ (conj C0 A0)) as [C1 A1].
    apply (fits_call (dispatch CStartPartitionHashing s0) C1 A1).
    apply fits_dispatch; assumption.
  - pose proof (reachable_settled _ _ _ _ R) as Hset.
    pose proof (reachable_accounted _ _ _ _ Hne Hsz R) as [L P].
    destruct Hset as [Hc Hs]. unfold deliver in H. rewrite Hc in H.
    unfold pending_read in Hs, P.
    destruct e as [data| |].
    + destruct (src_stream_ s) as [st|] eqn:Est; [|discriminate].
      destruct (pending st) as [n|] eqn:En; [|discriminate].
      destruct (blen data <=? n) eqn:Eb; [|discriminate].
      apply Z.leb_le in Eb. injection H as <-.
      set (s1 := set_src_stream_ (Some (stream_deliver data st)) s).
      assert (C1 : control (Tail (COnReadDoneCallback data) s1)).
      { simpl. unfold hashing, running in *. simpl.
        decompose [and] Hs. repeat split; auto. discriminate. }
      assert (A1 : accounted (Tail (COnReadDoneCallback data) s1)).
      { split; [revert L; apply ledger_ext; reflexivity|].
        destruct (P n eq_refl)
          as [[st0 [p [fed [E0 [Hn [Hpath [Hh [Hcons [Hrem _]]]]]]]]] Hle].
        rewrite Est in E0. injection E0 as <-.
        exists (stream_deliver data st), p, fed. simpl.
        rewrite Hcons, app_nil_r. repeat split; auto. lia. }
      assert (B1 : read_fits_buffer s1)
        by (intros m Hm; discriminate Hm).
      destruct (accounted_dispatch _ _ (conj C1 A1)) as [C2 A2].
      apply (fits_call (dispatch (COnReadDoneCallback data) s1) C2 A2).
      apply fits_dispatch; assumption.
    + destruct (src_stream_ s) as [st|] eqn:Est; [|discriminate].
      destruct (pending st) as [n|] eqn:En; [|discriminate].
      injection H as <-. apply fits_Cleanup.
    + destruct (completions s) as [|c cs] eqn:Ec; [|discriminate].
      injection H as <-. apply fits_Cleanup.
Qed.

(** *** The codes reported *)

Lemma codes_keep mode s s' :
  verifier_mode_ s' = verifier_mode_ s ->
  completions s' = completions s ->
  codes_rule mode s -> codes_rule mode s'.
Proof. unfold codes_rule. intros -> ->. auto. Qed.

Lemma codes_Cleanup mode code s :
  reportable mode code = true ->
  codes_rule mode s -> codes_rule mode (Cleanup code s).
Proof.
  intros Hr [Hm Hf]. unfold codes_rule, Cleanup, ActionComplete,
    SetOutputObject.
  destruct (cancelled_ s) eqn:Ek; simpl; rewrite ?Ek; simpl.
  - split; assumption.
  - destruct (ErrorCode_eqb code kSuccess && has_output_pipe s); simpl;
      (split; [exact Hm|]); apply Forall_app; split; auto.
Qed.

Lemma codes_dispatch mode c s :
  codes_rule mode s -> codes_rule mode (outcome_state (dispatch c s)).
Proof.
  intros H.
  assert (Hm : verifier_mode_ s = mode) by apply H.
  destruct c as [| |data|].
  - unfold dispatch, StartPartitionHashing.
    repeat match goal with
    | |- context [match ?x with _ => _ end] => destruct x
    end; simpl outcome_state;
    first [ apply codes_Cleanup; [reflexivity|]
          | idtac ];
    apply (codes_keep mode s); try reflexivity; exact H.
  - unfold dispatch, ScheduleRead.
    repeat match goal with
    | |- context [match ?x with _ => _ end] => destruct x
    end; simpl outcome_state;
    first [ apply codes_Cleanup; [reflexivity|]
          | idtac ];
    apply (codes_keep mode s); try reflexivity; exact H.
  - unfold dispatch, OnReadDoneCallback.
    destruct (blen data =? 0); cbv zeta;
      repeat match goal with
      | |- context [if ?x then _ else _] => destruct x
      | |- context [match hasher_ ?x with _ => _ end] =>
        destruct (hasher_ x)
      end; simpl outcome_state;
      first [ apply codes_Cleanup; [reflexivity|]
            | idtac ];
      apply (codes_keep mode s); try reflexivity; exact H.
  - unfold dispatch, FinishPartitionHashing.
    destruct (hasher_ s) as [fed|];
      [|apply (codes_keep mode s); try reflexivity; exact H].
    destruct (negb (Finalize_ok fed));
      [apply codes_Cleanup; [reflexivity|exact H]|].
    destruct (nth_error _ _) as [partition|];
      [|apply (codes_keep mode s); try reflexivity; exact H].
    rewrite Hm.
    destruct mode; cbv zeta;
      try destruct (negb (Blob_eqb _ _));
      try (apply codes_Cleanup; [reflexivity|exact H]);
      simpl src_stream_;
      destruct (src_stream_ s); simpl outcome_state;
      apply (codes_keep _ s); try reflexivity; exact H.
Qed.

Lemma legacy_partitions_codes s s' b :
  PerformAction_legacy_partitions s = (s', b) ->
  verifier_mode_ s' = verifier_mode_ s /\
  completions s' = completions s.
Proof.
  unfold PerformAction_legacy_partitions. intros H. break_all; auto.
Qed.

Lemma codes_PerformAction mode input out_pipe :
  codes_rule mode (PerformAction (init mode input out_pipe)).
Proof.
  unfold PerformAction.
  destruct input as [plan|].
  - simpl input_object. cbv iota beta.
    set (s0 := set_install_plan_ plan (init mode (Some plan) out_pipe)).
    assert (K0 : codes_rule mode s0) by (split; [reflexivity|constructor]).
    assert (G : forall s b,
      codes_rule mode s ->
      codes_rule mode
        (let '(s1, completer) :=
           if negb b then (s, mkCompleter kError true)
           else if Nat.eqb (List.length (partitions (install_plan_ s))) 0
           then
             (if has_output_pipe s then SetOutputObject (install_plan_ s) s
              else s,
              mkCompleter kSuccess true)
           else (call (StartPartitionHashing s), mkCompleter kError false) in
         ScopedActionCompleter_exit completer s1)).
    { intros s b [Hm Hf].
      destruct b; simpl negb; cbv iota.
      - destruct (Nat.eqb _ _).
        + unfold ScopedActionCompleter_exit, codes_rule, ActionComplete,
            SetOutputObject.
          destruct (has_output_pipe s); simpl;
            (split; [exact Hm|]); apply Forall_app; split; auto.
        + unfold ScopedActionCompleter_exit. simpl.
          apply (call_rule (fun o => codes_rule mode (outcome_state o))).
          * intros c s1 K. apply codes_dispatch. exact K.
          * apply (codes_dispatch mode CStartPartitionHashing).
            split; assumption.
      - unfold ScopedActionCompleter_exit, codes_rule, ActionComplete.
        simpl. split; [exact Hm|]. apply Forall_app. split; auto. }
    destruct (negb (is_full_update (install_plan_ s0)) &&
              Nat.eqb (List.length (partitions (install_plan_ s0))) 0 &&
              match verifier_mode_ s0 with
              | kComputeSourceHash => true
              | kVerifyTargetHash => false
              end).
    + destruct (PerformAction_legacy_partitions s0) as [s1 b] eqn:E.
      destruct (legacy_partitions_codes _ _ _ E) as [M1 C1].
      apply (G s1 b). apply (codes_keep mode s0); assumption.
    + apply (G s0 true K0).
  - unfold ScopedActionCompleter_exit, codes_rule, ActionComplete.
    simpl. split; [reflexivity|]. repeat constructor.
Qed.

Lemma reachable_codes mode input out_pipe s :
  reachable mode input out_pipe s -> codes_rule mode s.
Proof.
  apply (Inv_reachable (codes_rule mode)).
  - intros c s0 _ K. apply codes_dispatch. exact K.
  - intros st s0 K. exact K.
  - intros s0 _ K. apply codes_Cleanup; [reflexivity|exact K].
  - intros s0 _ K. unfold TerminateProcessing.
    apply codes_Cleanup; [reflexivity|].
    apply (codes_keep mode s0); [reflexivity|reflexivity|exact K].
  - apply codes_PerformAction.
Qed.

(** *** Properties of runs *)

(** X14.  In every state of a run of the verifier, in either mode and
    on any input, the output pipe holds an object exactly when there is
    an output pipe and [kSuccess] was reported, and the object is then
    the install plan as the action holds it (with the source hashes it
    computed); after any other code, after a cancellation and while the
    action is at work, nothing was written to the output. *)
Theorem output_forwarded_only_on_success mode input out_pipe s :
  reachable mode input out_pipe s ->
  has_output_pipe s = out_pipe /\
  output_object s =
    (if out_pipe && existsb (ErrorCode_eqb kSuccess) (completions s)
     then Some (install_plan_ s) else None).
Proof. intros R. exact (reachable_output_rule mode input out_pipe s R). Qed.

(** X15.  A run in [kComputeSourceHash] mode on a plan that names its
    partitions (sizes below 2^63): the plan the action holds is the
    input plan but for source hashes; a partition the action has not
    finished keeps the source hash it came with; a partition it has
    finished has as source hash the digest of the bytes of a stream
    that was opened on the device of the partition in the source slot
    and delivered exactly [source_size] bytes; and [kSuccess] is
    reported only once every partition is finished. *)
Theorem source_hash_computation plan out_pipe s :
  partitions plan <> [] -> sizes_ok kComputeSourceHash plan ->
  reachable kComputeSourceHash (Some plan) out_pipe s ->
  install_plan_ s = set_partitions (partitions (install_plan_ s)) plan /\
  (forall j p,
     nth_error (partitions plan) j = Some p ->
     exists h,
       nth_error (partitions (install_plan_ s)) j =
         Some (set_source_hash h p) /\
       ((partition_index_ s <= j)%nat -> h = source_hash p) /\
       ((j < partition_index_ s)%nat ->
        exists st,
          nth_error (closed_streams s) j = Some st /\
          stream_path st = device_of kComputeSourceHash plan p /\
          blen (consumed st) = source_size p /\
          h = raw_hash (consumed st))) /\
  (In kSuccess (completions s) ->
   partition_index_ s = List.length (partitions plan)).
Proof.
  intros Hne Hsz R.
  destruct (reachable_computing plan out_pipe s Hne R)
    as [Hm [Hplan [Hlen Hnth]]].
  destruct (reachable_accounted _ plan out_pipe s Hne Hsz R)
    as [[_ [_ [Hcl Hpass]]] _].
  pose proof (reachable_success_at_end _ plan out_pipe s Hne R) as Hend.
  split; [exact Hplan|]. split.
  - intros j p Hj. destruct (Hnth j p Hj) as [h [Hh Hfix]].
    exists h. split; [exact Hh|]. split; [exact Hfix|].
    intros Hlt.
    destruct (nth_error (closed_streams s) j) as [st|] eqn:Est.
    + exists st. split; [reflexivity|].
      destruct (Hpass j st _ Est Hh) as [Hpath [Hsize Hhash]].
      rewrite Hm in Hpath, Hsize, Hhash.
      split; [|split; [exact Hsize|exact Hhash]].
      rewrite Hpath. unfold device_of, mode_slot.
      rewrite Hplan. reflexivity.
    + apply nth_error_None in Est. lia.
  - intros Hin. rewrite (Hend Hin). exact Hlen.
Qed.

(** X16.  When the scheduled read fails, in any state of a run, the
    action gives up its stream and reports [kError], its only report;
    the plan is not written to the output, and the partition index, the
    plan and the streams closed so far are as they were. *)
Theorem read_error_reports_kError mode input out_pipe s s' :
  reachable mode input out_pipe s ->
  deliver s EvReadError = Some s' ->
  completions s' = [kError] /\
  IsCleanupPending s' = false /\
  output_object s' = None /\
  install_plan_ s' = install_plan_ s /\
  partition_index_ s' = partition_index_ s /\
  closed_streams s' = closed_streams s.
Proof.
  intros R H.
  pose proof (reachable_settled _ _ _ _ R) as [Hc Hs].
  destruct (reachable_output_rule _ _ _ _ R) as [_ Ho].
  unfold deliver in H. rewrite Hc in H. unfold pending_read in Hs.
  destruct (src_stream_ s) as [st|] eqn:Est; [|discriminate].
  destruct (pending st) as [n|] eqn:En; [|discriminate].
  injection H as <-.
  destruct Hs as [[_ [Hk Hp]] _].
  rewrite Hp, andb_false_r in Ho.
  unfold OnReadErrorCallback, Cleanup, ActionComplete, IsCleanupPending.
  simpl. rewrite Hk. simpl. rewrite Hp. repeat split. exact Ho.
Qed.

(** X17.  In every state of a run, [IsCleanupPending] answers true
    exactly while a read is scheduled; it answers false once the action
    has reported to the processor or was cancelled, since every such
    exit gives up the stream. *)
Theorem cleanup_pending_while_reading mode input out_pipe s :
  reachable mode input out_pipe s ->
  (IsCleanupPending s = true <-> pending_read s <> None) /\
  (IsCleanupPending s = true ->
   cancelled_ s = false /\ completions s = []) /\
  (IsCleanupPending s = false ->
   cancelled_ s = true \/ exists code, completions s = [code]).
Proof.
  intros R. pose proof (reachable_settled _ _ _ _ R) as [_ Hs].
  unfold IsCleanupPending, pending_read in *.
  destruct (src_stream_ s) as [st|] eqn:Est.
  - destruct (pending st) as [n|] eqn:En.
    + destruct Hs as [[_ [Hk Hp]] _].
      split; [split; [discriminate|reflexivity]|].
      split; [auto|discriminate].
    + destruct Hs as [F _]. discriminate F.
  - destruct Hs as [_ Hs].
    split; [split; [discriminate|intros F; contradiction]|].
    split; [discriminate|]. intros _.
    destruct (cancelled_ s); [left; reflexivity|right; exact Hs].
Qed.

(** X18.  In every state of a run on a plan that names its partitions
    (sizes below 2^63), a scheduled read is on a stream opened on the
    device of the current partition in the slot of the mode; the hasher
    was fed exactly what the stream has delivered; the read asks for at
    least one byte and for no more than the 128 KiB the buffer holds;
    and what the stream has delivered plus what the read asks for does
    not exceed the size of the partition. *)
Theorem read_stays_within_partition mode plan out_pipe s n :
  partitions plan <> [] -> sizes_ok mode plan ->
  reachable mode (Some plan) out_pipe s ->
  pending_read s = Some n ->
  exists st p,
    src_stream_ s = Some st /\
    nth_error (partitions (install_plan_ s)) (partition_index_ s) =
      Some p /\
    stream_path st =
      device_of (verifier_mode_ s) (install_plan_ s) p /\
    hasher_ s = Some (consumed st) /\
    0 < n <= kReadFileBufferSize /\
    blen (consumed st) + n <= mode_size (verifier_mode_ s) p.
Proof.
  intros Hne Hsz R Hn.
  destruct (reachable_accounted _ plan out_pipe s Hne Hsz R) as [_ P].
  pose proof (reachable_fits _ plan out_pipe s Hne Hsz R n Hn) as Hfit.
  destruct (P n Hn)
    as [[st [p [fed [Est [Hp [Hpath [Hh [Hcons [Hrem _]]]]]]]]] Hle].
  rewrite app_nil_r in Hcons. subst fed.
  exists st, p. split; [exact Est|]. split; [exact Hp|].
  split; [exact Hpath|]. split; [exact Hh|]. split; [exact Hfit|]. lia.
Qed.

(** X22.  The codes a run of the verifier can report to the processor
    are [kSuccess], [kError], [kFilesystemVerifierError] and, in
    [kVerifyTargetHash] mode only, [kNewRootfsVerificationError]; the
    mode of the action never changes. *)
Theorem verifier_reports_four_codes mode input out_pipe s :
  reachable mode input out_pipe s ->
  verifier_mode_ s = mode /\
  forall code,
    In code (completions s) ->
    code = kSuccess \/ code = kError \/ code = kFilesystemVerifierError \/
    code = kNewRootfsVerificationError /\ mode = kVerifyTargetHash.
Proof.
  intros R.
  destruct (reachable_codes mode input out_pipe s R) as [Hm Hf].
  split; [exact Hm|]. intros code Hin.
  rewrite Forall_forall in Hf. specialize (Hf code Hin).
  destruct code; simpl in Hf; try discriminate Hf; auto.
  destruct mode; [discriminate Hf|]. auto.
Qed.

(** X23.  [StartPartitionHashing] on a partition whose device does not
    resolve to a path, or does not open: the action reports
    [kFilesystemVerifierError] and nothing else, holds no stream and
    schedules no read; it tried to open the device exactly when there
    was a path; the partition index, the plan, the output and the
    streams closed so far are as they were. *)
Theorem start_fails_without_device s p :
  running s ->
  nth_error (partitions (install_plan_ s)) (partition_index_ s) = Some p ->
  device_of (verifier_mode_ s) (install_plan_ s) p = "" \/
  FileStream_Open (device_of (verifier_mode_ s) (install_plan_ s) p)
    = false ->
  completions (call (StartPartitionHashing s)) =
    [kFilesystemVerifierError] /\
  src_stream_ (call (StartPartitionHashing s)) = None /\
  pending_read (call (StartPartitionHashing s)) = None /\
  opened (call (StartPartitionHashing s)) =
    (if String.eqb (device_of (verifier_mode_ s) (install_plan_ s) p) ""
     then opened s
     else opened s ++
          [device_of (verifier_mode_ s) (install_plan_ s) p]) /\
  partition_index_ (call (StartPartitionHashing s)) = partition_index_ s /\
  install_plan_ (call (StartPartitionHashing s)) = install_plan_ s /\
  output_object (call (StartPartitionHashing s)) = output_object s /\
  closed_streams (call (StartPartitionHashing s)) = closed_streams s.
Proof.
  intros [Hc [Hk Hp]] Hn Hdev.
  pose proof (todo_index_lt _ _ Hn) as Hlt.
  unfold device_of, mode_slot in *.
  assert (E : exists s1,
    StartPartitionHashing s = Return (Cleanup kFilesystemVerifierError s1) /\
    cancelled_ s1 = false /\ completions s1 = [] /\
    opened s1 =
      (if String.eqb
            match
              GetPartitionDevice (name p)
                match verifier_mode_ s with
                | kComputeSourceHash => source_slot (install_plan_ s)
                | kVerifyTargetHash => target_slot (install_plan_ s)
                end
            with
            | Some device => device
            | None => ""
            end ""
       then opened s
       else opened s ++
            [match
               GetPartitionDevice (name p)
                 match verifier_mode_ s with
                 | kComputeSourceHash => source_slot (install_plan_ s)
                 | kVerifyTargetHash => target_slot (install_plan_ s)
                 end
             with
             | Some device => device
             | None => ""
             end]) /\
    partition_index_ s1 = partition_index_ s /\
    install_plan_ s1 = install_plan_ s /\
    output_object s1 = output_object s /\
    closed_streams s1 = closed_streams s /\
    has_output_pipe s1 = has_output_pipe s).
  { unfold StartPartitionHashing.
    replace (Nat.eqb (partition_index_ s)
               (List.length (partitions (install_plan_ s)))) with false
      by (symmetry; apply Nat.eqb_neq; lia).
    rewrite Hn. cbv zeta.
    destruct (verifier_mode_ s);
      match goal with
      | |- context [String.eqb ?d ""] =>
        destruct (String.eqb d "") eqn:Ed
      end;
      try (eexists; split; [reflexivity|];
           simpl; repeat split; assumption);
      (destruct Hdev as [Hd|Ho];
       [rewrite Hd in Ed; rewrite String.eqb_refl in Ed; discriminate Ed|]);
      rewrite Ho; simpl negb; cbv iota;
      eexists; (split; [reflexivity|]);
      simpl; repeat split; assumption. }
  destruct E as [s1 [-> [Hk1 [Hp1 [Ho1 [Hi1 [Hpl1 [Hout1 [Hcl1 _]]]]]]]]].
  rewrite call_Return.
  unfold Cleanup, ActionComplete, pending_read. simpl.
  rewrite Hk1. simpl. rewrite Hp1.
  repeat split; assumption.
Qed.

End RunFacts.

Section ExampleRuns.

Import VerifierExample.

#[local] Existing Instance example_boot_control.
#[local] Existing Instance example_hash_calculator.
#[local] Existing Instance example_platform.

Lemma output_forwarded_only_on_success_witness :
  let s0 := PerformAction (init kVerifyTargetHash (Some plan_one) true) in
  let s := deliver_all s0 [EvReadDone [x01; x02]] in
  has_output_pipe s = true /\
  output_object s =
    (if true && existsb (ErrorCode_eqb kSuccess) (completions s)
     then Some (install_plan_ s) else None).
Proof.
  intros s0 s.
  apply (output_forwarded_only_on_success kVerifyTargetHash
           (Some plan_one) true s).
  apply (reach_deliver _ _ _ s0 (EvReadDone [x01; x02])).
  - apply reach_perform.
  - vm_compute; reflexivity.
Defined.

Lemma source_hash_computation_witness :
  let plan := plan_one in
  let s0 := PerformAction (init kComputeSourceHash (Some plan) true) in
  let s := deliver_all s0 [EvReadDone [x01; x02]] in
  install_plan_ s = set_partitions (partitions (install_plan_ s)) plan /\
  (forall j p,
     nth_error (partitions plan) j = Some p ->
     exists h,
       nth_error (partitions (install_plan_ s)) j =
         Some (set_source_hash h p) /\
       ((partition_index_ s <= j)%nat -> h = source_hash p) /\
       ((j < partition_index_ s)%nat ->
        exists st,
          nth_error (closed_streams s) j = Some st /\
          stream_path st = device_of kComputeSourceHash plan p /\
          blen (consumed st) = source_size p /\
          h = raw_hash (consumed st))) /\
  (In kSuccess (completions s) ->
   partition_index_ s = List.length (partitions plan)).
Proof.
  assert (Hsz : sizes_ok kComputeSourceHash plan_one).
  { apply Forall_cons; [|apply Forall_nil].
    unfold mode_size, boot_partition, source_size. lia. }
  intros plan s0 s.
  apply (source_hash_computation plan true s).
  - discriminate.
  - exact Hsz.
  - apply (reach_deliver _ _ _ s0 (EvReadDone [x01; x02])).
    + apply reach_perform.
    + vm_compute; reflexivity.
Defined.

Lemma read_error_reports_kError_witness :
  let s := PerformAction (init kVerifyTargetHash (Some plan_one) true) in
  let s' := OnReadErrorCallback
              (set_src_stream_
                 (Some (mkStream "/dev/boot" [] None false)) s) in
  completions s' = [kError] /\
  IsCleanupPending s' = false /\
  output_object s' = None /\
  install_plan_ s' = install_plan_ s /\
  partition_index_ s' = partition_index_ s /\
  closed_streams s' = closed_streams s.
Proof.
  intros s s'.
  apply (read_error_reports_kError kVerifyTargetHash (Some plan_one) true
           s s').
  - apply reach_perform.
  - vm_compute; reflexivity.
Defined.

Lemma cleanup_pending_while_reading_witness :
  let s := PerformAction (init kVerifyTargetHash (Some plan_one) true) in
  (IsCleanupPending s = true <-> pending_read s <> None) /\
  (IsCleanupPending s = true ->
   cancelled_ s = false /\ completions s = []) /\
  (IsCleanupPending s = false ->
   cancelled_ s = true \/ exists code, completions s = [code]).
Proof.
  intros s.
  apply (cleanup_pending_while_reading kVerifyTargetHash (Some plan_one)
           true s).
  apply reach_perform.
Defined.

Lemma read_stays_within_partition_witness :
  let s := PerformAction (init kComputeSourceHash (Some plan_one) true) in
  exists st p,
    src_stream_ s = Some st /\
    nth_error (partitions (install_plan_ s)) (partition_index_ s) =
      Some p /\
    stream_path st =
      device_of (verifier_mode_ s) (install_plan_ s) p /\
    hasher_ s = Some (consumed st) /\
    0 < 2 <= kReadFileBufferSize /\
    blen (consumed st) + 2 <= mode_size (verifier_mode_ s) p.
Proof.
  assert (Hsz : sizes_ok kComputeSourceHash plan_one).
  { apply Forall_cons; [|apply Forall_nil].
    unfold mode_size, boot_partition, source_size. lia. }
  intros s.
  apply (read_stays_within_partition kComputeSourceHash plan_one true s 2).
  - discriminate.
  - exact Hsz.
  - apply reach_perform.
  - vm_compute; reflexivity.
Defined.

Lemma verifier_reports_four_codes_witness :
  let s0 := PerformAction (init kVerifyTargetHash (Some plan_one) true) in
  let s := deliver_all s0 [EvReadDone [x01; x01]] in
  verifier_mode_ s = kVerifyTargetHash /\
  forall code,
    In code (completions s) ->
    code = kSuccess \/ code = kError \/ code = kFilesystemVerifierError \/
    code = kNewRootfsVerificationError /\
    kVerifyTargetHash = kVerifyTargetHash.
Proof.
  intros s0 s.
  apply (verifier_reports_four_codes kVerifyTargetHash (Some plan_one)
           true s).
  apply (reach_deliver _ _ _ s0 (EvReadDone [x01; x01])).
  - apply reach_perform.
  - vm_compute; reflexivity.
Defined.

Lemma start_fails_without_device_witness :
  let s := set_install_plan_ plan_one
             (init kVerifyTargetHash (Some plan_one) true) in
  let p := boot_partition in
  let platform := closed_platform in
  completions (call (StartPartitionHashing s)) =
    [kFilesystemVerifierError] /\
  src_stream_ (call (StartPartitionHashing s)) = None /\
  pending_read (call (StartPartitionHashing s)) = None /\
  opened (call (StartPartitionHashing s)) =
    (if String.eqb (device_of (verifier_mode_ s) (install_plan_ s) p) ""
     then opened s
     else opened s ++
          [device_of (verifier_mode_ s) (install_plan_ s) p]) /\
  partition_index_ (call (StartPartitionHashing s)) = partition_index_ s /\
  install_plan_ (call (StartPartitionHashing s)) = install_plan_ s /\
  output_object (call (StartPartitionHashing s)) = output_object s /\
  closed_streams (call (StartPartitionHashing s)) = closed_streams s.
Proof.
  intros s p pf.
  apply (start_fails_without_device (platform := pf) s p).
  - repeat split; reflexivity.
  - reflexivity.
  - right. reflexivity.
Defined.

End ExampleRuns.

End VerifierRunFacts.

(** ** download_action.cc *)

Module DownloadFacts.
Import Plan Download.

#[local] Arguments to_uint64 : simpl never.
#[local] Arguments to_int64 : simpl never.
#[local] Arguments String.eqb : simpl never.
#[local] Arguments Z.ltb : simpl never.
#[local] Arguments Z.eqb : simpl never.
#[local] Arguments CloseP2PSharingFd : simpl never.
#[local] Arguments SetupP2PSharingFd : simpl never.
#[local] Arguments WriteToP2PFile : simpl never.
#[local] Arguments TerminateProcessing : simpl never.

(** Case analysis on the tests of a member function, wherever they
    appear. *)
Ltac split_step :=
  match goal with
  | H : (_, _) = (_, _) |- _ => injection H as ? H
  | H : context [match ?x with _ => _ end] |- _ => destruct x eqn:?
  | |- context [match ?x with _ => _ end] => destruct x eqn:?
  end.

Ltac split_all :=
  repeat (simpl in *; subst; try discriminate; split_step);
  simpl in *; subst; try discriminate.

Ltac unfold_actions :=
  unfold handle, SeekToOffset, ReceivedBytes, TransferComplete,
    TransferTerminated, TerminateProcessing, PerformAction,
    WriteToP2PFile, SetupP2PSharingFd, CloseP2PSharingFd, emit, crash in *.

(** The log after some calls is the log before, followed by them. *)
Ltac news :=
  repeat rewrite <- app_assoc; simpl;
  first [ reflexivity | symmetry; apply app_nil_r ].

(** Boolean tests as propositions. *)
Ltac tests :=
  repeat match goal with
  | E : negb _ = true |- _ => apply negb_true_iff in E
  | E : negb _ = false |- _ => apply negb_false_iff in E
  | E : (_ =? _) = true |- _ => apply Z.eqb_eq in E
  | E : (_ =? _) = false |- _ => apply Z.eqb_neq in E
  | E : (_ <? _) = true |- _ => apply Z.ltb_lt in E
  | E : (_ <? _) = false |- _ => apply Z.ltb_ge in E
  | E : String.eqb _ _ = true |- _ => apply String.eqb_eq in E
  | E : String.eqb _ _ = false |- _ => apply String.eqb_neq in E
  end.

Lemma completions_app l l' :
  completions (l ++ l') = completions l ++ completions l'.
Proof.
  induction l as [|c l IH]; simpl; [reflexivity|].
  destruct c; simpl; rewrite ?IH; reflexivity.
Qed.

Lemma count_app f l l' : (count f (l ++ l') = count f l + count f l')%nat.
Proof. unfold count. rewrite filter_app, length_app. reflexivity. Qed.

Lemma count_zero f l : Forall (fun c => f c = false) l -> count f l = 0%nat.
Proof.
  unfold count. induction 1 as [|c l H _ IH]; simpl; [reflexivity|].
  rewrite H. exact IH.
Qed.

Section ActionFacts.

Context {world : World}.

(** *** The P2P file *)

Lemma same_core_refl s : same_core s s.
Proof. repeat split. Qed.

Lemma CloseP2PSharingFd_step delete_p2p_file s :
  system_state_ s = true ->
  exists news,
    p2p_step s (CloseP2PSharingFd delete_p2p_file s) news /\
    p2p_off (CloseP2PSharingFd delete_p2p_file s) /\
    p2p_visible_ (CloseP2PSharingFd delete_p2p_file s) = p2p_visible_ s /\
    count is_FileShare news = 0%nat /\
    count is_p2p_write news = 0%nat /\
    count is_unlink news = (if delete_p2p_file then 1 else 0)%nat /\
    (p2p_sharing_fd_ s = -1 -> delete_p2p_file = false -> news = []).
Proof.
  intros Hs. unfold CloseP2PSharingFd, p2p_step, p2p_off, extends, emit.
  destruct (p2p_sharing_fd_ s =? -1) eqn:Efd; simpl;
    rewrite Hs, andb_false_r; destruct delete_p2p_file; simpl;
    eexists;
    (split; [split; [unfold same_core; simpl; repeat split
                    |split; [news|]]|]);
    repeat constructor; try discriminate;
    try (apply Z.eqb_eq in Efd; exact Efd).
  apply Z.eqb_neq in Efd. congruence.
Qed.

Lemma p2p_step_refl s : p2p_step s s [].
Proof.
  split; [apply same_core_refl|]. split; [|constructor].
  unfold extends. rewrite app_nil_r. reflexivity.
Qed.

Lemma same_core_trans s0 s1 s2 :
  same_core s0 s1 -> same_core s1 s2 -> same_core s0 s2.
Proof.
  unfold same_core. intros H1 H2.
  decompose [and] H1. decompose [and] H2.
  repeat split; congruence.
Qed.

Lemma p2p_step_trans s0 s1 s2 l1 l2 :
  p2p_step s0 s1 l1 -> p2p_step s1 s2 l2 -> p2p_step s0 s2 (l1 ++ l2).
Proof.
  intros [C1 [E1 F1]] [C2 [E2 F2]]. split; [|split].
  - apply (same_core_trans _ _ _ C1 C2).
  - unfold extends in *. rewrite E2, E1, app_assoc. reflexivity.
  - apply Forall_app. split; assumption.
Qed.

Lemma p2p_step_emit c s :
  is_p2p_file_call c = true -> p2p_step s (emit c s) [c].
Proof.
  intros H. split; [repeat split|]. split; [reflexivity|].
  constructor; [exact H|constructor].
Qed.

Lemma count_cons f c l :
  count f (c :: l) = ((if f c then 1 else 0) + count f l)%nat.
Proof. unfold count. simpl. destruct (f c); reflexivity. Qed.

Lemma count_nil f : count f [] = 0%nat.
Proof. reflexivity. Qed.

Lemma SetupP2PSharingFd_step s :
  system_state_ s = true ->
  exists news,
    p2p_step s (fst (SetupP2PSharingFd s)) news /\
    count is_FileShare news = 1%nat /\
    count is_p2p_write news = 0%nat /\
    (snd (SetupP2PSharingFd s) = true ->
     p2p_file_id_ (fst (SetupP2PSharingFd s)) = p2p_file_id_ s /\
     p2p_sharing_fd_ (fst (SetupP2PSharingFd s)) <> -1 /\
     count is_unlink news = 0%nat) /\
    (snd (SetupP2PSharingFd s) = false ->
     p2p_off (fst (SetupP2PSharingFd s)) /\
     p2p_visible_ (fst (SetupP2PSharingFd s)) = p2p_visible_ s /\
     count is_unlink news = 1%nat).
Proof.
  intros Hs. unfold SetupP2PSharingFd. rewrite Hs. simpl negb. cbv iota.
  (* what every failure branch does: more calls, then close and delete *)
  assert (Fail : forall s1 l1,
    p2p_step s s1 l1 -> p2p_visible_ s1 = p2p_visible_ s ->
    count is_FileShare l1 = 1%nat -> count is_unlink l1 = 0%nat ->
    count is_p2p_write l1 = 0%nat ->
    exists news,
      p2p_step s (CloseP2PSharingFd true s1) news /\
      count is_FileShare news = 1%nat /\
      count is_p2p_write news = 0%nat /\
      (false = true ->
       p2p_file_id_ (CloseP2PSharingFd true s1) = p2p_file_id_ s /\
       p2p_sharing_fd_ (CloseP2PSharingFd true s1) <> -1 /\
       count is_unlink news = 0%nat) /\
      (false = false ->
       p2p_off (CloseP2PSharingFd true s1) /\
       p2p_visible_ (CloseP2PSharingFd true s1) = p2p_visible_ s /\
       count is_unlink news = 1%nat)).
  { intros s1 l1 S1 V1 N1 U1 W1.
    assert (Hs1 : system_state_ s1 = true).
    { destruct S1 as [C _]. unfold same_core in C.
      decompose [and] C. congruence. }
    destruct (CloseP2PSharingFd_step true s1 Hs1)
      as [l [St [Off [Vis [Nsh [Nwr [Nun _]]]]]]].
    exists (l1 ++ l). split; [apply (p2p_step_trans _ _ _ _ _ S1 St)|].
    rewrite !count_app, N1, U1, W1, Nsh, Nwr, Nun.
    split; [reflexivity|]. split; [reflexivity|].
    split; [discriminate|].
    intros _. split; [exact Off|]. split; [congruence|reflexivity]. }
  set (c1 := c_FileShare _ _ _).
  assert (S1 : p2p_step s (emit c1 s) [c1])
    by (apply p2p_step_emit; reflexivity).
  destruct (p2p_FileShare _ _ _); simpl negb; cbv iota;
    [|apply (Fail _ _ S1); reflexivity].
  cbv zeta.
  set (c2 := c_open _ _).
  set (s2 := set_p2p_sharing_fd_ _ (emit c2 (emit c1 s))).
  assert (S2 : p2p_step s s2 [c1; c2]).
  { split; [repeat split|]. split; [unfold extends; simpl; news|].
    repeat constructor. }
  destruct (p2p_sharing_fd_ s2 =? -1) eqn:Efd;
    [apply (Fail _ _ S2); reflexivity|].
  set (c3 := c_fchmod _ _).
  assert (S3 : p2p_step s (emit c3 s2) [c1; c2; c3]).
  { apply (p2p_step_trans _ _ _ _ _ S2). apply p2p_step_emit.
    reflexivity. }
  destruct (os_fchmod _ _); simpl negb; cbv iota;
    [|apply (Fail _ _ S3); reflexivity].
  set (c4 := c_FileGetVisible _ _).
  exists [c1; c2; c3; c4]. simpl fst. simpl snd.
  tests.
  split; [|split; [reflexivity|split; [reflexivity|split; [|discriminate]]]].
  - split; [|split].
    + destruct (p2p_FileGetVisible _ _); repeat split.
    + unfold extends.
      destruct (p2p_FileGetVisible _ _); simpl; news.
    + repeat constructor.
  - intros _.
    destruct (p2p_FileGetVisible _ _); simpl; repeat split; auto.
Qed.

Lemma step_system_state s s' l :
  p2p_step s s' l -> system_state_ s = true -> system_state_ s' = true.
Proof.
  intros [C _] H. unfold same_core in C. decompose [and] C. congruence.
Qed.

(** [WriteToP2PFile]: the P2P file is created when it was not open; then
    either it is dropped (closed, deleted, sharing off), or sharing goes
    on and the last three calls size the file, seek to [file_offset]
    and write [data] there in full. *)
Lemma WriteToP2PFile_step data file_offset s :
  system_state_ s = true ->
  exists news,
    p2p_step s (WriteToP2PFile data file_offset s) news /\
    count is_FileShare news =
      (if (p2p_sharing_fd_ s =? -1)%Z then 1 else 0)%nat /\
    (p2p_sharing_fd_ s <> -1 ->
     p2p_visible_ (WriteToP2PFile data file_offset s) = p2p_visible_ s) /\
    ((p2p_off (WriteToP2PFile data file_offset s) /\
      count is_unlink news = 1%nat) \/
     (p2p_file_id_ (WriteToP2PFile data file_offset s) = p2p_file_id_ s /\
      p2p_sharing_fd_ (WriteToP2PFile data file_offset s) <> -1 /\
      count is_unlink news = 0%nat /\
      exists before size,
        let fd := p2p_sharing_fd_ (WriteToP2PFile data file_offset s) in
        news = before ++
               [c_FileSize fd size; c_lseek fd file_offset file_offset;
                c_write fd data (to_int64 (blen data))] /\
        file_offset <= size /\ count is_p2p_write before = 0%nat)).
Proof.
  intros Hs. unfold WriteToP2PFile.
  (* the part after the file is known to be open *)
  assert (Open : forall s1 l1,
    p2p_step s s1 l1 -> p2p_file_id_ s1 = p2p_file_id_ s ->
    p2p_sharing_fd_ s1 <> -1 ->
    count is_unlink l1 = 0%nat -> count is_p2p_write l1 = 0%nat ->
    let s' :=
      let p2p_size := os_FileSize (log s1) (p2p_sharing_fd_ s1) in
      let s := emit (c_FileSize (p2p_sharing_fd_ s1) p2p_size) s1 in
      if p2p_size <? 0 then CloseP2PSharingFd true s
      else if p2p_size <? file_offset then CloseP2PSharingFd true s
      else
        let cur_file_offset :=
          os_lseek (log s) (p2p_sharing_fd_ s) file_offset in
        let s :=
          emit (c_lseek (p2p_sharing_fd_ s) file_offset cur_file_offset)
            s in
        if negb (cur_file_offset =? file_offset) then
          CloseP2PSharingFd true s
        else
          let bytes_written :=
            os_write (log s) (p2p_sharing_fd_ s) data in
          let s :=
            emit (c_write (p2p_sharing_fd_ s) data bytes_written) s in
          if negb (bytes_written =? to_int64 (blen data)) then
            CloseP2PSharingFd true s
          else s in
    exists news,
      p2p_step s s' (l1 ++ news) /\
      count is_FileShare news = 0%nat /\
      (p2p_visible_ s' = p2p_visible_ s1) /\
      ((p2p_off s' /\ count is_unlink (l1 ++ news) = 1%nat) \/
       (p2p_file_id_ s' = p2p_file_id_ s /\
        p2p_sharing_fd_ s' <> -1 /\
        count is_unlink (l1 ++ news) = 0%nat /\
        exists before size,
          l1 ++ news = before ++
               [c_FileSize (p2p_sharing_fd_ s') size;
                c_lseek (p2p_sharing_fd_ s') file_offset file_offset;
                c_write (p2p_sharing_fd_ s') data (to_int64 (blen data))] /\
          file_offset <= size /\ count is_p2p_write before = 0%nat))).
  { intros s1 l1 S1 Id1 Fd1 U1 W1. cbv zeta.
    assert (Hs1 : system_state_ s1 = true)
      by (apply (step_system_state _ _ _ S1 Hs)).
    (* a failure after the calls [l2] *)
    assert (Fail : forall s2 l2,
      p2p_step s1 s2 l2 -> p2p_visible_ s2 = p2p_visible_ s1 ->
      Forall (fun c => is_FileShare c = false /\ is_unlink c = false) l2 ->
      exists news,
        p2p_step s (CloseP2PSharingFd true s2) (l1 ++ news) /\
        count is_FileShare news = 0%nat /\
        p2p_visible_ (CloseP2PSharingFd true s2) = p2p_visible_ s1 /\
        ((p2p_off (CloseP2PSharingFd true s2) /\
          count is_unlink (l1 ++ news) = 1%nat) \/
         (p2p_file_id_ (CloseP2PSharingFd true s2) = p2p_file_id_ s /\
          p2p_sharing_fd_ (CloseP2PSharingFd true s2) <> -1 /\
          count is_unlink (l1 ++ news) = 0%nat /\
          exists before size,
            l1 ++ news = before ++
              [c_FileSize (p2p_sharing_fd_ (CloseP2PSharingFd true s2))
                 size;
               c_lseek (p2p_sharing_fd_ (CloseP2PSharingFd true s2))
                 file_offset file_offset;
               c_write (p2p_sharing_fd_ (CloseP2PSharingFd true s2)) data
                 (to_int64 (blen data))] /\
            file_offset <= size /\ count is_p2p_write before = 0%nat))).
    { intros s2 l2 S2 V2 K2.
      assert (Hs2 : system_state_ s2 = true)
        by (apply (step_system_state _ _ _ S2 Hs1)).
      destruct (CloseP2PSharingFd_step true s2 Hs2)
        as [l [St [Off [Vis [Nsh [Nwr [Nun _]]]]]]].
      assert (Z1 : count is_FileShare l2 = 0%nat).
      { apply count_zero. revert K2. apply Forall_impl. intros c [H _].
        exact H. }
      assert (Z2 : count is_unlink l2 = 0%nat).
      { apply count_zero. revert K2. apply Forall_impl. intros c [_ H].
        exact H. }
      exists (l2 ++ l).
      split; [apply (p2p_step_trans _ _ _ _ _ S1);
              apply (p2p_step_trans _ _ _ _ _ S2 St)|].
      rewrite !count_app, Z1, Z2, U1, Nsh, Nun.
      split; [reflexivity|]. split; [congruence|].
      left. split; [exact Off|reflexivity]. }
    set (c1 := c_FileSize _ _).
    assert (S2 : p2p_step s1 (emit c1 s1) [c1])
      by (apply p2p_step_emit; reflexivity).
    destruct (os_FileSize _ _ <? 0) eqn:Eneg;
      [apply (Fail _ _ S2); [reflexivity|repeat constructor]|].
    destruct (os_FileSize _ _ <? file_offset) eqn:Eshort;
      [apply (Fail _ _ S2); [reflexivity|repeat constructor]|].
    set (c2 := c_lseek _ _ _).
    assert (S3 : p2p_step s1 (emit c2 (emit c1 s1)) [c1; c2]).
    { apply (p2p_step_trans _ _ _ [c1] [c2] S2). apply p2p_step_emit.
      reflexivity. }
    destruct (os_lseek _ _ _ =? file_offset) eqn:Eseek; simpl negb;
      cbv iota;
      [|apply (Fail _ _ S3); [reflexivity|repeat constructor]].
    set (c3 := c_write _ _ _).
    assert (S4 : p2p_step s1 (emit c3 (emit c2 (emit c1 s1))) [c1; c2; c3]).
    { apply (p2p_step_trans _ _ _ [c1; c2] [c3] S3). apply p2p_step_emit.
      reflexivity. }
    destruct (os_write _ _ _ =? to_int64 (blen data)) eqn:Ewr; simpl negb;
      cbv iota;
      [|apply (Fail _ _ S4); [reflexivity|repeat constructor]].
    exists [c1; c2; c3].
    split; [apply (p2p_step_trans _ _ _ _ _ S1 S4)|].
    split; [reflexivity|]. split; [reflexivity|]. right.
    split; [exact Id1|]. split; [exact Fd1|].
    split; [rewrite count_app, U1; reflexivity|].
    exists l1, (os_FileSize (log s1) (p2p_sharing_fd_ s1)).
    tests. subst c1 c2 c3. simpl. simpl in Eseek, Ewr.
    rewrite Ewr, Eseek.
    split; [reflexivity|]. split; [lia|exact W1]. }
  destruct (p2p_sharing_fd_ s =? -1) eqn:Efd.
  - destruct (SetupP2PSharingFd_step s Hs)
      as [l1 [S1 [N1 [W1 [Ok Ko]]]]].
    destruct (SetupP2PSharingFd s) as [s1 ok]. simpl fst in *.
    simpl snd in *.
    destruct ok; simpl negb; cbv iota.
    + destruct (Ok eq_refl) as [Id1 [Fd1 U1]].
      destruct (Open s1 l1 S1 Id1 Fd1 U1 W1) as [l [R1 [R2 [R3 R4]]]].
      exists (l1 ++ l). split; [exact R1|].
      split; [rewrite count_app, N1, R2; reflexivity|].
      split; [intros F; tests; contradiction|exact R4].
    + destruct (Ko eq_refl) as [Off [V1 U1]].
      exists l1. split; [exact S1|]. split; [exact N1|].
      split; [intros F; tests; contradiction|].
      left. split; assumption.
  - tests.
    destruct (Open s [] (p2p_step_refl s) eq_refl Efd eq_refl eq_refl)
      as [l [R1 [R2 [R3 R4]]]].
    simpl app in *. exists l. split; [exact R1|].
    split; [exact R2|]. split; [intros _; exact R3|exact R4].
Qed.

(** *** [ReceivedBytes], part by part *)

Lemma ReceivedBytes_parts bytes s :
  ReceivedBytes bytes s =
  ReceivedBytes_forward bytes (ReceivedBytes_mirror bytes s).
Proof. reflexivity. Qed.

Lemma count_by_kind f g l :
  Forall (fun c => g c = true) l ->
  (forall c, g c = true -> f c = false) ->
  count f l = 0%nat.
Proof.
  intros H K. apply count_zero. revert H. apply Forall_impl.
  intros c Hc. apply K. exact Hc.
Qed.

Lemma completions_by_kind g l :
  Forall (fun c => g c = true) l ->
  (forall c, g c = true -> is_ActionComplete c = false) ->
  completions l = [].
Proof.
  intros H K. induction H as [|c l Hc _ IH]; [reflexivity|].
  apply K in Hc. destruct c; simpl in *; try discriminate; exact IH.
Qed.

Lemma p2p_calls_quiet l :
  Forall (fun c => is_p2p_file_call c = true) l ->
  completions l = [] /\
  count is_FileMakeVisible l = 0%nat /\
  count is_Write l = 0%nat /\
  count is_VerifyPayload l = 0%nat.
Proof.
  intros H. split; [|split; [|split]].
  - apply (completions_by_kind _ _ H). intros []; simpl; congruence.
  - apply (count_by_kind _ _ _ H). intros []; simpl; congruence.
  - apply (count_by_kind _ _ _ H). intros []; simpl; congruence.
  - apply (count_by_kind _ _ _ H). intros []; simpl; congruence.
Qed.

(** The mirror write of [ReceivedBytes]. *)
Lemma ReceivedBytes_mirror_step bytes s :
  sharing_inv s ->
  exists news,
    p2p_step s (ReceivedBytes_mirror bytes s) news /\
    sharing_inv (ReceivedBytes_mirror bytes s) /\
    ~ p2p_fresh (ReceivedBytes_mirror bytes s) /\
    (p2p_fresh s /\ count is_FileShare news = 1%nat \/
     ~ p2p_fresh s /\ count is_FileShare news = 0%nat /\
     p2p_visible_ (ReceivedBytes_mirror bytes s) = p2p_visible_ s) /\
    (p2p_file_id_ s = "" -> news = []) /\
    (count is_unlink news = 0%nat /\
     p2p_file_id_ (ReceivedBytes_mirror bytes s) = p2p_file_id_ s \/
     count is_unlink news = 1%nat /\
     p2p_off (ReceivedBytes_mirror bytes s) /\ p2p_file_id_ s <> "").
Proof.
  intros Inv. pose proof Inv as [Hs [Hc [Hfd [Hfresh [Nsh [Nmv Hvis]]]]]].
  unfold ReceivedBytes_mirror.
  destruct (String.eqb (p2p_file_id_ s) "") eqn:Eid; simpl negb; cbv iota;
    tests.
  - exists []. split; [apply p2p_step_refl|].
    split; [exact Inv|].
    split; [intros [F _]; contradiction|].
    split; [right; split; [intros [F _]; contradiction|split; reflexivity]|].
    split; [reflexivity|]. left. split; reflexivity.
  - destruct (WriteToP2PFile_step bytes (to_int64 (bytes_received_ s)) s Hs)
      as [news [St [Nfs [Vis Cases]]]].
    set (s1 := WriteToP2PFile bytes (to_int64 (bytes_received_ s)) s) in *.
    pose proof St as [Core [Ext Kind]].
    destruct (p2p_calls_quiet _ Kind) as [_ [Qmv _]].
    unfold same_core in Core. decompose [and] Core.
    unfold extends in Ext.
    assert (Nf : ~ p2p_fresh s1).
    { destruct Cases as [[[Off1 Off2] _]|[_ [Fd _]]]; intros [F1 F2];
        congruence. }
    assert (Hfd1 : p2p_sharing_fd_ s1 <> -1 -> p2p_file_id_ s1 <> "").
    { destruct Cases as [[[Off1 Off2] _]|[Id [Fd _]]]; intros F;
        congruence. }
    exists news. split; [exact St|].
    destruct (p2p_sharing_fd_ s =? -1) eqn:Efd; tests.
    + (* the file was not set up yet *)
      assert (Fr : p2p_fresh s) by (split; assumption).
      destruct (Hfresh Fr) as [V0 [S0 M0]].
      split.
      { split; [congruence|]. split; [congruence|].
        split; [exact Hfd1|].
        split; [intros F; contradiction|].
        rewrite Ext, !count_app, Nfs, Qmv, S0, M0.
        split; [lia|]. split; [lia|]. intros F. discriminate F. }
      split; [exact Nf|]. split; [left; split; assumption|].
      split; [intros F; contradiction|].
      destruct Cases as [[Off U]|[Id [Fd [U _]]]]; [right|left]; auto.
    + split.
      { split; [congruence|]. split; [congruence|].
        split; [exact Hfd1|].
        split; [intros F; contradiction|].
        rewrite Ext, !count_app, Nfs, Qmv, (Vis Efd), !Nat.add_0_r.
        split; [exact Nsh|]. split; [exact Nmv|exact Hvis]. }
      split; [exact Nf|].
      split; [right; split; [intros [_ F]; contradiction|
                             split; [exact Nfs|exact (Vis Efd)]]|].
      split; [intros F; contradiction|].
      destruct Cases as [[Off U]|[Id [Fd [U _]]]]; [right|left]; auto.
Qed.

(** The promotion at the end of [ReceivedBytes]. *)
Lemma ReceivedBytes_promote_step s :
  system_state_ s = true ->
  exists news,
    same_core s (ReceivedBytes_promote s) /\
    p2p_file_id_ (ReceivedBytes_promote s) = p2p_file_id_ s /\
    p2p_sharing_fd_ (ReceivedBytes_promote s) = p2p_sharing_fd_ s /\
    extends s (ReceivedBytes_promote s) news /\
    completions news = [] /\
    count is_p2p_file_call news = 0%nat /\
    count is_Write news = 0%nat /\
    count is_VerifyPayload news = 0%nat /\
    (count is_FileMakeVisible news = 0%nat /\
     p2p_visible_ (ReceivedBytes_promote s) = p2p_visible_ s \/
     news = [c_IsManifestValid true; c_FileMakeVisible (p2p_file_id_ s)] /\
     p2p_visible_ s = false /\
     p2p_visible_ (ReceivedBytes_promote s) = true /\
     delta_performer_ s = true).
Proof.
  intros Hs. unfold ReceivedBytes_promote, extends, emit, crash.
  destruct (p2p_visible_ s) eqn:Ev; simpl;
    [exists []; repeat split;
     [news|left; split; first [reflexivity|congruence]]|].
  destruct (delta_performer_ s) eqn:Ed; simpl;
    [|exists []; repeat split;
      [news|left; split; first [reflexivity|congruence]]].
  destruct (performer_IsManifestValid (log s)) eqn:Em; simpl.
  - rewrite Hs. simpl.
    exists [c_IsManifestValid true; c_FileMakeVisible (p2p_file_id_ s)].
    repeat split; [news|]. right. repeat split.
  - exists [c_IsManifestValid false].
    repeat split. left. split; first [reflexivity|congruence].
Qed.

(** [TerminateProcessing]: the writer is closed and forgotten, the P2P
    descriptor is closed and sharing is off, nothing is deleted, and the
    last call asks the fetcher to terminate the transfer. *)
Lemma TerminateProcessing_step s :
  exists news,
    extends s (TerminateProcessing s) news /\
    frame s (TerminateProcessing s) /\
    code_ (TerminateProcessing s) = code_ s /\
    bytes_received_ (TerminateProcessing s) = bytes_received_ s /\
    p2p_visible_ (TerminateProcessing s) = p2p_visible_ s /\
    output_object (TerminateProcessing s) = output_object s /\
    crashed (TerminateProcessing s) = crashed s /\
    writer_ (TerminateProcessing s) = None /\
    p2p_off (TerminateProcessing s) /\
    completions news = [] /\
    count is_FileShare news = 0%nat /\
    count is_FileMakeVisible news = 0%nat /\
    count is_unlink news = 0%nat /\
    count is_Write news = 0%nat /\
    count is_VerifyPayload news = 0%nat /\
    last news c_set_delegate = c_TerminateTransfer /\
    (p2p_sharing_fd_ s = -1 -> count is_p2p_file_call news = 0%nat).
Proof.
  unfold TerminateProcessing, CloseP2PSharingFd, extends, emit, frame,
    p2p_off.
  destruct (writer_ s) eqn:Ew; destruct (delegate_ s) eqn:Ed; simpl;
    rewrite ?Ed; simpl;
    destruct (p2p_sharing_fd_ s =? -1) eqn:Efd; simpl; tests;
    eexists; (split; [news|]); repeat split; auto; congruence.
Qed.

Lemma TerminateProcessing_writes_nothing s news :
  extends s (TerminateProcessing s) news -> count is_p2p_write news = 0%nat.
Proof.
  unfold extends, TerminateProcessing, CloseP2PSharingFd, emit.
  destruct (writer_ s), (delegate_ s) eqn:Ed; simpl; rewrite ?Ed; simpl;
    destruct (p2p_sharing_fd_ s =? -1); simpl; rewrite <- ?app_assoc;
    intros Et; apply app_inv_head in Et; subst news; reflexivity.
Qed.

(** Where [ReceivedBytes_forward] ends, case by case: [counted] is the
    state once the bytes are counted and the delegate told. *)
Lemma ReceivedBytes_forward_cases bytes s :
  system_state_ s = true -> crashed s = false ->
  let counted :=
    let s1 :=
      set_bytes_received_ (to_uint64 (bytes_received_ s + blen bytes)) s in
    if delegate_ s then
      emit (c_BytesReceived (to_uint64 (bytes_received_ s + blen bytes))
              (payload_size (install_plan_ s))) s1
    else s1 in
  match writer_ s with
  | None =>
    ReceivedBytes_forward bytes s = ReceivedBytes_promote counted
  | Some _ =>
    let ok := fst (writer_Write (log counted) bytes) in
    let error := snd (writer_Write (log counted) bytes) in
    let written :=
      set_code_ error (emit (c_Write bytes ok error) counted) in
    if ok then
      ReceivedBytes_forward bytes s = ReceivedBytes_promote written
    else
      ReceivedBytes_forward bytes s =
      TerminateProcessing
        (if negb (String.eqb (p2p_file_id_ s) "") then
           CloseP2PSharingFd true written
         else written)
  end.
Proof.
  intros Hs Hc. unfold ReceivedBytes_forward. rewrite Hc. cbv zeta.
  destruct (delegate_ s) eqn:Ed; simpl; rewrite ?Ed; simpl;
    destruct (writer_ s) eqn:Ew; simpl; try reflexivity;
    match goal with
    | |- context [writer_Write ?l ?b] =>
      destruct (writer_Write l b) as [ok error]
    end; simpl; destruct ok; simpl; try reflexivity;
    destruct (String.eqb (p2p_file_id_ s) ""); simpl; rewrite ?Hc;
    try reflexivity;
    match goal with
    | |- context [CloseP2PSharingFd true ?s1] =>
      destruct (CloseP2PSharingFd_step true s1 Hs)
        as [l [[Core _] _]];
      unfold same_core in Core; decompose [and] Core;
      replace (crashed (CloseP2PSharingFd true s1)) with false
        by (simpl in *; congruence)
    end; reflexivity.
Qed.

(** *** The invariant, step by step *)

Lemma p2p_off_not_fresh s : p2p_off s -> ~ p2p_fresh s.
Proof. intros [Hid _] [F _]. contradiction. Qed.

(** More calls, none of them [FileShare], at most one of them
    [FileMakeVisible] and then with the flag going from hidden to
    visible: the invariant is kept. *)
Lemma sharing_inv_extend s s' news :
  sharing_inv s -> ~ p2p_fresh s ->
  extends s s' news ->
  system_state_ s' = true -> crashed s' = false ->
  ~ p2p_fresh s' ->
  (p2p_sharing_fd_ s' <> -1 -> p2p_file_id_ s' <> "") ->
  count is_FileShare news = 0%nat ->
  (count is_FileMakeVisible news = 0%nat /\
   p2p_visible_ s' = p2p_visible_ s \/
   count is_FileMakeVisible news = 1%nat /\
   p2p_visible_ s = false /\ p2p_visible_ s' = true) ->
  sharing_inv s'.
Proof.
  intros [Hs [Hc [Hfd [Hfresh [Nsh [Nmv Hvis]]]]]] Nf Ext Hs' Hc' Nf' Hfd'
    Zfs Cases.
  unfold extends in Ext. unfold sharing_inv.
  rewrite Ext, !count_app, Zfs.
  split; [exact Hs'|]. split; [exact Hc'|]. split; [exact Hfd'|].
  split; [intros F; contradiction|]. split; [lia|].
  destruct Cases as [[Zmv V]|[Omv [V0 V1]]].
  - rewrite Zmv, V. split; [lia|]. intros H. apply Hvis. lia.
  - rewrite Omv.
    assert (count is_FileMakeVisible (log s) = 0%nat).
    { destruct (count is_FileMakeVisible (log s)) as [|[|n]] eqn:E;
        [reflexivity| |lia].
      rewrite Hvis in V0 by reflexivity. discriminate. }
    split; [lia|]. intros _. exact V1.
Qed.

(** The forwarding part of [ReceivedBytes]. *)
Lemma ReceivedBytes_forward_step bytes s :
  sharing_inv s -> ~ p2p_fresh s ->
  sharing_inv (ReceivedBytes_forward bytes s) /\
  ~ p2p_fresh (ReceivedBytes_forward bytes s) /\
  frame s (ReceivedBytes_forward bytes s) /\
  output_object (ReceivedBytes_forward bytes s) = output_object s /\
  bytes_received_ (ReceivedBytes_forward bytes s) =
    to_uint64 (bytes_received_ s + blen bytes) /\
  exists news,
    extends s (ReceivedBytes_forward bytes s) news /\
    completions news = [] /\
    count is_FileShare news = 0%nat /\
    count is_VerifyPayload news = 0%nat /\
    (p2p_off s ->
     p2p_off (ReceivedBytes_forward bytes s) /\
     count is_p2p_file_call news = 0%nat).
Proof.
  intros Inv Nf. pose proof Inv as [Hs [Hc [Hfd _]]].
  pose proof (ReceivedBytes_forward_cases bytes s Hs Hc) as Cases.
  cbv zeta in Cases.
  set (counted :=
         if delegate_ s then
           emit (c_BytesReceived (to_uint64 (bytes_received_ s + blen bytes))
                   (payload_size (install_plan_ s)))
             (set_bytes_received_
                (to_uint64 (bytes_received_ s + blen bytes)) s)
         else
           set_bytes_received_ (to_uint64 (bytes_received_ s + blen bytes))
             s) in *.
  (* the state once the bytes are counted, and once they are written *)
  assert (Counted : exists l0,
    extends s counted l0 /\ completions l0 = [] /\
    count is_FileShare l0 = 0%nat /\ count is_VerifyPayload l0 = 0%nat /\
    count is_p2p_file_call l0 = 0%nat /\
    count is_FileMakeVisible l0 = 0%nat /\
    frame s counted /\ output_object counted = output_object s /\
    bytes_received_ counted = to_uint64 (bytes_received_ s + blen bytes) /\
    crashed counted = false /\
    p2p_file_id_ counted = p2p_file_id_ s /\
    p2p_sharing_fd_ counted = p2p_sharing_fd_ s /\
    p2p_visible_ counted = p2p_visible_ s /\
    writer_ counted = writer_ s).
  { subst counted. destruct (delegate_ s) eqn:Ed; eexists;
      (split; [unfold extends; simpl; news|]);
      unfold frame; simpl; repeat split; auto. }
  destruct Counted
    as [l0 [E0 [C0 [F0 [V0 [P0 [M0 [Fr0 [O0 [B0 [K0 [I0 [D0 [Vi0 W0]]]]]]]]]]]]]].
  (* what follows a state [x] reached by calls [lx] that are neither
     file calls nor completions *)
  assert (Promote : forall x lx,
    extends s x lx -> completions lx = [] ->
    count is_FileShare lx = 0%nat -> count is_VerifyPayload lx = 0%nat ->
    count is_p2p_file_call lx = 0%nat ->
    count is_FileMakeVisible lx = 0%nat ->
    frame s x -> output_object x = output_object s ->
    bytes_received_ x = to_uint64 (bytes_received_ s + blen bytes) ->
    crashed x = false ->
    p2p_file_id_ x = p2p_file_id_ s ->
    p2p_sharing_fd_ x = p2p_sharing_fd_ s ->
    p2p_visible_ x = p2p_visible_ s ->
    sharing_inv (ReceivedBytes_promote x) /\
    ~ p2p_fresh (ReceivedBytes_promote x) /\
    frame s (ReceivedBytes_promote x) /\
    output_object (ReceivedBytes_promote x) = output_object s /\
    bytes_received_ (ReceivedBytes_promote x) =
      to_uint64 (bytes_received_ s + blen bytes) /\
    exists news,
      extends s (ReceivedBytes_promote x) news /\
      completions news = [] /\
      count is_FileShare news = 0%nat /\
      count is_VerifyPayload news = 0%nat /\
      (p2p_off s ->
       p2p_off (ReceivedBytes_promote x) /\
       count is_p2p_file_call news = 0%nat)).
  { intros x lx Ex Cx Fx Vx Px Mx Frx Ox Bx Kx Ix Dx Vix.
    assert (Hsx : system_state_ x = true)
      by (destruct Frx as [H _]; congruence).
    destruct (ReceivedBytes_promote_step x Hsx)
      as [lp [Core [Ip [Dp [Ep [Cp [Pp [Wp [Vp Mp]]]]]]]]].
    unfold same_core in Core. decompose [and] Core.
    unfold frame in Frx. decompose [and] Frx.
    assert (Nfp : ~ p2p_fresh (ReceivedBytes_promote x)).
    { intros [F1 F2]. apply Nf. split; congruence. }
    assert (Zfs : count is_FileShare lp = 0%nat).
    { destruct Mp as [[Z _]|[-> _]]; [|reflexivity].
      unfold count in *.
      assert (Sub : forall l, List.length (filter is_p2p_file_call l) = 0%nat
                      -> List.length (filter is_FileShare l) = 0%nat).
      { induction l as [|c l IH]; [reflexivity|]. simpl.
        destruct c; simpl; try exact IH; discriminate. }
      apply Sub. exact Pp. }
    assert (Ext : extends s (ReceivedBytes_promote x) (lx ++ lp)).
    { unfold extends in *. rewrite Ep, Ex, app_assoc. reflexivity. }
    split.
    { apply (sharing_inv_extend s _ (lx ++ lp) Inv Nf Ext);
        try congruence.
      - intros F. rewrite Ip, Ix. apply Hfd. congruence.
      - rewrite count_app, Fx, Zfs. reflexivity.
      - rewrite count_app, Mx.
        destruct Mp as [[Z V]|[-> [Va [Vb _]]]]; [left|right];
          simpl; repeat split; first [reflexivity|congruence]. }
    split; [exact Nfp|].
    split; [unfold frame; repeat split; congruence|].
    split; [congruence|]. split; [congruence|].
    exists (lx ++ lp). split; [exact Ext|].
    rewrite completions_app, !count_app, Cx, Cp, Fx, Zfs, Vx, Vp, Px, Pp.
    split; [reflexivity|]. split; [reflexivity|]. split; [reflexivity|].
    intros [Hid Hfd0]. split; [split; congruence|reflexivity]. }
  destruct (writer_ s) as [w|] eqn:Ew.
  - set (ok := fst (writer_Write (log counted) bytes)) in *.
    set (error := snd (writer_Write (log counted) bytes)) in *.
    set (written := set_code_ error (emit (c_Write bytes ok error) counted))
      in *.
    assert (Ew0 : extends s written (l0 ++ [c_Write bytes ok error])).
    { unfold extends in *. subst written. simpl. rewrite E0.
      rewrite app_assoc. reflexivity. }
    assert (Written :
      frame s written /\ output_object written = output_object s /\
      bytes_received_ written =
        to_uint64 (bytes_received_ s + blen bytes) /\
      crashed written = false /\
      p2p_file_id_ written = p2p_file_id_ s /\
      p2p_sharing_fd_ written = p2p_sharing_fd_ s /\
      p2p_visible_ written = p2p_visible_ s /\
      system_state_ written = true).
    { subst written. unfold frame in *. simpl.
      decompose [and] Fr0. repeat split; congruence. }
    destruct Written as [Frw [Ow [Bw [Kw [Iw [Dw [Vw Hsw]]]]]]].
    clearbody written.
    destruct ok eqn:Eok.
    + rewrite Cases.
      apply (Promote written (l0 ++ [c_Write bytes true error]) Ew0);
        rewrite ?completions_app, ?count_app, ?C0, ?F0, ?V0, ?P0, ?M0;
        try reflexivity; try assumption.
    + rewrite Cases.
      set (dropped :=
             if negb (String.eqb (p2p_file_id_ s) "") then
               CloseP2PSharingFd true written
             else written) in *.
      assert (Dropped : exists ld,
        p2p_step written dropped ld /\
        p2p_visible_ dropped = p2p_visible_ written /\
        count is_FileShare ld = 0%nat /\
        (p2p_file_id_ s = "" -> ld = [] /\ dropped = written) /\
        (p2p_sharing_fd_ dropped <> -1 -> p2p_file_id_ dropped <> "")).
      { subst dropped.
        destruct (String.eqb (p2p_file_id_ s) "") eqn:Eid; simpl negb;
          cbv iota; tests.
        - exists []. split; [apply p2p_step_refl|].
          split; [reflexivity|]. split; [reflexivity|].
          split; [auto|]. rewrite Dw, Iw. exact Hfd.
        - destruct (CloseP2PSharingFd_step true written Hsw)
            as [l [St [[Off1 Off2] [Vis [Nsh _]]]]].
          exists l. split; [exact St|]. split; [exact Vis|].
          split; [exact Nsh|]. split; [intros F; contradiction|].
          intros F. contradiction. }
      clearbody dropped.
      destruct Dropped as [ld [[Core [Ed Kd]] [Vd [Fd [Idd Hfdd]]]]].
      destruct (p2p_calls_quiet _ Kd) as [Cd [Md [_ Vpd]]].
      destruct (TerminateProcessing_step dropped)
        as [lt [Et [Frt [Ct [Bt [Vt [Ot [Kt [Wt [Offt
              [Cpt [Fst [Mvt [Unt [Wrt [Vpt [Lt Pt]]]]]]]]]]]]]]]]].
      unfold same_core in Core. decompose [and] Core.
      unfold frame in Frt, Frw. decompose [and] Frt. decompose [and] Frw.
      assert (Ext : extends s (TerminateProcessing dropped)
                      ((l0 ++ [c_Write bytes false error]) ++ ld ++ lt)).
      { unfold extends in *. rewrite Et, Ed, Ew0, !app_assoc.
        reflexivity. }
      split.
      { apply (sharing_inv_extend s _ _ Inv Nf Ext).
        - congruence.
        - congruence.
        - apply p2p_off_not_fresh. exact Offt.
        - destruct Offt as [_ F]. intros G. contradiction.
        - rewrite !count_app, F0, Fd, Fst. reflexivity.
        - left. rewrite !count_app, M0, Md, Mvt.
          split; [reflexivity|]. congruence. }
      split; [apply p2p_off_not_fresh; exact Offt|].
      split; [unfold frame; repeat split; congruence|].
      split; [congruence|].
      split; [congruence|].
      eexists. split; [exact Ext|].
      rewrite !completions_app, !count_app, C0, Cd, Cpt, F0, Fd, Fst, V0,
        Vpd, Vpt, P0.
      split; [reflexivity|]. split; [reflexivity|]. split; [reflexivity|].
      intros [Hid Hfd0]. split; [exact Offt|].
      destruct (Idd Hid) as [-> Hdw]. simpl.
      apply Pt. rewrite Hdw. congruence.
  - rewrite Cases.
    apply (Promote counted l0); assumption.
Qed.

(** The forwarding part of [ReceivedBytes] when there is a writer: the
    writer is called once, on [bytes], after the delegate; [code_] is
    what it stored; when it refuses the bytes the P2P file is deleted,
    if there is one, and the action terminates itself without
    completing. *)
Lemma ReceivedBytes_forward_write bytes s w :
  system_state_ s = true -> crashed s = false -> writer_ s = Some w ->
  exists before ok error after,
    extends s (ReceivedBytes_forward bytes s)
      (before ++ c_Write bytes ok error :: after) /\
    (ok, error) = writer_Write (log s ++ before) bytes /\
    count is_Write before = 0%nat /\
    count is_unlink before = 0%nat /\
    count is_p2p_write before = 0%nat /\
    completions before = [] /\
    count is_Write after = 0%nat /\ completions after = [] /\
    count is_p2p_write after = 0%nat /\
    code_ (ReceivedBytes_forward bytes s) = error /\
    (ok = true ->
     writer_ (ReceivedBytes_forward bytes s) = Some w /\
     count is_unlink after = 0%nat) /\
    (ok = false ->
     writer_ (ReceivedBytes_forward bytes s) = None /\
     p2p_off (ReceivedBytes_forward bytes s) /\
     last after c_set_delegate = c_TerminateTransfer /\
     count is_FileMakeVisible after = 0%nat /\
     count is_unlink after =
       (if String.eqb (p2p_file_id_ s) "" then 0 else 1)%nat).
Proof.
  intros Hs Hc Ew.
  pose proof (ReceivedBytes_forward_cases bytes s Hs Hc) as Cases.
  cbv zeta in Cases. rewrite Ew in Cases.
  set (counted :=
         if delegate_ s then
           emit (c_BytesReceived (to_uint64 (bytes_received_ s + blen bytes))
                   (payload_size (install_plan_ s)))
             (set_bytes_received_
                (to_uint64 (bytes_received_ s + blen bytes)) s)
         else
           set_bytes_received_ (to_uint64 (bytes_received_ s + blen bytes))
             s) in *.
  assert (Counted : exists l0,
    extends s counted l0 /\ completions l0 = [] /\
    count is_Write l0 = 0%nat /\ count is_unlink l0 = 0%nat /\
    count is_p2p_write l0 = 0%nat /\
    system_state_ counted = true /\
    p2p_file_id_ counted = p2p_file_id_ s /\
    writer_ counted = writer_ s).
  { subst counted. destruct (delegate_ s) eqn:Ed; eexists;
      (split; [unfold extends; simpl; news|]);
      simpl; repeat split; auto. }
  destruct Counted as [l0 [E0 [C0 [W0 [U0 [P0 [S0 [I0 Wr0]]]]]]]].
  unfold extends in E0.
  destruct (writer_Write (log counted) bytes) as [ok error] eqn:Eww.
  simpl fst in Cases. simpl snd in Cases.
  set (written := set_code_ error (emit (c_Write bytes ok error) counted))
    in *.
  assert (Written :
    log written = log s ++ l0 ++ [c_Write bytes ok error] /\
    code_ written = error /\ writer_ written = Some w /\
    system_state_ written = true /\
    p2p_file_id_ written = p2p_file_id_ s).
  { subst written. simpl. rewrite E0, <- app_assoc.
    repeat split; congruence. }
  destruct Written as [Lw [Cw [Ww [Sw Iw]]]].
  clearbody written. clearbody counted.
  exists l0, ok, error.
  destruct ok.
  - rewrite Cases.
    destruct (ReceivedBytes_promote_step written Sw)
      as [lp [Core [Ip [Dp [Ep [Cp [Pp [Wp [Vp Mp]]]]]]]]].
    unfold same_core in Core. decompose [and] Core.
    exists lp.
    split.
    { unfold extends in *. rewrite Ep, Lw, <- !app_assoc. reflexivity. }
    split; [rewrite <- E0; congruence|].
    split; [exact W0|]. split; [exact U0|]. split; [exact P0|].
    split; [exact C0|]. split; [exact Wp|]. split; [exact Cp|].
    assert (Sub : forall f,
      (forall c, f c = true -> is_p2p_file_call c = true) ->
      count f lp = 0%nat).
    { intros f Hf. clear - Pp Hf. unfold count in *.
      induction lp as [|c l IH]; [reflexivity|]. simpl in *.
      destruct (is_p2p_file_call c) eqn:E; [discriminate Pp|].
      destruct (f c) eqn:F; [rewrite (Hf c F) in E; discriminate E|].
      exact (IH Pp). }
    split; [apply Sub; intros []; simpl; congruence|].
    split; [congruence|].
    split; [|intros F; discriminate F].
    intros _. split; [congruence|].
    apply Sub. intros []; simpl; congruence.
  - rewrite Cases.
    set (dropped :=
           if negb (String.eqb (p2p_file_id_ s) "") then
             CloseP2PSharingFd true written
           else written) in *.
    assert (Dropped : exists ld,
      p2p_step written dropped ld /\
      count is_p2p_write ld = 0%nat /\
      count is_unlink ld =
        (if String.eqb (p2p_file_id_ s) "" then 0 else 1)%nat).
    { subst dropped.
      destruct (String.eqb (p2p_file_id_ s) "") eqn:Eid; simpl negb;
        cbv iota.
      - exists []. split; [apply p2p_step_refl|]. split; reflexivity.
      - destruct (CloseP2PSharingFd_step true written Sw)
          as [l [St [_ [_ [_ [Nwr [Nun _]]]]]]].
        exists l. split; [exact St|]. split; assumption. }
    clearbody dropped.
    destruct Dropped as [ld [[Core [Ed Kd]] [Pd Ud]]].
    destruct (p2p_calls_quiet _ Kd) as [Cd [Md [Wd _]]].
    destruct (TerminateProcessing_step dropped)
      as [lt [Et [Frt [Ct [Bt [Vt [Ot [Kt [Wt [Offt
            [Cpt [Fst [Mvt [Unt [Wrt [Vpt [Lt Pt]]]]]]]]]]]]]]]]].
    unfold same_core in Core. decompose [and] Core.
    assert (Nlt : lt <> []).
    { intros F. rewrite F in Lt. simpl in Lt. discriminate Lt. }
    assert (Plt : count is_p2p_write lt = 0%nat)
      by (apply (TerminateProcessing_writes_nothing dropped lt Et)).
    exists (ld ++ lt).
    split.
    { unfold extends in *. rewrite Et, Ed, Lw, <- !app_assoc.
      reflexivity. }
    split; [rewrite <- E0; congruence|].
    split; [exact W0|]. split; [exact U0|]. split; [exact P0|].
    split; [exact C0|].
    rewrite !count_app, completions_app, Wd, Wrt, Cd, Cpt, Md, Mvt, Ud,
      Unt, Pd, Plt, !Nat.add_0_r.
    split; [reflexivity|]. split; [reflexivity|]. split; [reflexivity|].
    split; [congruence|].
    split; [intros F; discriminate F|].
    intros _. split; [exact Wt|]. split; [exact Offt|].
    split; [|split; reflexivity].
    clear - Nlt Lt. induction ld as [|c l IH]; [exact Lt|].
    simpl. destruct (l ++ lt) eqn:E; [|exact IH].
    apply app_eq_nil in E. destruct E as [_ E]. contradiction.
Qed.

(** *** [TransferComplete] *)

(** Where [TransferComplete] ends, case by case: [closed] is the state
    once the writer is closed and the delegate told; [report] is the
    last two statements. *)
Lemma TransferComplete_cases successful s :
  system_state_ s = true -> crashed s = false ->
  let closed :=
    let s1 :=
      match writer_ s with
      | Some _ => set_writer_ None (emit (c_Close (writer_Close (log s))) s)
      | None => s
      end in
    if delegate_ s then emit (c_SetDownloadStatus false) s1 else s1 in
  let report code x :=
    emit (c_ActionComplete code)
      (if ErrorCode_eqb code kSuccess && has_output_pipe s
       then set_output_object (Some (install_plan_ s)) x else x) in
  let expected_hash := payload_hash (install_plan_ s) in
  let expected_size := payload_size (install_plan_ s) in
  let code :=
    performer_VerifyPayload (log closed) expected_hash expected_size in
  let verified :=
    emit (c_VerifyPayload expected_hash expected_size code) closed in
  TransferComplete successful s =
  if successful then
    if delta_performer_ s then
      if ErrorCode_eqb code kSuccess then report code verified
      else
        report code
          (if negb (String.eqb (p2p_file_id_ s) "")
           then CloseP2PSharingFd true verified else verified)
    else report kSuccess closed
  else report kDownloadTransferError closed.
Proof.
  intros Hs Hc. unfold TransferComplete. cbv zeta.
  set (closed :=
         if delegate_ s then
           emit (c_SetDownloadStatus false)
             match writer_ s with
             | Some _ =>
               set_writer_ None (emit (c_Close (writer_Close (log s))) s)
             | None => s
             end
         else
           match writer_ s with
           | Some _ =>
             set_writer_ None (emit (c_Close (writer_Close (log s))) s)
           | None => s
           end).
  assert (Closed :
    delta_performer_ closed = delta_performer_ s /\
    install_plan_ closed = install_plan_ s /\
    p2p_file_id_ closed = p2p_file_id_ s /\
    has_output_pipe closed = has_output_pipe s /\
    crashed closed = false /\ system_state_ closed = true).
  { subst closed. destruct (delegate_ s), (writer_ s); simpl;
      repeat split; assumption. }
  destruct Closed as [Dc [Pc [Ic [Oc [Kc Sc]]]]].
  replace (if delegate_
                match writer_ s with
                | Some _ =>
                  set_writer_ None
                    (emit (c_Close (writer_Close (log s))) s)
                | None => s
                end
           then
             emit (c_SetDownloadStatus false)
               match writer_ s with
               | Some _ =>
                 set_writer_ None
                   (emit (c_Close (writer_Close (log s))) s)
               | None => s
               end
           else
             match writer_ s with
             | Some _ =>
               set_writer_ None (emit (c_Close (writer_Close (log s))) s)
             | None => s
             end) with closed
    by (subst closed; destruct (writer_ s); reflexivity).
  clearbody closed.
  destruct successful; simpl ErrorCode_eqb; simpl andb; cbv iota.
  - rewrite Dc. destruct (delta_performer_ s); cbv iota.
    + rewrite Pc.
      destruct (ErrorCode_eqb (performer_VerifyPayload _ _ _) kSuccess)
        eqn:Ec; simpl negb; cbv iota.
      * simpl. rewrite Kc, Oc, Pc, ?Ec. reflexivity.
      * simpl p2p_file_id_. rewrite Ic.
        destruct (String.eqb (p2p_file_id_ s) ""); simpl negb; cbv iota.
        -- simpl. rewrite Kc, Oc, Pc, ?Ec. reflexivity.
        -- match goal with
           | |- context [CloseP2PSharingFd true ?x] =>
             destruct (CloseP2PSharingFd_step true x Sc)
               as [l [[Core _] _]];
             unfold same_core in Core; decompose [and] Core;
             set (y := CloseP2PSharingFd true x) in *
           end.
           simpl in *.
           replace (crashed y) with false by congruence.
           replace (has_output_pipe y) with (has_output_pipe s)
             by congruence.
           replace (install_plan_ y) with (install_plan_ s) by congruence.
           rewrite ?Ec. reflexivity.
    + rewrite Kc, Oc, Pc. reflexivity.
  - rewrite Kc, Oc, Pc. reflexivity.
Qed.

(** What [TransferComplete] does, in full: it closes the writer and
    tells the delegate ([closing]); after a successful transfer with a
    [DeltaPerformer] it verifies the payload ([verifying]) and, when the
    verification fails and there is a P2P file id, closes and deletes
    the P2P file ([deleting]); its last call reports [code] to the
    processor. *)
Lemma TransferComplete_shape successful s :
  system_state_ s = true -> crashed s = false ->
  let expected_hash := payload_hash (install_plan_ s) in
  let expected_size := payload_size (install_plan_ s) in
  exists closing code verifying deleting,
    let needs_delete :=
      successful && delta_performer_ s &&
      negb (ErrorCode_eqb code kSuccess) &&
      negb (String.eqb (p2p_file_id_ s) "") in
    extends s (TransferComplete successful s)
      (closing ++ verifying ++ deleting ++ [c_ActionComplete code]) /\
    (completions closing = [] /\ count is_FileShare closing = 0%nat /\
     count is_FileMakeVisible closing = 0%nat /\
     count is_VerifyPayload closing = 0%nat /\
     count is_p2p_file_call closing = 0%nat /\
     count is_Write closing = 0%nat) /\
    code =
      (if successful then
         if delta_performer_ s then
           performer_VerifyPayload (log s ++ closing) expected_hash
             expected_size
         else kSuccess
       else kDownloadTransferError) /\
    verifying =
      (if successful && delta_performer_ s
       then [c_VerifyPayload expected_hash expected_size code] else []) /\
    (Forall (fun c => is_p2p_file_call c = true) deleting /\
     count is_FileShare deleting = 0%nat /\
     count is_unlink deleting = (if needs_delete then 1 else 0)%nat /\
     (needs_delete = false -> deleting = [])) /\
    (frame s (TransferComplete successful s) /\
     writer_ (TransferComplete successful s) = None /\
     code_ (TransferComplete successful s) = code_ s /\
     bytes_received_ (TransferComplete successful s) = bytes_received_ s /\
     p2p_visible_ (TransferComplete successful s) = p2p_visible_ s /\
     crashed (TransferComplete successful s) = false) /\
    output_object (TransferComplete successful s) =
      (if ErrorCode_eqb code kSuccess && has_output_pipe s
       then Some (install_plan_ s) else output_object s) /\
    (if needs_delete then p2p_off (TransferComplete successful s)
     else
       p2p_file_id_ (TransferComplete successful s) = p2p_file_id_ s /\
       p2p_sharing_fd_ (TransferComplete successful s) =
         p2p_sharing_fd_ s).
Proof.
  intros Hs Hc expected_hash expected_size.
  rewrite (TransferComplete_cases successful s Hs Hc). cbv zeta.
  set (closed :=
         if delegate_ s then
           emit (c_SetDownloadStatus false)
             match writer_ s with
             | Some _ =>
               set_writer_ None (emit (c_Close (writer_Close (log s))) s)
             | None => s
             end
         else
           match writer_ s with
           | Some _ =>
             set_writer_ None (emit (c_Close (writer_Close (log s))) s)
           | None => s
           end).
  assert (Closed : exists closing,
    extends s closed closing /\
    (completions closing = [] /\ count is_FileShare closing = 0%nat /\
     count is_FileMakeVisible closing = 0%nat /\
     count is_VerifyPayload closing = 0%nat /\
     count is_p2p_file_call closing = 0%nat /\
     count is_Write closing = 0%nat) /\
    frame s closed /\ writer_ closed = None /\ code_ closed = code_ s /\
    bytes_received_ closed = bytes_received_ s /\
    p2p_visible_ closed = p2p_visible_ s /\ crashed closed = false /\
    output_object closed = output_object s /\
    p2p_file_id_ closed = p2p_file_id_ s /\
    p2p_sharing_fd_ closed = p2p_sharing_fd_ s).
  { subst closed. unfold frame, extends.
    destruct (delegate_ s) eqn:Ed, (writer_ s) eqn:Ew; simpl;
      eexists; (split; [news|]); repeat split; auto. }
  destruct Closed
    as [closing [E0 [Q0 [Fr0 [W0 [C0 [B0 [V0 [K0 [O0 [I0 D0]]]]]]]]]]].
  clearbody closed. unfold extends in E0.
  fold expected_hash. fold expected_size.
  unfold frame in Fr0. decompose [and] Fr0.
  (* reporting [code] after [x], reached from [closed] *)
  assert (Report : forall code x,
    same_core closed x -> p2p_visible_ x = p2p_visible_ closed ->
    frame s (emit (c_ActionComplete code)
               (if ErrorCode_eqb code kSuccess && has_output_pipe s
                then set_output_object (Some (install_plan_ s)) x else x))
    /\ writer_ (emit (c_ActionComplete code)
               (if ErrorCode_eqb code kSuccess && has_output_pipe s
                then set_output_object (Some (install_plan_ s)) x else x))
       = None
    /\ code_ (emit (c_ActionComplete code)
               (if ErrorCode_eqb code kSuccess && has_output_pipe s
                then set_output_object (Some (install_plan_ s)) x else x))
       = code_ s
    /\ bytes_received_ (emit (c_ActionComplete code)
               (if ErrorCode_eqb code kSuccess && has_output_pipe s
                then set_output_object (Some (install_plan_ s)) x else x))
       = bytes_received_ s
    /\ p2p_visible_ (emit (c_ActionComplete code)
               (if ErrorCode_eqb code kSuccess && has_output_pipe s
                then set_output_object (Some (install_plan_ s)) x else x))
       = p2p_visible_ s
    /\ crashed (emit (c_ActionComplete code)
               (if ErrorCode_eqb code kSuccess && has_output_pipe s
                then set_output_object (Some (install_plan_ s)) x else x))
       = false).
  { intros code x Core Vx. unfold same_core in Core.
    decompose [and] Core. unfold frame.
    destruct (ErrorCode_eqb code kSuccess && has_output_pipe s); simpl;
      repeat split; congruence. }
  assert (Out : forall code x,
    output_object x = output_object s ->
    output_object
      (emit (c_ActionComplete code)
         (if ErrorCode_eqb code kSuccess && has_output_pipe s
          then set_output_object (Some (install_plan_ s)) x else x)) =
    (if ErrorCode_eqb code kSuccess && has_output_pipe s
     then Some (install_plan_ s) else output_object s)).
  { intros code x Ox.
    destruct (ErrorCode_eqb code kSuccess && has_output_pipe s); simpl;
      congruence. }
  assert (Log : forall code x,
    log (emit (c_ActionComplete code)
           (if ErrorCode_eqb code kSuccess && has_output_pipe s
            then set_output_object (Some (install_plan_ s)) x else x)) =
    log x ++ [c_ActionComplete code]).
  { intros code x.
    destruct (ErrorCode_eqb code kSuccess && has_output_pipe s);
      reflexivity. }
  assert (Ids : forall code x,
    p2p_file_id_ (emit (c_ActionComplete code)
           (if ErrorCode_eqb code kSuccess && has_output_pipe s
            then set_output_object (Some (install_plan_ s)) x else x)) =
    p2p_file_id_ x /\
    p2p_sharing_fd_ (emit (c_ActionComplete code)
           (if ErrorCode_eqb code kSuccess && has_output_pipe s
            then set_output_object (Some (install_plan_ s)) x else x)) =
    p2p_sharing_fd_ x).
  { intros code x.
    destruct (ErrorCode_eqb code kSuccess && has_output_pipe s);
      split; reflexivity. }
  (* the cases without deletion *)
  assert (Plain : forall code verifying x,
    same_core closed x -> p2p_visible_ x = p2p_visible_ closed ->
    p2p_file_id_ x = p2p_file_id_ closed ->
    p2p_sharing_fd_ x = p2p_sharing_fd_ closed ->
    log x = log closed ++ verifying ->
    code =
      (if successful then
         if delta_performer_ s then
           performer_VerifyPayload (log closed) expected_hash expected_size
         else kSuccess
       else kDownloadTransferError) ->
    verifying =
      (if successful && delta_performer_ s
       then [c_VerifyPayload expected_hash expected_size code] else []) ->
    successful && delta_performer_ s &&
      negb (ErrorCode_eqb code kSuccess) &&
      negb (String.eqb (p2p_file_id_ s) "") = false ->
    forall s',
    s' = emit (c_ActionComplete code)
           (if ErrorCode_eqb code kSuccess && has_output_pipe s
            then set_output_object (Some (install_plan_ s)) x else x) ->
    exists closing0 code0 verifying0 deleting0,
      let needs_delete :=
        successful && delta_performer_ s &&
        negb (ErrorCode_eqb code0 kSuccess) &&
        negb (String.eqb (p2p_file_id_ s) "") in
      extends s s'
        (closing0 ++ verifying0 ++ deleting0 ++ [c_ActionComplete code0]) /\
      (completions closing0 = [] /\ count is_FileShare closing0 = 0%nat /\
       count is_FileMakeVisible closing0 = 0%nat /\
       count is_VerifyPayload closing0 = 0%nat /\
       count is_p2p_file_call closing0 = 0%nat /\
       count is_Write closing0 = 0%nat) /\
      code0 =
        (if successful then
           if delta_performer_ s then
             performer_VerifyPayload (log s ++ closing0) expected_hash
               expected_size
           else kSuccess
         else kDownloadTransferError) /\
      verifying0 =
        (if successful && delta_performer_ s
         then [c_VerifyPayload expected_hash expected_size code0] else []) /\
      (Forall (fun c => is_p2p_file_call c = true) deleting0 /\
       count is_FileShare deleting0 = 0%nat /\
       count is_unlink deleting0 = (if needs_delete then 1 else 0)%nat /\
       (needs_delete = false -> deleting0 = [])) /\
      (frame s s' /\ writer_ s' = None /\ code_ s' = code_ s /\
       bytes_received_ s' = bytes_received_ s /\
       p2p_visible_ s' = p2p_visible_ s /\ crashed s' = false) /\
      output_object s' =
        (if ErrorCode_eqb code0 kSuccess && has_output_pipe s
         then Some (install_plan_ s) else output_object s) /\
      (if needs_delete then p2p_off s'
       else
         p2p_file_id_ s' = p2p_file_id_ s /\
         p2p_sharing_fd_ s' = p2p_sharing_fd_ s)).
  { intros code verifying x Core Vx Ix Dx Lx Ecode Everif Nd s' ->.
    exists closing, code, verifying, []. cbv zeta. rewrite Nd.
    split.
    { unfold extends. rewrite Log, Lx, E0, <- !app_assoc.
      reflexivity. }
    split; [exact Q0|]. split; [rewrite <- E0; exact Ecode|].
    split; [exact Everif|].
    split; [repeat split; constructor|].
    split; [apply (Report code x Core Vx)|].
    split.
    { apply Out. unfold same_core in Core. decompose [and] Core.
      congruence. }
    destruct (Ids code x) as [J1 J2]. split; congruence. }
  destruct successful; simpl andb; cbv iota.
  - destruct (delta_performer_ s) eqn:Edp; cbv iota.
    + set (code := performer_VerifyPayload (log closed) expected_hash
                     expected_size).
      set (verified :=
             emit (c_VerifyPayload expected_hash expected_size code) closed).
      destruct (ErrorCode_eqb code kSuccess) eqn:Ec; simpl negb; cbv iota.
      * apply (Plain code [c_VerifyPayload expected_hash expected_size code]
                 verified);
          try (rewrite ?Ec; reflexivity).
        repeat split.
      * destruct (String.eqb (p2p_file_id_ s) "") eqn:Eid; simpl negb;
          cbv iota.
        -- apply (Plain code
                    [c_VerifyPayload expected_hash expected_size code]
                    verified);
             try (rewrite ?Ec, ?Eid; reflexivity).
           repeat split.
        -- assert (Sv : system_state_ verified = true)
             by (subst verified; simpl; congruence).
           destruct (CloseP2PSharingFd_step true verified Sv)
             as [deleting [[Core [Ed Kd]] [Off [Vis [Nsh [Nwr [Nun _]]]]]]].
           set (y := CloseP2PSharingFd true verified) in *.
           clearbody y.
           exists closing, code,
             [c_VerifyPayload expected_hash expected_size code], deleting.
           cbv zeta. rewrite ?Ec, ?Eid. simpl andb. simpl negb.
           cbv iota.
           assert (Core' : same_core closed y).
           { apply (same_core_trans _ verified); [|exact Core].
             subst verified. repeat split. }
           unfold same_core in Core'. decompose [and] Core'.
           assert (Vy : p2p_visible_ y = p2p_visible_ closed)
             by (subst verified; simpl in Vis; congruence).
           split.
           { unfold extends in *. simpl. rewrite Ed. subst verified. simpl.
             rewrite E0, <- !app_assoc. reflexivity. }
           split; [exact Q0|]. split; [rewrite <- E0; reflexivity|].
           split; [reflexivity|].
           split; [split; [exact Kd|split; [exact Nsh|split;
                   [exact Nun|discriminate]]]|].
           split; [unfold frame; simpl; repeat split; congruence|].
           split; [simpl; congruence|].
           exact Off.
    + apply (Plain kSuccess [] closed); try reflexivity.
      * apply same_core_refl.
      * rewrite app_nil_r. reflexivity.
  - apply (Plain kDownloadTransferError [] closed); try reflexivity.
    + apply same_core_refl.
    + rewrite app_nil_r. reflexivity.
Qed.

(** *** The callbacks, one at a time *)

(** More calls, none of them [FileShare] or [FileMakeVisible], with the
    visibility flag as it was and the P2P file either as it was or
    given up: the invariant is kept. *)
Lemma sharing_inv_quiet s s' news :
  sharing_inv s -> extends s s' news ->
  system_state_ s' = true -> crashed s' = false ->
  count is_FileShare news = 0%nat ->
  count is_FileMakeVisible news = 0%nat ->
  p2p_visible_ s' = p2p_visible_ s ->
  (p2p_off s' \/
   p2p_file_id_ s' = p2p_file_id_ s /\
   p2p_sharing_fd_ s' = p2p_sharing_fd_ s) ->
  sharing_inv s'.
Proof.
  intros [Hs [Hc [Hfd [Hfresh [Nsh [Nmv Hvis]]]]]] Ext Hs' Hc' Zfs Zmv V
    Cases.
  unfold extends in Ext. unfold sharing_inv.
  rewrite Ext, !count_app, Zfs, Zmv, !Nat.add_0_r, V.
  split; [exact Hs'|]. split; [exact Hc'|].
  split.
  { destruct Cases as [[_ F]|[I D]]; [intros G; contradiction|].
    rewrite I, D. exact Hfd. }
  split.
  { intros Fr. apply Hfresh.
    destruct Cases as [Off|[I D]];
      [exfalso; exact (p2p_off_not_fresh _ Off Fr)|].
    destruct Fr as [F1 F2]. split; congruence. }
  split; [exact Nsh|]. split; [exact Nmv|exact Hvis].
Qed.

(** What one callback does to the invariant, to the members no callback
    changes, to a P2P file that was given up, to the completions and to
    the count of bytes. *)
Lemma handle_step s e :
  sharing_inv s ->
  sharing_inv (handle s e) /\
  frame s (handle s e) /\
  (forall bytes, e = EvReceivedBytes bytes ->
   bytes_received_ (handle s e) =
     to_uint64 (bytes_received_ s + blen bytes)) /\
  exists news,
    extends s (handle s e) news /\
    (p2p_off s ->
     p2p_off (handle s e) /\ count is_p2p_file_call news = 0%nat) /\
    (is_transfer_end e = false -> completions news = []).
Proof.
  intros Inv. pose proof Inv as [Hs [Hc [Hfd _]]].
  unfold handle. rewrite Hc.
  destruct e as [offset|bytes|successful| |].
  - (* SeekToOffset *)
    split.
    { apply (sharing_inv_quiet s _ [] Inv); try reflexivity;
        try assumption.
      - unfold extends. simpl. symmetry. apply app_nil_r.
      - right. split; reflexivity. }
    split; [unfold frame; simpl; repeat split|].
    split; [intros bytes F; discriminate F|].
    exists []. split; [unfold extends; simpl; symmetry; apply app_nil_r|].
    split; [intros Off; split; [exact Off|reflexivity]|reflexivity].
  - (* ReceivedBytes *)
    rewrite ReceivedBytes_parts.
    destruct (ReceivedBytes_mirror_step bytes s Inv)
      as [lm [[Core [Em Km]] [Invm [Nfm [_ [Quiet _]]]]]].
    assert (Moff : p2p_off s -> ReceivedBytes_mirror bytes s = s).
    { intros [O1 _]. unfold ReceivedBytes_mirror. rewrite O1.
      reflexivity. }
    set (m := ReceivedBytes_mirror bytes s) in *. clearbody m.
    destruct (ReceivedBytes_forward_step bytes m Invm Nfm)
      as [Invf [_ [Frf [_ [Bf [lf [Ef [Cf [_ [_ Offf]]]]]]]]]].
    set (f := ReceivedBytes_forward bytes m) in *. clearbody f.
    destruct (p2p_calls_quiet _ Km) as [Cm _].
    unfold same_core in Core. decompose [and] Core.
    unfold frame in Frf. decompose [and] Frf.
    split; [exact Invf|].
    split; [unfold frame; repeat split; congruence|].
    split.
    { intros bytes0 F. injection F as <-. congruence. }
    exists (lm ++ lf).
    split; [unfold extends in *; rewrite Ef, Em, app_assoc; reflexivity|].
    split.
    + intros Off. pose proof Off as [Hid _].
      rewrite (Quiet Hid). simpl. apply Offf.
      rewrite (Moff Off). exact Off.
    + intros _. rewrite completions_app, Cm, Cf. reflexivity.
  - (* TransferComplete *)
    destruct (TransferComplete_shape successful s Hs Hc)
      as [closing [code [verifying [deleting Shape]]]].
    cbv zeta in Shape.
    destruct Shape
      as [Ext [[Cc [Fc [Mc [Vc [Pc Wc]]]]] [Ecode [Everif
           [[Kd [Fd [Ud Nd]]] [[Fr [W1 [C1 [B1 [V1 K1]]]]]
           [Out P2P]]]]]]].
    set (s' := TransferComplete successful s) in *. clearbody s'.
    destruct (p2p_calls_quiet _ Kd) as [Cd [Md _]].
    assert (Zv : count is_FileShare verifying = 0%nat /\
                 count is_FileMakeVisible verifying = 0%nat /\
                 count is_p2p_file_call verifying = 0%nat).
    { rewrite Everif. destruct (successful && delta_performer_ s);
        repeat split. }
    destruct Zv as [Fv [Mv Pv]].
    split.
    { apply (sharing_inv_quiet s s' _ Inv Ext).
      - destruct Fr as [F _]. congruence.
      - exact K1.
      - rewrite !count_app, Fc, Fv, Fd. reflexivity.
      - rewrite !count_app, Mc, Mv, Md. reflexivity.
      - exact V1.
      - destruct (successful && delta_performer_ s &&
                  negb (ErrorCode_eqb code kSuccess) &&
                  negb (String.eqb (p2p_file_id_ s) ""));
          [left|right]; exact P2P. }
    split; [exact Fr|].
    split; [intros bytes F; discriminate F|].
    eexists. split; [exact Ext|].
    split; [|intros F; discriminate F].
    intros Off. pose proof Off as [Hid _].
    rewrite Hid in *. rewrite String.eqb_refl in *. simpl negb in *.
    rewrite andb_false_r in *.
    rewrite (Nd eq_refl), !count_app, Pc, Pv.
    split; [|reflexivity].
    destruct P2P as [I D]. destruct Off as [O1 O2]. split; congruence.
  - (* TransferTerminated *)
    unfold TransferTerminated.
    destruct (ErrorCode_eqb (code_ s) kSuccess) eqn:Ec; simpl negb;
      cbv iota.
    + split.
      { apply (sharing_inv_quiet s s [] Inv); try reflexivity;
          try assumption.
        - unfold extends. symmetry. apply app_nil_r.
        - right. split; reflexivity. }
      split; [unfold frame; repeat split|].
      split; [intros bytes F; discriminate F|].
      exists []. split; [unfold extends; symmetry; apply app_nil_r|].
      split; [intros Off; split; [exact Off|reflexivity]|reflexivity].
    + split.
      { apply (sharing_inv_quiet s _ [c_ActionComplete (code_ s)] Inv);
          try reflexivity; try assumption.
        right. split; reflexivity. }
      split; [unfold frame; simpl; repeat split|].
      split; [intros bytes F; discriminate F|].
      exists [c_ActionComplete (code_ s)].
      split; [reflexivity|].
      split; [intros Off; split; [exact Off|reflexivity]|].
      intros F. discriminate F.
  - (* TerminateProcessing *)
    destruct (TerminateProcessing_step s)
      as [lt [Et [Frt [Ct [Bt [Vt [Ot [Kt [Wt [Offt
            [Cpt [Fst [Mvt [Unt [Wrt [Vpt [Lt Pt]]]]]]]]]]]]]]]]].
    set (s' := TerminateProcessing s) in *. clearbody s'.
    split.
    { apply (sharing_inv_quiet s s' lt Inv Et); try assumption.
      - destruct Frt as [F _]. congruence.
      - congruence.
      - left. exact Offt. }
    split; [exact Frt|].
    split; [intros bytes F; discriminate F|].
    exists lt. split; [exact Et|].
    split; [|intros _; exact Cpt].
    intros [_ O2]. split; [exact Offt|exact (Pt O2)].
Qed.

(** Evaluation of the members of a state built by the setters. *)
Ltac eval_state :=
  lazy beta iota zeta delta
    [PerformAction init emit crash set_writer_ set_delta_performer_
     set_code_ set_bytes_received_ set_p2p_sharing_fd_ set_p2p_visible_
     set_p2p_file_id_ set_install_plan_ set_output_object set_log
     set_crashed writer_ delta_performer_ code_ delegate_ bytes_received_
     p2p_sharing_fd_ p2p_visible_ p2p_file_id_ install_plan_ system_state_
     input_object has_output_pipe output_object log crashed negb].

(** [PerformAction] with an input plan and a system state: the fetcher
    is given its delegate first and is started on the URL of the plan
    last; in between nothing is completed and the P2P file is not
    created, written or made visible. *)
Lemma PerformAction_shape s plan :
  input_object s = Some plan -> system_state_ s = true ->
  exists news,
    extends s (PerformAction s) news /\
    hd_error news = Some c_set_delegate /\
    last news c_set_delegate = c_BeginTransfer (download_url plan) /\
    completions news = [] /\
    count is_FileShare news = 0%nat /\
    count is_FileMakeVisible news = 0%nat /\
    count is_p2p_write news = 0%nat /\
    (GetUsingP2PForSharing = true -> count is_unlink news = 0%nat) /\
    install_plan_ (PerformAction s) = plan /\
    bytes_received_ (PerformAction s) = 0 /\
    writer_ (PerformAction s) =
      match writer_ s with
      | Some w => Some w
      | None => Some delta_performer
      end /\
    delta_performer_ (PerformAction s) =
      match writer_ s with
      | Some _ => delta_performer_ s
      | None => true
      end /\
    p2p_file_id_ (PerformAction s) =
      (if GetUsingP2PForSharing
       then CalculateP2PFileId (payload_hash plan) (payload_size plan)
       else p2p_file_id_ s) /\
    p2p_sharing_fd_ (PerformAction s) = p2p_sharing_fd_ s /\
    p2p_visible_ (PerformAction s) = p2p_visible_ s /\
    code_ (PerformAction s) = code_ s /\
    system_state_ (PerformAction s) = true /\
    crashed (PerformAction s) = crashed s.
Proof.
  destruct s as [wr dp code dg br fd vis id ip ss inp outp outo lg cr].
  cbn [input_object system_state_]. intros -> ->. unfold extends.
  destruct GetUsingP2PForSharing eqn:EG;
    destruct (GetUsingP2PForDownloading &&
              String.eqb GetP2PUrl (download_url plan)) eqn:ED;
    destruct wr, dg;
    eval_state;
    repeat (first
      [ rewrite EG | rewrite ED
      | match goal with
        | |- context [String.eqb (p2p_FileGetPath ?l ?i) ""] =>
          destruct (String.eqb (p2p_FileGetPath l i) "")
        end ]; eval_state);
    eexists; (split; [rewrite <- !app_assoc; reflexivity|]);
    repeat split; discriminate.
Qed.

(** [PerformAction] on a fresh action with a system state and an input
    plan. *)
Lemma PerformAction_init test_writer_set delegate_set plan out_pipe :
  sharing_inv
    (PerformAction
       (init test_writer_set delegate_set true (Some plan) out_pipe)).
Proof.
  destruct (PerformAction_shape
              (init test_writer_set delegate_set true (Some plan) out_pipe)
              plan eq_refl eq_refl)
    as [news [E [_ [_ [_ [Fs [Mv [_ [_ [_ [_ [_ [_ [Id [Fd [V [_ [Hs Hc]]]]]]]]]]]]]]]]]].
  set (s := PerformAction _) in *. clearbody s.
  unfold extends in E. simpl in E, Fd, V, Hc.
  unfold sharing_inv. rewrite E, Fs, Mv.
  split; [exact Hs|]. split; [exact Hc|].
  split; [intros F; contradiction|].
  split; [intros _; repeat split; exact V|].
  split; [lia|]. split; [lia|]. intros F. discriminate F.
Qed.

(** The invariant holds in every state of a run. *)
Lemma reachable_sharing_inv test_writer_set delegate_set plan out_pipe s :
  reachable
    (init test_writer_set delegate_set true (Some plan) out_pipe) s ->
  sharing_inv s.
Proof.
  induction 1 as [|s e _ IH].
  - apply PerformAction_init.
  - apply handle_step. exact IH.
Qed.

Lemma handle_all_sharing_inv es : forall s,
  sharing_inv s -> sharing_inv (handle_all s es).
Proof.
  induction es as [|e es IH]; intros s Inv; [exact Inv|].
  simpl. apply IH. apply handle_step. exact Inv.
Qed.


Lemma handle_all_app s es es' :
  handle_all s (es ++ es') = handle_all (handle_all s es) es'.
Proof. unfold handle_all. apply fold_left_app. Qed.

(** A short P2P file: [WriteToP2PFile] deletes it and writes nothing. *)
Lemma WriteToP2PFile_short data file_offset s :
  system_state_ s = true ->
  (forall l fd, os_FileSize l fd < file_offset) ->
  exists news,
    p2p_step s (WriteToP2PFile data file_offset s) news /\
    p2p_off (WriteToP2PFile data file_offset s) /\
    count is_p2p_write news = 0%nat /\
    count is_unlink news = 1%nat.
Proof.
  intros Hs Short. unfold WriteToP2PFile.
  assert (Open : forall s1 l1,
    p2p_step s s1 l1 -> count is_unlink l1 = 0%nat ->
    count is_p2p_write l1 = 0%nat ->
    let size := os_FileSize (log s1) (p2p_sharing_fd_ s1) in
    let s2 := emit (c_FileSize (p2p_sharing_fd_ s1) size) s1 in
    exists news,
      p2p_step s (CloseP2PSharingFd true s2) news /\
      p2p_off (CloseP2PSharingFd true s2) /\
      count is_p2p_write news = 0%nat /\
      count is_unlink news = 1%nat).
  { intros s1 l1 S1 U1 W1 size s2.
    assert (S2 : p2p_step s1 s2 [c_FileSize (p2p_sharing_fd_ s1) size])
      by (apply p2p_step_emit; reflexivity).
    assert (Hs2 : system_state_ s2 = true).
    { apply (step_system_state _ _ _ S2).
      apply (step_system_state _ _ _ S1 Hs). }
    destruct (CloseP2PSharingFd_step true s2 Hs2)
      as [l [St [Off [_ [_ [Nwr [Nun _]]]]]]].
    exists (l1 ++ [c_FileSize (p2p_sharing_fd_ s1) size] ++ l).
    split; [exact (p2p_step_trans _ _ _ _ _ S1
                     (p2p_step_trans _ _ _ _ _ S2 St))|].
    split; [exact Off|].
    rewrite !count_app, U1, W1, Nwr, Nun. split; reflexivity. }
  assert (Test : forall l fd,
    (if os_FileSize l fd <? 0 then true
     else os_FileSize l fd <? file_offset) = true).
  { intros l fd. destruct (os_FileSize l fd <? 0); [reflexivity|].
    apply Z.ltb_lt. apply Short. }
  destruct (p2p_sharing_fd_ s =? -1) eqn:Efd.
  - destruct (SetupP2PSharingFd_step s Hs)
      as [l1 [S1 [N1 [W1 [Ok Ko]]]]].
    destruct (SetupP2PSharingFd s) as [s1 ok]. simpl fst in *.
    simpl snd in *.
    destruct ok; simpl negb; cbv iota.
    + destruct (Ok eq_refl) as [_ [_ U1]]. cbv zeta.
      pose proof (Test (log s1) (p2p_sharing_fd_ s1)) as T.
      destruct (os_FileSize (log s1) (p2p_sharing_fd_ s1) <? 0);
        [exact (Open s1 l1 S1 U1 W1)|].
      rewrite T. exact (Open s1 l1 S1 U1 W1).
    + destruct (Ko eq_refl) as [Off [_ U1]].
      exists l1. split; [exact S1|]. split; [exact Off|].
      split; [exact W1|exact U1].
  - cbv zeta. simpl negb. cbv iota.
    pose proof (Test (log s) (p2p_sharing_fd_ s)) as T.
    destruct (os_FileSize (log s) (p2p_sharing_fd_ s) <? 0);
      [exact (Open s [] (p2p_step_refl s) eq_refl eq_refl)|].
    rewrite T. exact (Open s [] (p2p_step_refl s) eq_refl eq_refl).
Qed.

(** *** The descriptor of the P2P file *)

Lemma fd_after_app l1 : forall fd l2,
  fd_after fd (l1 ++ l2) =
  match fd_after fd l1 with
  | Some fd' => fd_after fd' l2
  | None => None
  end.
Proof.
  induction l1 as [|c l1 IH]; intros fd l2; [reflexivity|].
  destruct c; simpl; try apply IH.
  - destruct ((fd0 =? fd) && negb (fd =? -1)); [apply IH|reflexivity].
  - destruct (fd =? -1); [apply IH|].
    destruct (fd0 =? -1); [apply IH|reflexivity].
Qed.

Lemma fd_tracked_refl s : fd_tracked s s.
Proof.
  exists []. split; [|reflexivity].
  unfold extends. rewrite app_nil_r. reflexivity.
Qed.

Lemma fd_tracked_trans s0 s1 s2 :
  fd_tracked s0 s1 -> fd_tracked s1 s2 -> fd_tracked s0 s2.
Proof.
  intros [l1 [E1 T1]] [l2 [E2 T2]]. exists (l1 ++ l2). split.
  - unfold extends in *. rewrite E2, E1, app_assoc. reflexivity.
  - rewrite fd_after_app, T1. exact T2.
Qed.

Lemma fd_tracked_same s s' :
  log s' = log s -> p2p_sharing_fd_ s' = p2p_sharing_fd_ s ->
  fd_tracked s s'.
Proof.
  intros El Ef. exists []. split.
  - unfold extends. rewrite El, app_nil_r. reflexivity.
  - simpl. rewrite Ef. reflexivity.
Qed.

(** A call that neither opens nor closes a descriptor. *)
Lemma fd_tracked_emit c s :
  is_close c = false ->
  match c with c_open _ _ => False | _ => True end ->
  fd_tracked s (emit c s).
Proof.
  intros Hc Ho. exists [c]. split; [reflexivity|].
  destruct c; simpl in *; try reflexivity; try discriminate; contradiction.
Qed.

Lemma CloseP2PSharingFd_tracked delete_p2p_file s :
  fd_tracked s (CloseP2PSharingFd delete_p2p_file s).
Proof.
  unfold CloseP2PSharingFd, fd_tracked, extends, emit, crash.
  destruct (p2p_sharing_fd_ s =? -1) eqn:Efd; simpl;
    destruct delete_p2p_file; simpl;
    destruct (system_state_ s); simpl;
    eexists; (split; [news|]); simpl;
    rewrite ?Z.eqb_refl, ?Efd; reflexivity.
Qed.

Lemma SetupP2PSharingFd_tracked s :
  p2p_sharing_fd_ s = -1 -> fd_tracked s (fst (SetupP2PSharingFd s)).
Proof.
  intros Hfd. unfold SetupP2PSharingFd.
  destruct (system_state_ s); simpl negb; cbv iota;
    [|apply fd_tracked_same; reflexivity].
  set (c1 := c_FileShare _ _ _).
  assert (T1 : fd_tracked s (emit c1 s))
    by (apply fd_tracked_emit; [reflexivity|exact I]).
  destruct (p2p_FileShare _ _ _); simpl negb; cbv iota;
    [|exact (fd_tracked_trans _ _ _ T1 (CloseP2PSharingFd_tracked _ _))].
  cbv zeta.
  set (c2 := c_open _ _).
  set (s2 := set_p2p_sharing_fd_ _ (emit c2 (emit c1 s))).
  assert (T2 : fd_tracked s s2).
  { exists [c1; c2]. split; [unfold extends; simpl; news|].
    simpl. rewrite Hfd. reflexivity. }
  destruct (p2p_sharing_fd_ s2 =? -1);
    [exact (fd_tracked_trans _ _ _ T2 (CloseP2PSharingFd_tracked _ _))|].
  set (c3 := c_fchmod _ _).
  assert (T3 : fd_tracked s (emit c3 s2)).
  { apply (fd_tracked_trans _ _ _ T2).
    apply fd_tracked_emit; [reflexivity|exact I]. }
  destruct (os_fchmod _ _); simpl negb; cbv iota;
    [|exact (fd_tracked_trans _ _ _ T3 (CloseP2PSharingFd_tracked _ _))].
  set (c4 := c_FileGetVisible _ _).
  apply (fd_tracked_trans _ _ _ T3).
  apply (fd_tracked_trans _ (emit c4 (emit c3 s2))).
  - apply fd_tracked_emit; [reflexivity|exact I].
  - simpl fst. destruct (p2p_FileGetVisible _ _);
      apply fd_tracked_same; reflexivity.
Qed.

Lemma WriteToP2PFile_tracked data file_offset s :
  fd_tracked s (WriteToP2PFile data file_offset s).
Proof.
  unfold WriteToP2PFile.
  assert (Open : forall s1,
    fd_tracked s s1 ->
    fd_tracked s
      (let p2p_size := os_FileSize (log s1) (p2p_sharing_fd_ s1) in
       let s := emit (c_FileSize (p2p_sharing_fd_ s1) p2p_size) s1 in
       if p2p_size <? 0 then CloseP2PSharingFd true s
       else if p2p_size <? file_offset then CloseP2PSharingFd true s
       else
         let cur_file_offset :=
           os_lseek (log s) (p2p_sharing_fd_ s) file_offset in
         let s :=
           emit (c_lseek (p2p_sharing_fd_ s) file_offset cur_file_offset)
             s in
         if negb (cur_file_offset =? file_offset) then
           CloseP2PSharingFd true s
         else
           let bytes_written :=
             os_write (log s) (p2p_sharing_fd_ s) data in
           let s :=
             emit (c_write (p2p_sharing_fd_ s) data bytes_written) s in
           if negb (bytes_written =? to_int64 (blen data)) then
             CloseP2PSharingFd true s
           else s)).
  { intros s1 T1. cbv zeta.
    set (c1 := c_FileSize _ _).
    assert (T2 : fd_tracked s (emit c1 s1)).
    { apply (fd_tracked_trans _ _ _ T1).
      apply fd_tracked_emit; [reflexivity|exact I]. }
    destruct (os_FileSize _ _ <? 0);
      [exact (fd_tracked_trans _ _ _ T2 (CloseP2PSharingFd_tracked _ _))|].
    destruct (os_FileSize _ _ <? file_offset);
      [exact (fd_tracked_trans _ _ _ T2 (CloseP2PSharingFd_tracked _ _))|].
    set (c2 := c_lseek _ _ _).
    assert (T3 : fd_tracked s (emit c2 (emit c1 s1))).
    { apply (fd_tracked_trans _ _ _ T2).
      apply fd_tracked_emit; [reflexivity|exact I]. }
    destruct (os_lseek _ _ _ =? file_offset); simpl negb; cbv iota;
      [|exact (fd_tracked_trans _ _ _ T3 (CloseP2PSharingFd_tracked _ _))].
    set (c3 := c_write _ _ _).
    assert (T4 : fd_tracked s (emit c3 (emit c2 (emit c1 s1)))).
    { apply (fd_tracked_trans _ _ _ T3).
      apply fd_tracked_emit; [reflexivity|exact I]. }
    destruct (os_write _ _ _ =? to_int64 (blen data)); simpl negb;
      cbv iota;
      [exact T4
      |exact (fd_tracked_trans _ _ _ T4 (CloseP2PSharingFd_tracked _ _))]. }
  destruct (p2p_sharing_fd_ s =? -1) eqn:Efd.
  - tests. pose proof (SetupP2PSharingFd_tracked s Efd) as T1.
    destruct (SetupP2PSharingFd s) as [s1 ok]. simpl fst in T1.
    destruct ok; simpl negb; cbv iota; [|exact T1].
    exact (Open s1 T1).
  - simpl negb. cbv iota. exact (Open s (fd_tracked_refl s)).
Qed.

Lemma TerminateProcessing_tracked s :
  fd_tracked s (TerminateProcessing s).
Proof.
  unfold TerminateProcessing.
  set (s1 := match writer_ s with Some _ => _ | None => s end).
  assert (T1 : fd_tracked s s1).
  { subst s1. destruct (writer_ s); [|apply fd_tracked_refl].
    apply (fd_tracked_trans _ (emit (c_Close (writer_Close (log s))) s)).
    - apply fd_tracked_emit; [reflexivity|exact I].
    - apply fd_tracked_same; reflexivity. }
  clearbody s1.
  set (s2 := if delegate_ s1 then _ else s1).
  assert (T2 : fd_tracked s s2).
  { subst s2. destruct (delegate_ s1); [|exact T1].
    apply (fd_tracked_trans _ _ _ T1).
    apply fd_tracked_emit; [reflexivity|exact I]. }
  clearbody s2.
  apply (fd_tracked_trans _ _ _ T2).
  apply (fd_tracked_trans _ _ _ (CloseP2PSharingFd_tracked false s2)).
  apply fd_tracked_emit; [reflexivity|exact I].
Qed.

Lemma ReceivedBytes_promote_tracked s :
  fd_tracked s (ReceivedBytes_promote s).
Proof.
  unfold ReceivedBytes_promote.
  destruct (negb (p2p_visible_ s) && delta_performer_ s);
    [|apply fd_tracked_refl].
  cbv zeta.
  set (c1 := c_IsManifestValid _).
  assert (T1 : fd_tracked s (emit c1 s))
    by (apply fd_tracked_emit; [reflexivity|exact I]).
  destruct (performer_IsManifestValid (log s)); [|exact T1].
  apply (fd_tracked_trans _ _ _ T1).
  destruct (negb (system_state_ (emit c1 s)));
    [apply fd_tracked_same; reflexivity|].
  set (c2 := c_FileMakeVisible _).
  apply (fd_tracked_trans _ (emit c2 (emit c1 s))).
  - apply fd_tracked_emit; [reflexivity|exact I].
  - apply fd_tracked_same; reflexivity.
Qed.

Lemma ReceivedBytes_forward_tracked bytes s :
  fd_tracked s (ReceivedBytes_forward bytes s).
Proof.
  unfold ReceivedBytes_forward.
  destruct (crashed s) eqn:Hc; [apply fd_tracked_refl|].
  cbv zeta.
  set (s1 := set_bytes_received_ _ s).
  assert (T1 : fd_tracked s s1) by (apply fd_tracked_same; reflexivity).
  set (s2 := if delegate_ s1 then _ else s1).
  assert (T2 : fd_tracked s s2).
  { subst s2. destruct (delegate_ s1); [|exact T1].
    apply (fd_tracked_trans _ _ _ T1).
    apply fd_tracked_emit; [reflexivity|exact I]. }
  assert (K2 : crashed s2 = false).
  { subst s2 s1. destruct (delegate_ _); simpl; exact Hc. }
  clearbody s2. clear s1 T1.
  destruct (writer_ s2).
  - destruct (writer_Write (log s2) bytes) as [ok error].
    set (s3 := set_code_ error (emit (c_Write bytes ok error) s2)).
    assert (T3 : fd_tracked s s3).
    { apply (fd_tracked_trans _ _ _ T2).
      apply (fd_tracked_trans _ (emit (c_Write bytes ok error) s2)).
      - apply fd_tracked_emit; [reflexivity|exact I].
      - apply fd_tracked_same; reflexivity. }
    clearbody s3.
    destruct ok; simpl negb; cbv iota.
    + exact (fd_tracked_trans _ _ _ T3 (ReceivedBytes_promote_tracked s3)).
    + set (s4 := if negb (p2p_file_id_ s3 =? "")%string then _ else s3).
      assert (T4 : fd_tracked s s4).
      { subst s4. destruct (negb _); [|exact T3].
        exact (fd_tracked_trans _ _ _ T3 (CloseP2PSharingFd_tracked _ _)). }
      clearbody s4.
      destruct (crashed s4); [exact T4|].
      exact (fd_tracked_trans _ _ _ T4 (TerminateProcessing_tracked s4)).
  - simpl negb. cbv iota.
    exact (fd_tracked_trans _ _ _ T2 (ReceivedBytes_promote_tracked s2)).
Qed.

Lemma ReceivedBytes_tracked bytes s :
  fd_tracked s (ReceivedBytes bytes s).
Proof.
  rewrite ReceivedBytes_parts.
  apply (fd_tracked_trans _ (ReceivedBytes_mirror bytes s));
    [|apply ReceivedBytes_forward_tracked].
  unfold ReceivedBytes_mirror.
  destruct (negb _); [apply WriteToP2PFile_tracked|apply fd_tracked_refl].
Qed.

(** What was tracked, read on the calls a step is known to have made. *)
Lemma fd_tracked_extends s s' news :
  fd_tracked s s' -> extends s s' news ->
  fd_after (p2p_sharing_fd_ s) news = Some (p2p_sharing_fd_ s').
Proof.
  intros [l [E T]] E'. unfold extends in *. rewrite E in E'.
  apply app_inv_head in E'. subst l. exact T.
Qed.

(** *** Closing the writer *)

Lemma first_Write_unique b1 : forall w1 a1 b2 w2 a2,
  b1 ++ w1 :: a1 = b2 ++ w2 :: a2 ->
  is_Write w1 = true -> is_Write w2 = true ->
  count is_Write b1 = 0%nat -> count is_Write b2 = 0%nat ->
  b1 = b2 /\ w1 = w2 /\ a1 = a2.
Proof.
  induction b1 as [|c b1 IH]; intros w1 a1 [|c2 b2] w2 a2 E H1 H2 Z1 Z2;
    simpl in E; injection E as Ec E.
  - subst. auto.
  - subst c2. rewrite count_cons, H1 in Z2. discriminate Z2.
  - subst c. rewrite count_cons, H2 in Z1. discriminate Z1.
  - subst c2. rewrite count_cons in Z1, Z2.
    destruct (is_Write c); [discriminate Z1|].
    destruct (IH w1 a1 b2 w2 a2 E H1 H2 Z1 Z2) as [Eb [Ew Ea]].
    subst. auto.
Qed.

Lemma TerminateProcessing_closes s news :
  extends s (TerminateProcessing s) news ->
  count is_Close news =
    match writer_ s with Some _ => 1%nat | None => 0%nat end /\
  (writer_ s <> None ->
   hd_error news = Some (c_Close (writer_Close (log s)))) /\
  count is_close news = (if (p2p_sharing_fd_ s =? -1)%Z then 0 else 1)%nat.
Proof.
  unfold extends, TerminateProcessing, CloseP2PSharingFd, emit.
  destruct (writer_ s), (delegate_ s) eqn:Ed; simpl; rewrite ?Ed; simpl;
    destruct (p2p_sharing_fd_ s =? -1); simpl; rewrite <- ?app_assoc;
    intros Et; apply app_inv_head in Et; subst news;
    repeat split; try reflexivity; intros F; contradiction.
Qed.

Lemma ReceivedBytes_promote_closes s news :
  extends s (ReceivedBytes_promote s) news -> count is_Close news = 0%nat.
Proof.
  unfold extends, ReceivedBytes_promote, emit, crash.
  destruct (negb (p2p_visible_ s) && delta_performer_ s); simpl;
    [destruct (performer_IsManifestValid (log s)); simpl;
     [destruct (system_state_ s); simpl|]|];
    intros E; rewrite <- ?app_assoc in E;
    first [ apply app_inv_head in E
          | rewrite <- (app_nil_r (log s)) in E at 1;
            apply app_inv_head in E ];
    subst news; reflexivity.
Qed.

(** The forwarding part of [ReceivedBytes], with a writer: the writer is
    closed after a refused write, and only then. *)
Lemma ReceivedBytes_forward_closes bytes s w :
  system_state_ s = true -> crashed s = false -> writer_ s = Some w ->
  exists before (ok : bool) error after,
    extends s (ReceivedBytes_forward bytes s)
      (before ++ c_Write bytes ok error :: after) /\
    count is_Write before = 0%nat /\
    count is_Close before = 0%nat /\
    count is_Close after = if ok then 0%nat else 1%nat.
Proof.
  intros Hs Hc Ew.
  pose proof (ReceivedBytes_forward_cases bytes s Hs Hc) as Cases.
  cbv zeta in Cases. rewrite Ew in Cases.
  set (counted :=
         if delegate_ s then
           emit (c_BytesReceived (to_uint64 (bytes_received_ s + blen bytes))
                   (payload_size (install_plan_ s)))
             (set_bytes_received_
                (to_uint64 (bytes_received_ s + blen bytes)) s)
         else
           set_bytes_received_ (to_uint64 (bytes_received_ s + blen bytes))
             s) in *.
  assert (Counted : exists l0,
    extends s counted l0 /\
    count is_Write l0 = 0%nat /\ count is_Close l0 = 0%nat /\
    system_state_ counted = true /\
    writer_ counted = writer_ s).
  { subst counted. destruct (delegate_ s) eqn:Ed; eexists;
      (split; [unfold extends; simpl; news|]);
      simpl; repeat split; auto. }
  destruct Counted as [l0 [E0 [W0 [K0 [S0 Wr0]]]]].
  unfold extends in E0.
  destruct (writer_Write (log counted) bytes) as [ok error] eqn:Eww.
  simpl fst in Cases. simpl snd in Cases.
  set (written := set_code_ error (emit (c_Write bytes ok error) counted))
    in *.
  assert (Written :
    log written = log s ++ l0 ++ [c_Write bytes ok error] /\
    writer_ written = Some w /\
    system_state_ written = true).
  { subst written. simpl. rewrite E0, <- app_assoc.
    repeat split; congruence. }
  destruct Written as [Lw [Ww Sw]].
  clearbody written. clearbody counted.
  exists l0, ok, error.
  destruct ok; rewrite Cases.
  - destruct (ReceivedBytes_promote_step written Sw) as [lp [_ [_ [_ [Ep _]]]]].
    exists lp.
    split.
    { unfold extends in *. rewrite Ep, Lw, <- !app_assoc. reflexivity. }
    split; [exact W0|]. split; [exact K0|].
    apply (ReceivedBytes_promote_closes written lp Ep).
  - set (dropped :=
           if negb (String.eqb (p2p_file_id_ s) "") then
             CloseP2PSharingFd true written
           else written) in *.
    assert (Dropped : exists ld, p2p_step written dropped ld).
    { subst dropped.
      destruct (String.eqb (p2p_file_id_ s) ""); simpl negb; cbv iota.
      - exists []. apply p2p_step_refl.
      - destruct (CloseP2PSharingFd_step true written Sw) as [l [St _]].
        exists l. exact St. }
    clearbody dropped.
    destruct Dropped as [ld [Core [Ed Kd]]].
    assert (Kld : count is_Close ld = 0%nat).
    { apply (count_by_kind _ _ _ Kd). intros []; simpl; congruence. }
    assert (Wd : writer_ dropped = Some w).
    { unfold same_core in Core. decompose [and] Core. congruence. }
    destruct (TerminateProcessing_step dropped) as [lt [Et _]].
    destruct (TerminateProcessing_closes dropped lt Et) as [Klt _].
    rewrite Wd in Klt.
    exists (ld ++ lt).
    split.
    { unfold extends in *. rewrite Et, Ed, Lw, <- !app_assoc.
      reflexivity. }
    split; [exact W0|]. split; [exact K0|].
    rewrite count_app, Kld, Klt. reflexivity.
Qed.

(** *** Properties of the callbacks *)

(** X1.  [ReceivedBytes] with a writer, in a state of a run: the writer
    is called exactly once, on the bytes received, and [code_] becomes
    the code it stored; nothing is reported to the processor; the
    writer is not closed before it is called, and [p2p_sharing_fd_]
    keeps track of the descriptor of the P2P file.  When the writer
    takes the bytes it is not closed.  When the writer refuses the
    bytes, [Close] is called on it once and it is forgotten; the P2P
    file is closed (no descriptor stays open) and deleted exactly when
    there was a file id, nothing is written to it or made visible
    afterwards, and the last call asks the fetcher to terminate the
    transfer; [TransferTerminated] then reports the latched code,
    unless that code is [kSuccess], in which case it reports
    nothing. *)
Theorem write_failure_defers_completion bytes s w :
  sharing_inv s -> writer_ s = Some w ->
  exists before ok error after,
    extends s (ReceivedBytes bytes s)
      (before ++ c_Write bytes ok error :: after) /\
    (ok, error) = writer_Write (log s ++ before) bytes /\
    count is_Write before = 0%nat /\ count is_Write after = 0%nat /\
    completions (before ++ after) = [] /\
    code_ (ReceivedBytes bytes s) = error /\
    count is_Close before = 0%nat /\
    fd_after (p2p_sharing_fd_ s)
      (before ++ c_Write bytes ok error :: after) =
      Some (p2p_sharing_fd_ (ReceivedBytes bytes s)) /\
    (ok = true ->
     writer_ (ReceivedBytes bytes s) = Some w /\
     count is_Close after = 0%nat) /\
    (ok = false ->
     writer_ (ReceivedBytes bytes s) = None /\
     count is_Close after = 1%nat /\
     p2p_off (ReceivedBytes bytes s) /\
     fd_after (p2p_sharing_fd_ s)
       (before ++ c_Write bytes ok error :: after) = Some (-1) /\
     last after c_set_delegate = c_TerminateTransfer /\
     count is_p2p_write after = 0%nat /\
     count is_FileMakeVisible after = 0%nat /\
     count is_unlink (before ++ after) =
       (if String.eqb (p2p_file_id_ s) "" then 0 else 1)%nat /\
     completions (log (TransferTerminated (ReceivedBytes bytes s))) =
       completions (log s) ++
       (if ErrorCode_eqb error kSuccess then [] else [error])).
Proof.
  intros Inv Ew. pose proof Inv as [Hs [Hc _]].
  pose proof (ReceivedBytes_tracked bytes s) as Tr.
  rewrite ReceivedBytes_parts in *.
  destruct (ReceivedBytes_mirror_step bytes s Inv)
    as [lm [[Core [Em Km]] [Invm [Nfm [_ [Quiet Unl]]]]]].
  set (m := ReceivedBytes_mirror bytes s) in *. clearbody m.
  pose proof Invm as [Hsm [Hcm _]].
  unfold same_core in Core. decompose [and] Core.
  assert (Ewm : writer_ m = Some w) by congruence.
  destruct (ReceivedBytes_forward_write bytes m w Hsm Hcm Ewm)
    as [before [ok error_after]].
  destruct error_after
    as [error [after
         [Ext [Eok [Wb [Ub [Pb [Cb [Wa [Ca [Pa [Ecode [Good Bad]]]]]]]]]]]]].
  destruct (ReceivedBytes_forward_closes bytes m w Hsm Hcm Ewm)
    as [before' [ok' [error' [after' [Ext' [Wb' [Kb Ka]]]]]]].
  set (s' := ReceivedBytes_forward bytes m) in *. clearbody s'.
  destruct (p2p_calls_quiet _ Km) as [Cm [_ [Wm _]]].
  assert (Klm : count is_Close lm = 0%nat).
  { apply (count_by_kind _ _ _ Km). intros []; simpl; congruence. }
  unfold extends in *.
  assert (Same : before' = before /\
                 c_Write bytes ok' error' = c_Write bytes ok error /\
                 after' = after).
  { rewrite Ext in Ext'. apply app_inv_head in Ext'. symmetry in Ext'.
    apply (first_Write_unique _ _ _ _ _ _ Ext'); auto. }
  destruct Same as [-> [Eq ->]]. injection Eq as -> ->.
  assert (El : log s' =
               log s ++ (lm ++ before) ++ c_Write bytes ok error :: after).
  { rewrite Ext, Em, <- !app_assoc. reflexivity. }
  pose proof (fd_tracked_extends s s' _ Tr El) as Fd.
  exists (lm ++ before), ok, error, after.
  split; [exact El|].
  split; [rewrite app_assoc, <- Em; exact Eok|].
  split; [rewrite count_app, Wm, Wb; reflexivity|].
  split; [exact Wa|].
  split; [rewrite !completions_app, Cm, Cb, Ca; reflexivity|].
  split; [exact Ecode|].
  split; [rewrite count_app, Klm, Kb; reflexivity|].
  split; [exact Fd|].
  split.
  { intros Hok. split; [exact (proj1 (Good Hok))|].
    rewrite Hok in Ka. exact Ka. }
  intros Hok. destruct (Bad Hok) as [Wn [Off [Last [Mv Ua]]]].
  split; [exact Wn|].
  split; [rewrite Hok in Ka; exact Ka|].
  split; [exact Off|].
  split; [rewrite Fd; destruct Off as [_ ->]; reflexivity|].
  split; [exact Last|].
  split; [exact Pa|]. split; [exact Mv|].
  split.
  - rewrite <- app_assoc, !count_app, Ub, Ua.
    destruct (String.eqb (p2p_file_id_ s) "") eqn:Eid; tests.
    + rewrite (Quiet Eid) in *.
      destruct Unl as [[_ Im]|[_ [_ F]]]; [|contradiction].
      rewrite Im, Eid. reflexivity.
    + destruct Unl as [[U Im]|[U [[Im _] _]]]; rewrite U, Im.
      * apply String.eqb_neq in Eid. rewrite Eid. reflexivity.
      * reflexivity.
  - unfold TransferTerminated. rewrite Ecode.
    destruct (ErrorCode_eqb error kSuccess); simpl negb; cbv iota; simpl;
      rewrite Ext, Em, !completions_app, Cm, Cb; simpl; rewrite Ca;
      simpl; rewrite ?app_nil_r; reflexivity.
Qed.

(** X2.  [TransferComplete] reports exactly once, as its last call, and
    forgets the writer.  The code is [kDownloadTransferError] after an
    unsuccessful transfer, [kSuccess] without verification when no
    [DeltaPerformer] was created (a test writer), and otherwise what
    [VerifyPayload], called once on the hash and size of the plan,
    returns.  The P2P file is deleted exactly when that verification
    fails and there is a file id, and the plan goes to the output
    exactly when the code is [kSuccess] and there is an output pipe. *)
Theorem transfer_complete_verdict successful s :
  system_state_ s = true -> crashed s = false ->
  let expected_hash := payload_hash (install_plan_ s) in
  let expected_size := payload_size (install_plan_ s) in
  exists before code,
    extends s (TransferComplete successful s)
      (before ++ [c_ActionComplete code]) /\
    completions before = [] /\
    writer_ (TransferComplete successful s) = None /\
    (successful = false ->
     code = kDownloadTransferError /\
     count is_VerifyPayload before = 0%nat) /\
    (successful = true -> delta_performer_ s = false ->
     code = kSuccess /\ count is_VerifyPayload before = 0%nat) /\
    (successful = true -> delta_performer_ s = true ->
     exists closing deleting,
       before =
         closing ++ c_VerifyPayload expected_hash expected_size code ::
         deleting /\
       code =
         performer_VerifyPayload (log s ++ closing) expected_hash
           expected_size /\
       count is_VerifyPayload closing = 0%nat /\
       count is_VerifyPayload deleting = 0%nat) /\
    count is_unlink before =
      (if successful && delta_performer_ s &&
          negb (ErrorCode_eqb code kSuccess) &&
          negb (String.eqb (p2p_file_id_ s) "")
       then 1 else 0)%nat /\
    output_object (TransferComplete successful s) =
      (if ErrorCode_eqb code kSuccess && has_output_pipe s
       then Some (install_plan_ s) else output_object s).
Proof.
  intros Hs Hc expected_hash expected_size.
  destruct (TransferComplete_shape successful s Hs Hc)
    as [closing [code [verifying [deleting Shape]]]].
  cbv zeta in Shape. fold expected_hash expected_size in Shape.
  destruct Shape
    as [Ext [[Cc [Fc [Mc [Vc [Pc Wc]]]]] [Ecode [Everif
         [[Kd [Fd [Ud Nd]]] [[Fr [W1 [C1 [B1 [V1 K1]]]]]
         [Out P2P]]]]]]].
  set (s' := TransferComplete successful s) in *. clearbody s'.
  destruct (p2p_calls_quiet _ Kd) as [Cd [_ [_ Vd]]].
  assert (Uc : count is_unlink closing = 0%nat).
  { clear - Pc. unfold count in *.
    induction closing as [|c l IH]; [reflexivity|]. simpl in *.
    destruct c; simpl in *; try discriminate Pc; exact (IH Pc). }
  exists (closing ++ verifying ++ deleting), code.
  split.
  { unfold extends in *. rewrite Ext, <- !app_assoc. reflexivity. }
  split.
  { rewrite !completions_app, Cc, Cd, Everif.
    destruct (successful && delta_performer_ s); reflexivity. }
  split; [exact W1|].
  split.
  { intros ->. simpl in *. subst verifying code.
    rewrite (Nd eq_refl), !count_app, Vc. split; reflexivity. }
  split.
  { intros -> Edp. rewrite Edp in *. simpl in *. subst verifying code.
    rewrite (Nd eq_refl), !count_app, Vc. split; reflexivity. }
  split.
  { intros -> Edp. rewrite Edp in *. simpl in *.
    exists closing, deleting. subst verifying.
    split; [reflexivity|]. split; [exact Ecode|].
    split; [exact Vc|exact Vd]. }
  split; [|exact Out].
  rewrite !count_app, Uc, Ud, Everif.
  destruct (successful && delta_performer_ s); simpl;
    rewrite ?Nat.add_0_r; reflexivity.
Qed.

(** X3.  [ReceivedBytes] in a state of a run with a P2P file id, when
    the P2P file is shorter than the offset [bytes_received_]: nothing
    is written to the file, the file is deleted once, P2P sharing is
    off afterwards, and the download goes on: the bytes are counted and
    handed to the writer, if there is one, and nothing is reported to
    the processor. *)
Theorem short_p2p_file_is_dropped bytes s :
  sharing_inv s -> p2p_file_id_ s <> "" ->
  (forall l fd, os_FileSize l fd < to_int64 (bytes_received_ s)) ->
  exists news,
    extends s (ReceivedBytes bytes s) news /\
    p2p_off (ReceivedBytes bytes s) /\
    count is_p2p_write news = 0%nat /\
    count is_unlink news = 1%nat /\
    completions news = [] /\
    count is_Write news =
      match writer_ s with Some _ => 1%nat | None => 0%nat end /\
    bytes_received_ (ReceivedBytes bytes s) =
      to_uint64 (bytes_received_ s + blen bytes).
Proof.
  intros Inv Hid Short. pose proof Inv as [Hs [Hc _]].
  rewrite ReceivedBytes_parts.
  destruct (ReceivedBytes_mirror_step bytes s Inv)
    as [lm0 [[Core _] [Invm [Nfm _]]]].
  clear lm0.
  assert (Mirror : exists lm,
    p2p_step s (ReceivedBytes_mirror bytes s) lm /\
    p2p_off (ReceivedBytes_mirror bytes s) /\
    count is_p2p_write lm = 0%nat /\ count is_unlink lm = 1%nat).
  { unfold ReceivedBytes_mirror.
    apply String.eqb_neq in Hid. rewrite Hid. simpl negb. cbv iota.
    apply (WriteToP2PFile_short _ _ _ Hs Short). }
  destruct Mirror as [lm [[_ [Em Km]] [Offm [Pm Um]]]].
  set (m := ReceivedBytes_mirror bytes s) in *. clearbody m.
  pose proof Invm as [Hsm [Hcm _]].
  destruct (p2p_calls_quiet _ Km) as [Cm [_ [Wm _]]].
  unfold same_core in Core. decompose [and] Core.
  destruct (ReceivedBytes_forward_step bytes m Invm Nfm)
    as [_ [_ [_ [_ [Bf [lf [Ef [Cf [_ [_ Offf]]]]]]]]]].
  destruct (Offf Offm) as [Off Zf].
  assert (Sub : forall f l,
    (forall c, f c = true -> is_p2p_file_call c = true) ->
    count is_p2p_file_call l = 0%nat -> count f l = 0%nat).
  { intros f l Hf. unfold count.
    induction l as [|c l IH]; [reflexivity|]. simpl.
    destruct (is_p2p_file_call c) eqn:E; [discriminate|].
    destruct (f c) eqn:F; [rewrite (Hf c F) in E; discriminate E|].
    exact IH. }
  unfold extends in *.
  destruct (writer_ s) as [w|] eqn:Ew.
  - assert (Ewm : writer_ m = Some w) by congruence.
    destruct (ReceivedBytes_forward_write bytes m w Hsm Hcm Ewm)
      as [before [ok [error [after
           [Ext [_ [Wb [_ [_ [_ [Wa _]]]]]]]]]]].
    unfold extends in Ext. rewrite Ext in Ef.
    apply app_inv_head in Ef. subst lf.
    set (s' := ReceivedBytes_forward bytes m) in *. clearbody s'.
    exists (lm ++ before ++ c_Write bytes ok error :: after).
    split; [rewrite Ext, Em, <- !app_assoc; reflexivity|].
    split; [exact Off|].
    pose proof (Sub is_p2p_write _ ltac:(intros []; simpl; congruence) Zf)
      as Pf.
    pose proof (Sub is_unlink _ ltac:(intros []; simpl; congruence) Zf)
      as Uf.
    rewrite (count_app _ lm), (count_app _ lm), (count_app _ lm),
      completions_app, Pm, Um, Cm, Cf, Wm, Pf, Uf.
    rewrite count_app, count_cons, Wb, Wa.
    repeat split. congruence.
  - set (s' := ReceivedBytes_forward bytes m) in *.
    assert (Nw : count is_Write lf = 0%nat).
    { pose proof (ReceivedBytes_forward_cases bytes m Hsm Hcm) as Cases.
      cbv zeta in Cases.
      replace (writer_ m) with (@None WriterRef) in Cases by congruence.
      fold s' in Cases.
      match type of Cases with
      | _ = ReceivedBytes_promote ?c =>
        assert (Sc : system_state_ c = true)
          by (destruct (delegate_ m); simpl; exact Hsm);
        destruct (ReceivedBytes_promote_step c Sc)
          as [lp [_ [_ [_ [Ep [_ [_ [Wp _]]]]]]]];
        assert (Ec : exists l0, log c = log m ++ l0 /\
                                 count is_Write l0 = 0%nat)
          by (destruct (delegate_ m); simpl; eexists;
              (split; [news|reflexivity]))
      end.
      destruct Ec as [l0 [E0 W0]].
      unfold extends in Ep. rewrite <- Cases, E0, Ef, <- app_assoc in Ep.
      apply app_inv_head in Ep. subst lf.
      rewrite count_app, W0, Wp. reflexivity. }
    clearbody s'.
    exists (lm ++ lf).
    split; [rewrite Ef, Em, <- !app_assoc; reflexivity|].
    split; [exact Off|].
    pose proof (Sub is_p2p_write _ ltac:(intros []; simpl; congruence) Zf)
      as Pf.
    pose proof (Sub is_unlink _ ltac:(intros []; simpl; congruence) Zf)
      as Uf.
    rewrite !count_app, completions_app, Pm, Um, Cm, Cf, Wm, Nw, Pf, Uf.
    repeat split. congruence.
Qed.

(** X4.  In every state of a run (with a system state and an input
    plan) the P2P manager was asked to share the file at most once and
    to make it visible at most once; once it was asked to make the file
    visible, [p2p_visible_] is set and stays set, and it is not asked
    again, whatever callbacks follow. *)
Theorem p2p_file_shared_and_promoted_once
    test_writer_set delegate_set plan out_pipe s :
  reachable
    (init test_writer_set delegate_set true (Some plan) out_pipe) s ->
  (count is_FileShare (log s) <= 1)%nat /\
  (count is_FileMakeVisible (log s) <= 1)%nat /\
  (count is_FileMakeVisible (log s) = 1%nat ->
   forall es,
     p2p_visible_ (handle_all s es) = true /\
     count is_FileMakeVisible (log (handle_all s es)) = 1%nat).
Proof.
  intros R. pose proof (reachable_sharing_inv _ _ _ _ _ R) as Inv.
  clear R. pose proof Inv as [_ [_ [_ [_ [Nsh [Nmv _]]]]]].
  split; [exact Nsh|]. split; [exact Nmv|].
  intros One es. revert s Inv One Nsh Nmv.
  induction es as [|e es IH]; intros s Inv One _ _.
  - destruct Inv as [_ [_ [_ [_ [_ [_ V]]]]]]. split; [apply V|]; exact One.
  - simpl. destruct (handle_step s e Inv) as [Inv' [_ [_ [l [E _]]]]].
    pose proof Inv' as [_ [_ [_ [_ [Nsh' [Nmv' _]]]]]].
    apply IH; try assumption.
    unfold extends in E. rewrite E, count_app in *. lia.
Qed.

(** X5.  Once P2P sharing is off (no file id, no descriptor) in a state
    of a run, it stays off whatever callbacks follow, and no call is
    made any more to create, open, measure, position, write, close or
    delete the P2P file. *)
Theorem p2p_off_is_final s es :
  sharing_inv s -> p2p_off s ->
  p2p_off (handle_all s es) /\
  count is_p2p_file_call (log (handle_all s es)) =
    count is_p2p_file_call (log s).
Proof.
  revert s. induction es as [|e es IH]; intros s Inv Off.
  - split; [exact Off|reflexivity].
  - simpl. destruct (handle_step s e Inv) as [Inv' [_ [_ [l [E [P _]]]]]].
    destruct (P Off) as [Off' Z].
    destruct (IH _ Inv' Off') as [R1 R2].
    split; [exact R1|].
    unfold extends in E. rewrite R2, E, count_app, Z. lia.
Qed.

(** X6.  [SeekToOffset], [ReceivedBytes] and [TerminateProcessing]
    never report to the processor: over any sequence of these callbacks
    the completions are what they were. *)
Theorem completion_only_at_transfer_end s es :
  sharing_inv s ->
  Forall (fun e => is_transfer_end e = false) es ->
  completions (log (handle_all s es)) = completions (log s).
Proof.
  intros Inv Hes. revert s Inv.
  induction Hes as [|e es He _ IH]; intros s Inv; [reflexivity|].
  simpl. destruct (handle_step s e Inv) as [Inv' [_ [_ [l [E [_ C]]]]]].
  rewrite (IH _ Inv'). unfold extends in E.
  rewrite E, completions_app, (C He). apply app_nil_r.
Qed.

(** X7.  After a sequence of [ReceivedBytes] callbacks [bytes_received_]
    is what it was plus the number of bytes received, modulo 2^64,
    whether or not the bytes could be written. *)
Theorem bytes_received_accounting s chunks :
  sharing_inv s -> 0 <= bytes_received_ s < 2 ^ 64 ->
  bytes_received_ (handle_all s (map EvReceivedBytes chunks)) =
    to_uint64 (bytes_received_ s + blen (List.concat chunks)).
Proof.
  revert s. induction chunks as [|c chunks IH]; intros s Inv Range.
  - simpl. unfold blen. simpl. rewrite Z.add_0_r.
    symmetry. apply to_uint64_small. exact Range.
  - simpl. destruct (handle_step s (EvReceivedBytes c) Inv)
      as [Inv' [_ [B _]]].
    rewrite (IH _ Inv'); rewrite (B c eq_refl).
    + rewrite blen_app. unfold to_uint64.
      rewrite Zplus_mod_idemp_l. f_equal. lia.
    + apply to_uint64_range.
Qed.

(** X8.  [TerminateProcessing] followed by [TransferTerminated]:
    [Close] is called on the writer, as the first call, exactly when
    there is a writer, and the writer is forgotten; the descriptor of
    the P2P file is closed exactly when one is open, no descriptor
    stays open and P2P sharing is off, but the P2P file is neither
    written nor deleted; the processor is told nothing when [code_] is
    [kSuccess], and is told [code_] otherwise. *)
Theorem terminated_download_keeps_p2p_file s :
  crashed s = false ->
  exists news,
    extends s (handle (handle s EvTerminateProcessing) EvTransferTerminated)
      news /\
    writer_ (handle (handle s EvTerminateProcessing) EvTransferTerminated)
      = None /\
    count is_Close news =
      match writer_ s with Some _ => 1%nat | None => 0%nat end /\
    (writer_ s <> None ->
     hd_error news = Some (c_Close (writer_Close (log s)))) /\
    p2p_off (handle (handle s EvTerminateProcessing) EvTransferTerminated)
    /\
    count is_close news = (if (p2p_sharing_fd_ s =? -1)%Z then 0 else 1)%nat /\
    fd_after (p2p_sharing_fd_ s) news = Some (-1) /\
    count is_unlink news = 0%nat /\
    count is_p2p_write news = 0%nat /\
    completions news =
      (if ErrorCode_eqb (code_ s) kSuccess then [] else [code_ s]).
Proof.
  intros Hc.
  replace (handle s EvTerminateProcessing) with (TerminateProcessing s)
    by (unfold handle; rewrite Hc; reflexivity).
  destruct (TerminateProcessing_step s)
    as [lt [Et [Frt [Ct [Bt [Vt [Ot [Kt [Wt [Offt
          [Cpt [Fst [Mvt [Unt [Wrt [Vpt [Lt Pt]]]]]]]]]]]]]]]]].
  pose proof (TerminateProcessing_writes_nothing s lt Et) as Plt.
  destruct (TerminateProcessing_closes s lt Et) as [Klt [Hdt Clt]].
  pose proof (fd_tracked_extends s _ lt (TerminateProcessing_tracked s) Et)
    as Fdt.
  set (t := TerminateProcessing s) in *. clearbody t.
  replace (handle t EvTransferTerminated) with (TransferTerminated t)
    by (unfold handle; replace (crashed t) with false by congruence;
        reflexivity).
  assert (Fd1 : fd_after (p2p_sharing_fd_ s) lt = Some (-1)).
  { rewrite Fdt. destruct Offt as [_ ->]. reflexivity. }
  unfold TransferTerminated. rewrite Ct.
  unfold extends in *.
  destruct (ErrorCode_eqb (code_ s) kSuccess); simpl negb; cbv iota.
  - exists lt. split; [exact Et|]. split; [exact Wt|].
    split; [exact Klt|]. split; [exact Hdt|].
    split; [exact Offt|]. split; [exact Clt|]. split; [exact Fd1|].
    split; [exact Unt|].
    split; [exact Plt|exact Cpt].
  - exists (lt ++ [c_ActionComplete (code_ s)]).
    split; [simpl; rewrite Et, app_assoc; reflexivity|].
    split; [exact Wt|].
    split; [rewrite count_app, Klt; exact (Nat.add_0_r _)|].
    split.
    { intros Hw. specialize (Hdt Hw). destruct lt as [|c lt'];
        [discriminate Hdt|exact Hdt]. }
    split; [exact Offt|].
    split; [rewrite count_app, Clt; exact (Nat.add_0_r _)|].
    split; [rewrite fd_after_app, Fd1; reflexivity|].
    rewrite !count_app, completions_app, Unt, Plt, Cpt.
    repeat split.
Qed.

(** X9.  [PerformAction] with an input plan and a system state: its
    first call hands the action to the fetcher as delegate and its last
    call starts the transfer on the URL of the plan; nothing is reported
    to the processor; the P2P file is neither created nor written, and
    nothing is deleted when sharing is wanted; the plan is installed,
    the byte count is zero, there is a writer (a [DeltaPerformer] when
    none was injected), and the P2P file id is the one computed from the
    hash and size of the payload exactly when the payload state says to
    share. *)
Theorem perform_action_begins_transfer s plan :
  input_object s = Some plan -> system_state_ s = true ->
  exists news,
    extends s (PerformAction s) news /\
    hd_error news = Some c_set_delegate /\
    last news c_set_delegate = c_BeginTransfer (download_url plan) /\
    completions news = [] /\
    count is_FileShare news = 0%nat /\
    count is_p2p_write news = 0%nat /\
    (GetUsingP2PForSharing = true -> count is_unlink news = 0%nat) /\
    install_plan_ (PerformAction s) = plan /\
    bytes_received_ (PerformAction s) = 0 /\
    writer_ (PerformAction s) <> None /\
    (writer_ s = None -> delta_performer_ (PerformAction s) = true) /\
    p2p_file_id_ (PerformAction s) =
      (if GetUsingP2PForSharing
       then CalculateP2PFileId (payload_hash plan) (payload_size plan)
       else p2p_file_id_ s) /\
    crashed (PerformAction s) = crashed s.
Proof.
  intros Hin Hs.
  destruct (PerformAction_shape s plan Hin Hs)
    as [news [E [Hd [La [C [Fs [Mv [Pw [Un [Ip [Br [Wr [Dp [Id
         [Fd [V [Co [Ss Cr]]]]]]]]]]]]]]]]]].
  exists news.
  split; [exact E|]. split; [exact Hd|]. split; [exact La|].
  split; [exact C|]. split; [exact Fs|]. split; [exact Pw|].
  split; [exact Un|]. split; [exact Ip|]. split; [exact Br|].
  split; [rewrite Wr; destruct (writer_ s); discriminate|].
  split; [intros Ew; rewrite Dp, Ew; reflexivity|].
  split; [exact Id|exact Cr].
Qed.

End ActionFacts.

(** *** Example runs *)

Section ExampleRuns.

Import DownloadExample.

(** The invariant after [PerformAction], and after a seek, in the
    example worlds. *)
Ltac example_inv :=
  unfold sharing_inv, p2p_fresh; vm_compute;
  repeat split; try discriminate; auto;
  intros; try congruence; repeat split; auto.

Lemma write_failure_defers_completion_witness :
  let world := refusing_world in
  let s := PerformAction fresh in
  let s' := ReceivedBytes [x01; x02] s in
  exists before after,
    extends s s'
      (before ++ c_Write [x01; x02] false kDownloadWriteError :: after) /\
    count is_Write before = 0%nat /\ count is_Write after = 0%nat /\
    completions (before ++ after) = [] /\
    code_ s' = kDownloadWriteError /\
    count is_Close before = 0%nat /\
    writer_ s' = None /\
    count is_Close after = 1%nat /\
    p2p_off s' /\
    fd_after (-1)
      (before ++ c_Write [x01; x02] false kDownloadWriteError :: after) =
      Some (-1) /\
    last after c_set_delegate = c_TerminateTransfer /\
    count is_p2p_write after = 0%nat /\
    count is_FileMakeVisible after = 0%nat /\
    count is_unlink (before ++ after) = 1%nat /\
    completions (log (TransferTerminated s')) = [kDownloadWriteError].
Proof.
  intros world s s'.
  destruct (write_failure_defers_completion (world := world) [x01; x02] s
              delta_performer)
    as [before [ok [error [after
         [Ext [Eok [Wb [Wa [Cba [Ecode [Kb [_ [_ Bad]]]]]]]]]]]]].
  - example_inv.
  - reflexivity.
  - injection Eok as -> ->.
    destruct (Bad eq_refl) as [Wn [Ka [Off [Fd [La [Pa [Mv [Un Ct]]]]]]]].
    exists before, after.
    split; [exact Ext|]. split; [exact Wb|]. split; [exact Wa|].
    split; [exact Cba|]. split; [exact Ecode|]. split; [exact Kb|].
    split; [exact Wn|]. split; [exact Ka|]. split; [exact Off|].
    split; [exact Fd|]. split; [exact La|]. split; [exact Pa|].
    split; [exact Mv|]. split; [exact Un|exact Ct].
Defined.

Lemma transfer_complete_verdict_witness :
  let world := mismatch_world in
  let s := PerformAction fresh in
  let expected_hash := payload_hash (install_plan_ s) in
  let expected_size := payload_size (install_plan_ s) in
  exists before code,
    extends s (TransferComplete true s)
      (before ++ [c_ActionComplete code]) /\
    completions before = [] /\
    writer_ (TransferComplete true s) = None /\
    (true = false ->
     code = kDownloadTransferError /\
     count is_VerifyPayload before = 0%nat) /\
    (true = true -> delta_performer_ s = false ->
     code = kSuccess /\ count is_VerifyPayload before = 0%nat) /\
    (true = true -> delta_performer_ s = true ->
     exists closing deleting,
       before =
         closing ++ c_VerifyPayload expected_hash expected_size code ::
         deleting /\
       code =
         performer_VerifyPayload (log s ++ closing) expected_hash
           expected_size /\
       count is_VerifyPayload closing = 0%nat /\
       count is_VerifyPayload deleting = 0%nat) /\
    count is_unlink before =
      (if true && delta_performer_ s &&
          negb (ErrorCode_eqb code kSuccess) &&
          negb (String.eqb (p2p_file_id_ s) "")
       then 1 else 0)%nat /\
    output_object (TransferComplete true s) =
      (if ErrorCode_eqb code kSuccess && has_output_pipe s
       then Some (install_plan_ s) else output_object s).
Proof.
  intros world s.
  apply (transfer_complete_verdict (world := world) true s);
    reflexivity.
Defined.

Lemma short_p2p_file_is_dropped_witness :
  let world := empty_file_world in
  let s := resumed in
  exists news,
    extends s (ReceivedBytes [x01; x02] s) news /\
    p2p_off (ReceivedBytes [x01; x02] s) /\
    count is_p2p_write news = 0%nat /\
    count is_unlink news = 1%nat /\
    completions news = [] /\
    count is_Write news =
      match writer_ s with Some _ => 1%nat | None => 0%nat end /\
    bytes_received_ (ReceivedBytes [x01; x02] s) =
      to_uint64 (bytes_received_ s + blen [x01; x02]).
Proof.
  intros world s.
  apply (short_p2p_file_is_dropped (world := world) [x01; x02] s).
  - example_inv.
  - discriminate.
  - intros l fd. vm_compute. reflexivity.
Defined.

Lemma p2p_file_shared_and_promoted_once_witness :
  let world := good_world in
  let s := handle (PerformAction fresh) (EvReceivedBytes [x01]) in
  count is_FileShare (log s) = 1%nat /\
  count is_FileMakeVisible (log s) = 1%nat /\
  p2p_visible_ s = true /\
  forall es,
    p2p_visible_ (handle_all s es) = true /\
    count is_FileMakeVisible (log (handle_all s es)) = 1%nat.
Proof.
  intros world s.
  destruct (p2p_file_shared_and_promoted_once (world := world) false true
              example_plan true s) as [_ [_ H]].
  - apply reach_handle. apply reach_perform.
  - split; [vm_compute; reflexivity|].
    split; [vm_compute; reflexivity|].
    split; [vm_compute; reflexivity|].
    apply H. vm_compute. reflexivity.
Defined.

Lemma p2p_off_is_final_witness :
  let world := good_world in
  let s := handle (PerformAction fresh) EvTerminateProcessing in
  let es := [EvReceivedBytes [x01]; EvTransferComplete true] in
  p2p_off (handle_all s es) /\
  count is_p2p_file_call (log (handle_all s es)) =
    count is_p2p_file_call (log s).
Proof.
  intros world s es.
  apply (p2p_off_is_final (world := world) s es).
  - example_inv.
  - split; reflexivity.
Defined.

Lemma completion_only_at_transfer_end_witness :
  let world := good_world in
  let s := PerformAction fresh in
  let es := [EvReceivedBytes [x01]; EvSeekToOffset 7;
             EvTerminateProcessing] in
  completions (log (handle_all s es)) = completions (log s).
Proof.
  intros world s es.
  apply (completion_only_at_transfer_end (world := world) s es).
  - example_inv.
  - repeat constructor.
Defined.

Lemma bytes_received_accounting_witness :
  let world := good_world in
  let s := PerformAction fresh in
  let chunks := [[x01]; [x02; x03]] in
  bytes_received_ (handle_all s (map EvReceivedBytes chunks)) =
    to_uint64 (bytes_received_ s + blen (List.concat chunks)).
Proof.
  intros world s chunks.
  apply (bytes_received_accounting (world := world) s chunks).
  - example_inv.
  - vm_compute. split; [discriminate|reflexivity].
Defined.

Lemma terminated_download_keeps_p2p_file_witness :
  let world := good_world in
  let s := handle (PerformAction fresh) (EvReceivedBytes [x01]) in
  let s' := handle (handle s EvTerminateProcessing) EvTransferTerminated in
  writer_ s = Some delta_performer /\ p2p_sharing_fd_ s = 3 /\
  exists news,
    extends s s' news /\
    writer_ s' = None /\
    count is_Close news = 1%nat /\
    hd_error news = Some (c_Close 0) /\
    p2p_off s' /\
    count is_close news = 1%nat /\
    fd_after 3 news = Some (-1) /\
    count is_unlink news = 0%nat /\
    count is_p2p_write news = 0%nat /\
    completions news = [].
Proof.
  intros world s s'.
  assert (Ew : writer_ s = Some delta_performer)
    by (vm_compute; reflexivity).
  assert (Efd : p2p_sharing_fd_ s = 3) by (vm_compute; reflexivity).
  assert (Ec : code_ s = kSuccess) by (vm_compute; reflexivity).
  split; [exact Ew|]. split; [exact Efd|].
  destruct (terminated_download_keeps_p2p_file (world := world) s)
    as [news [Ext [Wn [Ka [Hd [Off [Cl [Fd [Un [Pw Co]]]]]]]]]].
  - vm_compute. reflexivity.
  - rewrite Ew in Ka. rewrite Efd in Cl, Fd. rewrite Ec in Co.
    exists news.
    split; [exact Ext|]. split; [exact Wn|]. split; [exact Ka|].
    split; [apply Hd; rewrite Ew; discriminate|]. split; [exact Off|].
    split; [exact Cl|]. split; [exact Fd|]. split; [exact Un|].
    split; [exact Pw|exact Co].
Defined.

Lemma perform_action_begins_transfer_witness :
  let world := good_world in
  let s := fresh in
  let plan := example_plan in
  exists news,
    extends s (PerformAction s) news /\
    hd_error news = Some c_set_delegate /\
    last news c_set_delegate = c_BeginTransfer (download_url plan) /\
    completions news = [] /\
    count is_FileShare news = 0%nat /\
    count is_p2p_write news = 0%nat /\
    (GetUsingP2PForSharing = true -> count is_unlink news = 0%nat) /\
    install_plan_ (PerformAction s) = plan /\
    bytes_received_ (PerformAction s) = 0 /\
    writer_ (PerformAction s) <> None /\
    (writer_ s = None -> delta_performer_ (PerformAction s) = true) /\
    p2p_file_id_ (PerformAction s) =
      (if GetUsingP2PForSharing
       then CalculateP2PFileId (payload_hash plan) (payload_size plan)
       else p2p_file_id_ s) /\
    crashed (PerformAction s) = crashed s.
Proof.
  intros world s plan.
  apply (perform_action_begins_transfer (world := world) s plan);
    reflexivity.
Defined.

End ExampleRuns.

End DownloadFacts.

(** *** The log of a run *)

Module DownloadLogFacts.
Import Plan Download DownloadLog DownloadFacts.

#[local] Arguments to_uint64 : simpl never.
#[local] Arguments to_int64 : simpl never.
#[local] Arguments String.eqb : simpl never.
#[local] Arguments Z.ltb : simpl never.
#[local] Arguments Z.eqb : simpl never.
#[local] Arguments CloseP2PSharingFd : simpl never.
#[local] Arguments SetupP2PSharingFd : simpl never.
#[local] Arguments WriteToP2PFile : simpl never.
#[local] Arguments TerminateProcessing : simpl never.

Section MoreFacts.

Context {world : World}.

(** *** Promotion of the P2P file *)

Lemma promoted_quiet l : forall prev,
  count is_FileMakeVisible l = 0%nat -> promoted_after_valid prev l = true.
Proof.
  induction l as [|c l IH]; intros prev H; [reflexivity|].
  rewrite count_cons in H. simpl.
  destruct (is_FileMakeVisible c) eqn:E; [discriminate H|].
  rewrite (IH (Some c) H).
  destruct c; try reflexivity. discriminate E.
Qed.

Lemma promoted_app l l' : forall prev,
  promoted_after_valid prev (l ++ l') =
  promoted_after_valid prev l &&
  promoted_after_valid
    (match rev l with c :: _ => Some c | [] => prev end) l'.
Proof.
  induction l as [|c l IH]; intros prev; [reflexivity|].
  simpl. rewrite IH, andb_assoc. f_equal.
  destruct (rev l) as [|d r] eqn:E; simpl.
  - apply (f_equal (@rev Call)) in E. rewrite rev_involutive in E.
    subst l. reflexivity.
  - reflexivity.
Qed.

Lemma promotes_justified news prev :
  promotes news -> promoted_after_valid prev news = true.
Proof.
  intros [Z|[before [file_id [-> Z]]]].
  - apply promoted_quiet. exact Z.
  - rewrite promoted_app, (promoted_quiet _ _ Z). simpl.
    destruct (rev before); reflexivity.
Qed.

Lemma promotes_after l news :
  count is_FileMakeVisible l = 0%nat -> promotes news ->
  promotes (l ++ news).
Proof.
  intros Zl [Z|[before [file_id [-> Z]]]].
  - left. rewrite count_app, Zl, Z. reflexivity.
  - right. exists (l ++ before), file_id.
    split; [rewrite app_assoc; reflexivity|].
    rewrite count_app, Zl, Z. reflexivity.
Qed.

Lemma ReceivedBytes_promote_promotes s :
  system_state_ s = true ->
  exists news,
    extends s (ReceivedBytes_promote s) news /\ promotes news.
Proof.
  intros Hs.
  destruct (ReceivedBytes_promote_step s Hs)
    as [lp [_ [_ [_ [Ep [_ [_ [_ [_ Mp]]]]]]]]].
  exists lp. split; [exact Ep|].
  destruct Mp as [[Z _]|[-> _]]; [left; exact Z|].
  right. exists [], (p2p_file_id_ s). split; reflexivity.
Qed.

Lemma ReceivedBytes_forward_promotes bytes s :
  system_state_ s = true -> crashed s = false ->
  exists news,
    extends s (ReceivedBytes_forward bytes s) news /\ promotes news.
Proof.
  intros Hs Hc.
  pose proof (ReceivedBytes_forward_cases bytes s Hs Hc) as Cases.
  cbv zeta in Cases.
  set (counted :=
         if delegate_ s then
           emit (c_BytesReceived (to_uint64 (bytes_received_ s + blen bytes))
                   (payload_size (install_plan_ s)))
             (set_bytes_received_
                (to_uint64 (bytes_received_ s + blen bytes)) s)
         else
           set_bytes_received_ (to_uint64 (bytes_received_ s + blen bytes))
             s) in *.
  assert (Counted : exists l0,
    extends s counted l0 /\ count is_FileMakeVisible l0 = 0%nat /\
    system_state_ counted = true).
  { subst counted. destruct (delegate_ s) eqn:Ed; eexists;
      (split; [unfold extends; simpl; news|]); simpl; auto. }
  destruct Counted as [l0 [E0 [M0 S0]]]. unfold extends in E0.
  assert (After : forall x lx,
    log x = log s ++ lx -> count is_FileMakeVisible lx = 0%nat ->
    system_state_ x = true ->
    exists news,
      extends s (ReceivedBytes_promote x) news /\ promotes news).
  { intros x lx Ex Mx Sx.
    destruct (ReceivedBytes_promote_promotes x Sx) as [lp [Ep Pp]].
    exists (lx ++ lp).
    split; [unfold extends in *; rewrite Ep, Ex, app_assoc; reflexivity|].
    apply promotes_after; assumption. }
  destruct (writer_ s) as [w|] eqn:Ew.
  - destruct (writer_Write (log counted) bytes) as [ok error] eqn:Eww.
    simpl fst in Cases. simpl snd in Cases.
    set (written :=
           set_code_ error (emit (c_Write bytes ok error) counted)) in *.
    assert (Written :
      log written = log s ++ l0 ++ [c_Write bytes ok error] /\
      system_state_ written = true).
    { subst written. simpl. rewrite E0, <- app_assoc. auto. }
    destruct Written as [Lw Sw]. clearbody written. clearbody counted.
    destruct ok; rewrite Cases.
    + apply (After written (l0 ++ [c_Write bytes true error]) Lw);
        [rewrite count_app, M0; reflexivity|exact Sw].
    + set (dropped :=
             if negb (String.eqb (p2p_file_id_ s) "") then
               CloseP2PSharingFd true written
             else written) in *.
      assert (Dropped : exists ld,
        extends written dropped ld /\
        count is_FileMakeVisible ld = 0%nat).
      { subst dropped.
        destruct (negb (String.eqb (p2p_file_id_ s) "")).
        - destruct (CloseP2PSharingFd_step true written Sw)
            as [l [[_ [E K]] _]].
          exists l. split; [exact E|].
          apply (p2p_calls_quiet _ K).
        - exists []. split; [unfold extends; symmetry; apply app_nil_r|].
          reflexivity. }
      clearbody dropped. destruct Dropped as [ld [Ed Md]].
      destruct (TerminateProcessing_step dropped)
        as [lt [Et [_ [_ [_ [_ [_ [_ [_ [_ [_ [_ [Mvt _]]]]]]]]]]]]].
      exists ((l0 ++ [c_Write bytes false error]) ++ ld ++ lt).
      split.
      { unfold extends in *. rewrite Et, Ed, Lw, <- !app_assoc.
        reflexivity. }
      left. rewrite !count_app, M0, Md, Mvt. reflexivity.
  - rewrite Cases. clearbody counted.
    apply (After counted l0 E0 M0 S0).
Qed.

Lemma handle_promotes s e :
  sharing_inv s ->
  exists news, extends s (handle s e) news /\ promotes news.
Proof.
  intros Inv. pose proof Inv as [Hs [Hc _]].
  unfold handle. rewrite Hc.
  destruct e as [offset|bytes|successful| |].
  - exists []. split; [unfold extends; simpl; symmetry; apply app_nil_r|].
    left. reflexivity.
  - rewrite ReceivedBytes_parts.
    destruct (ReceivedBytes_mirror_step bytes s Inv)
      as [lm [[_ [Em Km]] [Invm _]]].
    set (m := ReceivedBytes_mirror bytes s) in *. clearbody m.
    pose proof Invm as [Hsm [Hcm _]].
    destruct (ReceivedBytes_forward_promotes bytes m Hsm Hcm)
      as [lf [Ef Pf]].
    exists (lm ++ lf).
    split; [unfold extends in *; rewrite Ef, Em, app_assoc; reflexivity|].
    apply promotes_after; [|exact Pf].
    apply (p2p_calls_quiet _ Km).
  - destruct (TransferComplete_shape successful s Hs Hc)
      as [closing [code [verifying [deleting Shape]]]].
    cbv zeta in Shape.
    destruct Shape
      as [Ext [[_ [_ [Mc _]]] [_ [Everif [[Kd _] _]]]]].
    eexists. split; [exact Ext|]. left.
    rewrite !count_app, Mc, (proj1 (proj2 (p2p_calls_quiet _ Kd))), Everif.
    destruct (successful && delta_performer_ s); reflexivity.
  - unfold TransferTerminated.
    destruct (negb (ErrorCode_eqb (code_ s) kSuccess)).
    + exists [c_ActionComplete (code_ s)]. split; [reflexivity|].
      left. reflexivity.
    + exists []. split; [unfold extends; symmetry; apply app_nil_r|].
      left. reflexivity.
  - destruct (TerminateProcessing_step s)
      as [lt [Et [_ [_ [_ [_ [_ [_ [_ [_ [_ [_ [Mvt _]]]]]]]]]]]]].
    exists lt. split; [exact Et|]. left. exact Mvt.
Qed.

(** X19.  [WriteToP2PFile] writes all of the chunk at the offset asked
    for, or gives the P2P file up: either the file is deleted (one
    [unlink]) and P2P sharing is off, or nothing is deleted, the file
    stays open under the same id, and the last three calls are
    [FileSize] answering at least the offset, [lseek] to the offset
    answering the offset, and [write] of the chunk answering its
    length; in both cases all the calls made are calls on the P2P file,
    [FileShare] is called exactly when the descriptor was not open, and
    no other member changes. *)
Theorem p2p_write_is_all_or_nothing data file_offset s :
  system_state_ s = true ->
  exists news,
    extends s (WriteToP2PFile data file_offset s) news /\
    same_core s (WriteToP2PFile data file_offset s) /\
    Forall (fun c => is_p2p_file_call c = true) news /\
    count is_FileShare news =
      (if (p2p_sharing_fd_ s =? -1)%Z then 1 else 0)%nat /\
    ((p2p_off (WriteToP2PFile data file_offset s) /\
      count is_unlink news = 1%nat) \/
     (p2p_file_id_ (WriteToP2PFile data file_offset s) = p2p_file_id_ s /\
      p2p_sharing_fd_ (WriteToP2PFile data file_offset s) <> -1 /\
      count is_unlink news = 0%nat /\
      exists before size,
        let fd := p2p_sharing_fd_ (WriteToP2PFile data file_offset s) in
        news = before ++
               [c_FileSize fd size; c_lseek fd file_offset file_offset;
                c_write fd data (to_int64 (blen data))] /\
        file_offset <= size /\ count is_p2p_write before = 0%nat)).
Proof.
  intros Hs.
  destruct (WriteToP2PFile_step data file_offset s Hs)
    as [news [[Core [Ext Kind]] [Nfs [_ Cases]]]].
  exists news. split; [exact Ext|]. split; [exact Core|].
  split; [exact Kind|]. split; [exact Nfs|exact Cases].
Qed.

(** X20.  [SetupP2PSharingFd] asks the P2P manager once to share the
    file and writes nothing to it.  When it returns true the file is
    open under the same id and nothing was deleted; when it returns
    false, whichever of [FileShare], [open] and [fchmod] failed, the
    file was deleted (one [unlink]), P2P sharing is off, and
    [p2p_visible_] is as it was. *)
Theorem p2p_setup_succeeds_or_cleans_up s :
  system_state_ s = true ->
  exists news,
    extends s (fst (SetupP2PSharingFd s)) news /\
    same_core s (fst (SetupP2PSharingFd s)) /\
    Forall (fun c => is_p2p_file_call c = true) news /\
    count is_FileShare news = 1%nat /\
    count is_p2p_write news = 0%nat /\
    (snd (SetupP2PSharingFd s) = true ->
     p2p_file_id_ (fst (SetupP2PSharingFd s)) = p2p_file_id_ s /\
     p2p_sharing_fd_ (fst (SetupP2PSharingFd s)) <> -1 /\
     count is_unlink news = 0%nat) /\
    (snd (SetupP2PSharingFd s) = false ->
     p2p_off (fst (SetupP2PSharingFd s)) /\
     p2p_visible_ (fst (SetupP2PSharingFd s)) = p2p_visible_ s /\
     count is_unlink news = 1%nat).
Proof.
  intros Hs.
  destruct (SetupP2PSharingFd_step s Hs)
    as [news [[Core [Ext Kind]] [Nfs [Nwr [Ok Ko]]]]].
  exists news. split; [exact Ext|]. split; [exact Core|].
  split; [exact Kind|]. split; [exact Nfs|]. split; [exact Nwr|].
  split; [exact Ok|exact Ko].
Qed.

(** X21.  In every state of a run (with a system state and an input
    plan), each call of [FileMakeVisible] in the log comes immediately
    after a call of [IsManifestValid] that answered true: the P2P file
    is never made visible without the manifest having just been found
    valid. *)
Theorem p2p_file_promoted_only_after_valid_manifest
    test_writer_set delegate_set plan out_pipe s :
  reachable
    (init test_writer_set delegate_set true (Some plan) out_pipe) s ->
  promoted_after_valid None (log s) = true.
Proof.
  intros R.
  assert (G : sharing_inv s /\ promoted_after_valid None (log s) = true).
  { induction R as [|s e R [Inv IH]].
    - split; [apply PerformAction_init|].
      destruct (PerformAction_shape
                  (init test_writer_set delegate_set true (Some plan)
                     out_pipe) plan eq_refl eq_refl)
        as [news [E [_ [_ [_ [_ [Mv _]]]]]]].
      set (p := PerformAction _) in *. clearbody p.
      unfold extends in E. simpl in E. rewrite E.
      apply promoted_quiet. exact Mv.
    - split; [apply handle_step; exact Inv|].
      destruct (handle_promotes s e Inv) as [news [E P]].
      unfold extends in E. rewrite E, promoted_app, IH.
      apply (promotes_justified _ _ P). }
  exact (proj2 G).
Qed.

End MoreFacts.

Section MoreRuns.

Import DownloadExample.

Lemma p2p_write_is_all_or_nothing_witness :
  let world := good_world in
  let s := PerformAction fresh in
  let data := [x01; x02] in
  let file_offset := 0 in
  exists news,
    extends s (WriteToP2PFile data file_offset s) news /\
    same_core s (WriteToP2PFile data file_offset s) /\
    Forall (fun c => is_p2p_file_call c = true) news /\
    count is_FileShare news =
      (if (p2p_sharing_fd_ s =? -1)%Z then 1 else 0)%nat /\
    ((p2p_off (WriteToP2PFile data file_offset s) /\
      count is_unlink news = 1%nat) \/
     (p2p_file_id_ (WriteToP2PFile data file_offset s) = p2p_file_id_ s /\
      p2p_sharing_fd_ (WriteToP2PFile data file_offset s) <> -1 /\
      count is_unlink news = 0%nat /\
      exists before size,
        let fd := p2p_sharing_fd_ (WriteToP2PFile data file_offset s) in
        news = before ++
               [c_FileSize fd size; c_lseek fd file_offset file_offset;
                c_write fd data (to_int64 (blen data))] /\
        file_offset <= size /\ count is_p2p_write before = 0%nat)).
Proof.
  intros world s data file_offset.
  apply (p2p_write_is_all_or_nothing (world := world) data file_offset s).
  reflexivity.
Defined.

Lemma p2p_setup_succeeds_or_cleans_up_witness :
  let world := good_world in
  let s := PerformAction fresh in
  exists news,
    extends s (fst (SetupP2PSharingFd s)) news /\
    same_core s (fst (SetupP2PSharingFd s)) /\
    Forall (fun c => is_p2p_file_call c = true) news /\
    count is_FileShare news = 1%nat /\
    count is_p2p_write news = 0%nat /\
    (snd (SetupP2PSharingFd s) = true ->
     p2p_file_id_ (fst (SetupP2PSharingFd s)) = p2p_file_id_ s /\
     p2p_sharing_fd_ (fst (SetupP2PSharingFd s)) <> -1 /\
     count is_unlink news = 0%nat) /\
    (snd (SetupP2PSharingFd s) = false ->
     p2p_off (fst (SetupP2PSharingFd s)) /\
     p2p_visible_ (fst (SetupP2PSharingFd s)) = p2p_visible_ s /\
     count is_unlink news = 1%nat).
Proof.
  intros world s.
  apply (p2p_setup_succeeds_or_cleans_up (world := world) s).
  reflexivity.
Defined.

Lemma p2p_file_promoted_only_after_valid_manifest_witness :
  let world := good_world in
  let s := handle (PerformAction fresh) (EvReceivedBytes [x01]) in
  promoted_after_valid None (log s) = true.
Proof.
  intros world s.
  apply (p2p_file_promoted_only_after_valid_manifest (world := world)
           false true example_plan true s).
  apply reach_handle. apply reach_perform.
Defined.

End MoreRuns.

End DownloadLogFacts.
